(** * balena-supervisor: update locks, device state and the v2 device API

    A shallow embedding of the parts of the supervisor that the
    specification talks about:

    - [UpdateLock]  : [src/lib/update-lock.ts] (advisory lock files, the
      [locksTaken] registry, [dispose], [lock]);
    - [DeviceState] : [src/device-state.ts] ([healthcheck], [applyError],
      [triggerApplyTarget], [validateState], [setTarget], [reboot],
      [shutdown], [executeStepAction], [rebootOrShutdown]);
    - [V2Api]       : [src/device-api/v2.ts] ([handleServiceAction], the purge
      and restart handlers, the listing endpoints);
    - [SystemInfo]  : [src/lib/system-info.ts] (the usage figures and
      [filterNonSignificantChanges]);
    - [LogMonitor]  : the journal log monitor ([handleRow], [flushDb]);
    - [ConfigFunctions] : the computed configuration values;
    - [Sample]      : a concrete device to run the model on.

    [DeviceState] also holds the status ([getStatus], [GET /v1/device]) and
    the cycles of [applyTarget]; [V2Api] also holds
    [POST /v2/local/target-state].

    The facts proved about them follow in [UpdateLockFacts],
    [DeviceStateFacts] and [V2ApiFacts], and further properties of the
    code in [UpdateLockProps], [DeviceStateProps], [V2ApiProps],
    [ApplyProps], [LocalModeProps], [SystemInfoProps], [LogMonitorProps]
    and [ConfigFunctionsProps].

    Promises are modelled sequentially: an asynchronous function becomes a
    function from the state before the call to an [Outcome] (resolved or
    rejected) and the state after it.  Calls into code that is not part of
    these files (the file system, the lockfile library, the container
    runtime, the database) go through interfaces whose results are inputs of
    the model.  JavaScript numbers are integers ([Z]) where the program uses
    them as identifiers or millisecond counts, and exact rationals ([Q])
    where it divides. *)

From Stdlib Require Import ZArith String List Bool Lia QArith Qround.
From Stdlib Require Import DecimalString.
From stdpp Require Import base option list gmap strings pretty.

Set Warnings "-register-all".
Open Scope Z_scope.

(** ** Errors and promise outcomes *)

(** The error values the modelled code throws, catches or tests with
    [instanceof]: [UpdatesLockedError] and [InternalInconsistencyError] from
    [lib/errors], Node's errors that carry a [code] (what the [ENOENT]
    predicate inspects), and plain [new Error(message)]. *)
Inductive JsError : Type :=
| UpdatesLockedError (message : string)
| InternalInconsistencyError (message : string)
| ErrnoException (code : string) (message : string)
| PlainError (message : string).

Definition message (e : JsError) : string :=
  match e with
  | UpdatesLockedError m => m
  | InternalInconsistencyError m => m
  | ErrnoException _ m => m
  | PlainError m => m
  end.

(** [e instanceof UpdatesLockedError] *)
Definition isUpdatesLockedError (e : JsError) : bool :=
  match e with UpdatesLockedError _ => true | _ => false end.

(** The [ENOENT] predicate of [lib/errors], used with [catchReturn]. *)
Definition ENOENT (e : JsError) : bool :=
  match e with
  | ErrnoException code _ => bool_decide (code = "ENOENT")
  | _ => false
  end.

(** A settled promise. *)
Inductive Outcome (A : Type) : Type :=
| Resolved (a : A)
| Rejected (e : JsError).
Arguments Resolved {A} a.
Arguments Rejected {A} e.

Definition isResolved {A} (o : Outcome A) : bool :=
  match o with Resolved _ => true | Rejected _ => false end.

(** ** JavaScript values

    Request bodies, target states and JSON replies.  Objects are association
    lists of own properties; [JsErrorObject] is an [Error] instance handed to
    a serialiser. *)
Inductive JsValue : Type :=
| JsUndefined
| JsNull
| JsBool (b : bool)
| JsNumber (n : Z)
| JsString (s : string)
| JsArray (items : list JsValue)
| JsObject (fields : list (string * JsValue))
| JsErrorObject (e : JsError).

Fixpoint assoc {A} (k : string) (l : list (string * A)) : option A :=
  match l with
  | [] => None
  | (k', v) :: l' => if decide (k = k') then Some v else assoc k l'
  end.

(** Property read [v.k] on a value that is known not to be null: own
    properties of plain objects; anything else reads as [undefined]. *)
Definition prop (v : JsValue) (k : string) : JsValue :=
  match v with
  | JsObject fields => default JsUndefined (assoc k fields)
  | _ => JsUndefined
  end.

Fixpoint assoc_Z {A} (k : Z) (l : list (Z * A)) : option A :=
  match l with
  | [] => None
  | (k', v) :: l' => if decide (k = k') then Some v else assoc_Z k l'
  end.

(** [v == null] *)
Definition isNullish (v : JsValue) : bool :=
  match v with JsUndefined | JsNull => true | _ => false end.

(** [_.isObject(v)] *)
Definition isObject (v : JsValue) : bool :=
  match v with JsObject _ | JsArray _ | JsErrorObject _ => true | _ => false end.

(** What [lib/validation] exports to the modelled code. *)
Class Validation := {
  checkInt : string → option Z;
  checkTruthy : JsValue → bool;
  isValidShortText : JsValue → bool;
  isValidAppsObject : JsValue → bool;
  isValidEnv : JsValue → bool;
  isValidDependentAppsObject : JsValue → bool;
  isValidDependentDevicesObject : JsValue → bool;
}.

(** ** [src/lib/update-lock.ts] *)

Module UpdateLock.

(** What the module needs from the host: [fs.readdir], the promisified
    [lockfile] library and [getPathOnHost] of [lib/fs-utils].  [Host] is the
    state of the device outside the supervisor process (for this module, its
    file system).  [lockfile.unlock] is best effort: it never reports an
    error. *)
Class LockFileHost := {
  Host : Type;
  getPathOnHost : string → string;
  readdir : string → Host → Outcome (list string);
  lockAsync : string → Host → Outcome unit * Host;
  unlockAsync : string → Host → Host;
}.

(** Observable calls, in the order they are issued. *)
Inductive Event : Type :=
| WriteLock (key : Z)                              (* writeLock(appId) granted *)
| Release (key : Z)                                (* its release() called *)
| Readdir (dir : string)
| UnlockAsync (path : string)
| LockAsync (path : string) (failure : option JsError)
| Invoke.                                          (* fn() called *)

(** [path.join] on plain segments: empty segments are dropped. *)
Definition path_join (segments : list string) : string :=
  String.concat "/" (filter (λ s, s ≠ "") segments).

Definition lockPath (appId : Z) (serviceName : option string) : string :=
  path_join ["/tmp/balena-supervisor/services"; pretty appId;
             default "" serviceName].

Section WithHost.
Context {lockHost : LockFileHost}.

Definition lockFilesOnHost (appId : Z) (serviceName : string) : list string :=
  (λ filename, getPathOnHost (path_join [lockPath appId None; serviceName; filename]))
    <$> ["updates.lock"; "resin-updates.lock"].

(** The state the module works on.  [locksTaken] holds the keys of the
    module-global registry object in the order [_.keys] enumerates them:
    lock names are paths, never array indices, so this is insertion order. *)
Record World := mkWorld {
  fs : Host;
  locksTaken : list string;
  trace : list Event;
}.

Definition emit (e : Event) (w : World) : World :=
  mkWorld (fs w) (locksTaken w) (trace w ++ [e]).

(** [locksTaken[name] = true]: an existing key keeps its place. *)
Definition registry_set (keys : list string) (name : string) : list string :=
  if decide (name ∈ keys) then keys else keys ++ [name].

(** [delete locksTaken[name]] *)
Definition registry_delete (keys : list string) (name : string) : list string :=
  filter (λ k, k ≠ name) keys.

Definition callUnlockAsync (name : string) (w : World) : World :=
  mkWorld (unlockAsync name (fs w)) (locksTaken w) (trace w ++ [UnlockAsync name]).

(** The mapper of [dispose]. *)
Definition disposeOne (w : World) (lockName : string) : World :=
  callUnlockAsync lockName
    (mkWorld (fs w) (registry_delete (locksTaken w) lockName) (trace w)).

(** [dispose(release)]: the mapper runs over [_.keys(locksTaken)] as it is
    when [dispose] is called, then [release] is called. *)
Definition dispose (release : Z) (w : World) : World :=
  emit (Release release) (foldl disposeOne w (locksTaken w)).

(** [Bluebird.mapSeries]: one element after the other, stopping at the first
    rejection. *)
Fixpoint mapSeries {A} (f : A → World → Outcome unit * World)
    (l : list A) (w : World) : Outcome unit * World :=
  match l with
  | [] => (Resolved tt, w)
  | x :: l' =>
      match f x w with
      | (Resolved _, w') => mapSeries f l' w'
      | (Rejected e, w') => (Rejected e, w')
      end
  end.

(** The inner mapper of [lock]: optional [unlockAsync] under [force], then
    [lockAsync], then the registration, with [catchReturn(ENOENT)]. *)
Definition takeLockFile (force : bool) (tmpLockName : string) (w : World)
    : Outcome unit * World :=
  let w1 := if force then callUnlockAsync tmpLockName w else w in
  match lockAsync tmpLockName (fs w1) with
  | (Resolved _, fs') =>
      (Resolved tt,
       mkWorld fs' (registry_set (locksTaken w1) tmpLockName)
               (trace w1 ++ [LockAsync tmpLockName None]))
  | (Rejected e, fs') =>
      (if ENOENT e then Resolved tt else Rejected e,
       mkWorld fs' (locksTaken w1) (trace w1 ++ [LockAsync tmpLockName (Some e)]))
  end.

(** The outer mapper: both lock files of one service; any rejection is
    answered by [dispose(release).throw(new UpdatesLockedError(...))]. *)
Definition takeServiceLocks (appId : Z) (force : bool) (serviceName : string)
    (w : World) : Outcome unit * World :=
  match mapSeries (takeLockFile force) (lockFilesOnHost appId serviceName) w with
  | (Resolved _, w') => (Resolved tt, w')
  | (Rejected err, w') =>
      (Rejected (UpdatesLockedError ("Updates are locked: " +:+ message err)),
       dispose appId w')
  end.

(** [takeTheLock] for a non-null [appId]: the [tap] after [writeLock]. *)
Definition takeTheLock (appId : Z) (force : bool) (w : World)
    : Outcome unit * World :=
  let lockDir := getPathOnHost (lockPath appId None) in
  let w1 := emit (Readdir lockDir) (emit (WriteLock appId) w) in
  match readdir lockDir (fs w1) with
  | Resolved names => mapSeries (takeServiceLocks appId force) names w1
  | Rejected e =>
      if ENOENT e then mapSeries (takeServiceLocks appId force) [] w1
      else (Rejected e, w1)
  end.

(** [lock(appId, { force }, fn)].  With a disposer, [Bluebird.using] runs
    [fn] once the resource is there and the disposer once [fn] has settled;
    without one, [fn] is simply called. *)
Definition lock (appId : option Z) (force : bool)
    (fn : World → Outcome unit * World) (w : World) : Outcome unit * World :=
  match appId with
  | None => fn (emit Invoke w)
  | Some a =>
      match takeTheLock a force w with
      | (Resolved _, w1) =>
          let '(r, w2) := fn (emit Invoke w1) in (r, dispose a w2)
      | (Rejected e, w1) => (Rejected e, w1)
      end
  end.

(** The world in which the acquisition starts: the writer lock is held and
    the lock directory is being listed. *)
Definition started (appId : Z) (w : World) : World :=
  emit (Readdir (getPathOnHost (lockPath appId None))) (emit (WriteLock appId) w).

(** The service names the acquisition runs over: the listing, or nothing
    when the directory is missing; [None] when [readdir] fails otherwise. *)
Definition listing (appId : Z) (w : World) : option (list string) :=
  match readdir (getPathOnHost (lockPath appId None)) (fs w) with
  | Resolved names => Some names
  | Rejected e => if ENOENT e then Some [] else None
  end.

(** Every lock file of the listed services, in the order [lock] visits
    them. *)
Definition lockFilesOfApp (appId : Z) (names : list string) : list string :=
  concat (lockFilesOnHost appId <$> names).

(** Lock files that [lockAsync] granted, in the order of the calls. *)
Definition acquired (t : list Event) : list string :=
  omap (λ ev, match ev with LockAsync p None => Some p | _ => None end) t.

(** Names handed to [unlockAsync], in the order of the calls. *)
Definition unlocked (t : list Event) : list string :=
  omap (λ ev, match ev with UnlockAsync p => Some p | _ => None end) t.

(** Lock files handed to [lockAsync], granted or not, in the order of the
    calls. *)
Definition attempted (t : list Event) : list string :=
  omap (λ ev, match ev with LockAsync p _ => Some p | _ => None end) t.

(** A rejection that [catchReturn(ENOENT, ...)] swallows, or none. *)
Definition benign (failure : option JsError) : Prop :=
  match failure with
  | Some e => ENOENT e = true
  | None => True
  end.

(** What a stretch of the acquisition does to the trace and the registry:
    events are appended, and the granted lock files are registered. *)
Definition extends (w w' : World) : Prop :=
  ∃ t, trace w' = trace w ++ t
       ∧ locksTaken w' = foldl registry_set (locksTaken w) (acquired t).

End WithHost.

End UpdateLock.

(** ** [src/device-state.ts] *)

Module DeviceState.

(** The modules [device-state.ts] calls into: [config], [db],
    [device-config], [compose/application-manager], [lib/dbus], [pretty-ms]
    and the constant [backoffIncrement] of [lib/constants].  [Ext] is their
    state; the persisted target lives there. *)
Class Collaborators := {
  Ext : Type;
  backoffIncrement : Z;
  prettyMs : Z → string;
  config_get_lockOverride : Ext → bool;
  config_get_unmanaged : Ext → bool;
  config_get_apiEndpoint : Ext → option string;
  config_set_name : JsValue → Ext → Outcome unit * Ext;
  deviceConfig_setTarget : JsValue → Ext → Outcome unit * Ext;
  deviceConfig_isValidAction : string → bool;
  deviceConfig_executeStepAction : string → option bool → Ext → Outcome unit * Ext;
  applicationManager_setTarget :
    JsValue → JsValue → string → Ext → Outcome unit * Ext;
  applicationManager_validActions : list string;
  applicationManager_executeStep :
    string → JsValue → option bool → option bool → Ext → Outcome JsValue * Ext;
  applicationManager_stopAll :
    option bool → option bool → Ext → Outcome unit * Ext;
  applicationManager_timeSpentFetching : Ext → Q;
  applicationManager_fetchesInProgress : Ext → Z;
  dbus_reboot : Ext → Outcome unit * Ext;
  dbus_shutdown : Ext → Outcome unit * Ext;
}.

Inductive LogLevel : Type := LevelInfo | LevelError | LevelDebug | LevelSuccess.

(** What the module does to the outside, in order. *)
Inductive Effect : Type :=
| EmitAsync (event : string) (payload : option JsError)
| GlobalEmit (event : string)
| Log (level : LogLevel) (text : string)
| LogSystemMessage (text : string) (eventName : string)
| SetTimeout (delay : Z)
| CallCancelDelay
| Transaction
| CallStopAll (force : option bool) (skipLock : option bool)
| CallResetRateLimits
| CallDbusReboot
| CallDbusShutdown.

(** A step as [executeStepAction] sees it: its [action] and the rest. *)
Record Step := mkStep {
  action : string;
  context : JsValue;
}.

(** What a route handler sends: [res.status(status).json(body)]. *)
Record Reply := mkReply {
  status : Z;
  body : JsValue;
}.

(** [scheduledApply: { force?: boolean; delay?: number } | null] *)
Record ScheduledApply := mkScheduled {
  sa_force : option bool;
  sa_delay : option Z;
}.

Section WithCollaborators.
Context {validation : Validation} {collaborators : Collaborators}.

(** The module-level variables the modelled functions use, the effects so
    far and the collaborators.  [cancelDelay] tells whether a cancel
    function is installed; [maxPollTime] is the poll interval that
    [loadInitialState] has read from the configuration. *)
Record State := mkState {
  maxPollTime : Z;
  failedUpdates : Z;
  applyCancelled : bool;
  scheduledApply : option ScheduledApply;
  shuttingDown : bool;
  applyInProgress : bool;
  cancelDelay : bool;
  currentVolatile : gmap string JsValue;
  effects : list Effect;
  ext : Ext;
}.

Definition effect (e : Effect) (s : State) : State :=
  mkState (maxPollTime s) (failedUpdates s) (applyCancelled s) (scheduledApply s)
          (shuttingDown s) (applyInProgress s) (cancelDelay s) (currentVolatile s)
          (effects s ++ [e]) (ext s).

Definition set_ext (x : Ext) (s : State) : State :=
  mkState (maxPollTime s) (failedUpdates s) (applyCancelled s) (scheduledApply s)
          (shuttingDown s) (applyInProgress s) (cancelDelay s) (currentVolatile s)
          (effects s) x.

Definition set_failedUpdates (n : Z) (s : State) : State :=
  mkState (maxPollTime s) n (applyCancelled s) (scheduledApply s)
          (shuttingDown s) (applyInProgress s) (cancelDelay s) (currentVolatile s)
          (effects s) (ext s).

Definition set_scheduledApply (a : option ScheduledApply) (s : State) : State :=
  mkState (maxPollTime s) (failedUpdates s) (applyCancelled s) a
          (shuttingDown s) (applyInProgress s) (cancelDelay s) (currentVolatile s)
          (effects s) (ext s).

Definition set_shuttingDown (b : bool) (s : State) : State :=
  mkState (maxPollTime s) (failedUpdates s) (applyCancelled s) (scheduledApply s)
          b (applyInProgress s) (cancelDelay s) (currentVolatile s)
          (effects s) (ext s).

Definition set_applyInProgress (b : bool) (s : State) : State :=
  mkState (maxPollTime s) (failedUpdates s) (applyCancelled s) (scheduledApply s)
          (shuttingDown s) b (cancelDelay s) (currentVolatile s)
          (effects s) (ext s).

Definition set_applyCancelled (b : bool) (s : State) : State :=
  mkState (maxPollTime s) (failedUpdates s) b (scheduledApply s)
          (shuttingDown s) (applyInProgress s) (cancelDelay s) (currentVolatile s)
          (effects s) (ext s).

Definition set_cancelDelay (b : bool) (s : State) : State :=
  mkState (maxPollTime s) (failedUpdates s) (applyCancelled s) (scheduledApply s)
          (shuttingDown s) (applyInProgress s) b (currentVolatile s)
          (effects s) (ext s).

Definition set_currentVolatile (v : gmap string JsValue) (s : State) : State :=
  mkState (maxPollTime s) (failedUpdates s) (applyCancelled s) (scheduledApply s)
          (shuttingDown s) (applyInProgress s) (cancelDelay s) v
          (effects s) (ext s).

(** *** Validation of a target state *)

Definition validateLocalState (state : JsValue) : option JsError :=
  if negb (isNullish (prop state "name"))
     && negb (isValidShortText (prop state "name"))
  then Some (PlainError "Invalid device name")
  else if isNullish (prop state "apps")
          || negb (isValidAppsObject (prop state "apps"))
  then Some (PlainError "Invalid apps")
  else if isNullish (prop state "config")
          || negb (isValidEnv (prop state "config"))
  then Some (PlainError "Invalid device configuration")
  else None.

Definition validateDependentState (state : JsValue) : option JsError :=
  if negb (isNullish (prop state "apps"))
     && negb (isValidDependentAppsObject (prop state "apps"))
  then Some (PlainError "Invalid dependent apps")
  else if negb (isNullish (prop state "devices"))
          && negb (isValidDependentDevicesObject (prop state "devices"))
  then Some (PlainError "Invalid dependent devices")
  else None.

(** [validateState]: [Some e] when it throws [e]. *)
Definition validateState (state : JsValue) : option JsError :=
  if negb (isObject state) then Some (PlainError "State must be an object")
  else if negb (isObject (prop state "local"))
  then Some (PlainError "Local state must be an object")
  else match validateLocalState (prop state "local") with
       | Some e => Some e
       | None =>
           if negb (isNullish (prop state "dependent"))
           then validateDependentState (prop state "dependent")
           else None
       end.

(** The messages [validateState] can throw for the local part of a
    target. *)
Definition validationMessages : list string :=
  ["State must be an object"; "Local state must be an object";
   "Invalid device name"; "Invalid apps"; "Invalid device configuration"].

(** *** [setTarget] *)

(** [db.transaction]: the writes of a callback that rejects are rolled back. *)
Definition transaction (body : Ext → Outcome unit * Ext) (x : Ext)
    : Outcome unit * Ext :=
  match body x with
  | (Resolved _, x') => (Resolved tt, x')
  | (Rejected e, _) => (Rejected e, x)
  end.

Definition andThen (f g : Ext → Outcome unit * Ext) (x : Ext)
    : Outcome unit * Ext :=
  match f x with
  | (Resolved _, x') => g x'
  | (Rejected e, x') => (Rejected e, x')
  end.

(** [usingWriteLockTarget(fn)] is [Bluebird.using(writeLockTarget, () => fn())]:
    it hands [using] the function [writeLockTarget] itself, not the disposer
    that a call of it would make, so [writeLock('target')] is never
    requested and [fn] runs at once. *)
Definition setTarget (target : JsValue) (localSource : option bool) (s : State)
    : Outcome unit * State :=
  let localSource := default false localSource in
  let s := set_failedUpdates 0 s in
  match validateState target with
  | Some e => (Rejected e, s)
  | None =>
      let s := effect (GlobalEmit "targetStateChanged") s in
      let apiEndpoint := config_get_apiEndpoint (ext s) in
      let source :=
        match apiEndpoint with
        | Some endpoint =>
            if localSource || bool_decide (endpoint = "") then "local"
            else endpoint
        | None => "local"
        end in
      let local := prop target "local" in
      let s := effect Transaction s in
      let '(r, x) :=
        transaction
          (andThen (config_set_name (prop local "name"))
             (andThen (deviceConfig_setTarget (prop local "config"))
                (applicationManager_setTarget (prop local "apps")
                   (prop target "dependent") source)))
          (ext s) in
      (r, set_ext x s)
  end.

(** *** [healthcheck] *)

Definition Qlt_bool (x y : Q) : bool := negb (Qle_bool y x).

(** [cycleTime] is [process.hrtime(lastApplyStart)]: seconds and
    nanoseconds elapsed since the last apply started. *)
Definition cycleTimeMs (cycleTime : Z * Z) : Q :=
  (inject_Z (fst cycleTime) * 1000 + inject_Z (snd cycleTime) / 1000000)%Q.

Definition cycleTimeWithinInterval (cycleTime : Z * Z) (s : State) : bool :=
  Qlt_bool (cycleTimeMs cycleTime - applicationManager_timeSpentFetching (ext s))
           (2 * inject_Z (maxPollTime s))%Q.

Definition applyTargetHealthy (cycleTime : Z * Z) (s : State) : bool :=
  negb (applyInProgress s)
  || (0 <? applicationManager_fetchesInProgress (ext s))
  || cycleTimeWithinInterval cycleTime s.

(** The log entry keeps the first line of the message. *)
Definition healthcheck (cycleTime : Z * Z) (s : State) : bool * State :=
  if config_get_unmanaged (ext s) then (true, s)
  else
    let healthy := applyTargetHealthy cycleTime s in
    (healthy,
     if healthy then s
     else effect (Log LevelInfo
                    "Healthcheck failure - At least ONE of the following conditions must be true:")
                 s).

(** *** The apply loop: [reportCurrentState], [triggerApplyTarget],
    [applyError] *)

(** [currentVolatile = { ...currentVolatile, ...newState }] and
    [emitAsync('change')]. *)
Definition reportCurrentState (newState : gmap string JsValue) (s : State)
    : State :=
  effect (EmitAsync "change" None)
         (set_currentVolatile (newState ∪ currentVolatile s) s).


(** The synchronous part of [triggerApplyTarget]: either the request is
    merged into [scheduledApply], or the apply is marked in progress and its
    timer is set.  What the timer starts is the next apply cycle. *)
Definition triggerApplyTarget (force : option bool) (delay : option Z)
    (initial isFromApi : option bool) (s : State) : Outcome unit * State :=
  let force := default false force in
  let delay := default 0 delay in
  let isFromApi := default false isFromApi in
  if applyInProgress s then
    let overwrite :=
      let s := set_scheduledApply (Some (mkScheduled (Some force) (Some delay))) s in
      (Resolved tt,
       if isFromApi && cancelDelay s then effect CallCancelDelay s else s) in
    match scheduledApply s with
    | None => overwrite
    | Some sa =>
        if isFromApi && cancelDelay s then overwrite
        else match sa_delay sa with
             | None =>
                 (Rejected (InternalInconsistencyError
                              "No delay specified in scheduledApply"),
                  effect (Log LevelDebug
                            "Tried to apply target with invalid delay: undefined") s)
             | Some d =>
                 let f := if default false (sa_force sa) then sa_force sa
                          else Some force in
                 (Resolved tt,
                  set_scheduledApply (Some (mkScheduled f (Some (Z.max delay d)))) s)
             end
    end
  else
    (Resolved tt,
     effect (SetTimeout delay)
       (set_cancelDelay true
          (set_applyInProgress true (set_applyCancelled false s)))).

(** The [finally] handler of the chain [triggerApplyTarget] starts. *)
Definition applyFinished (s : State) : Outcome unit * State :=
  let s := reportCurrentState ∅ (set_applyInProgress false s) in
  match scheduledApply s with
  | Some sa =>
      match triggerApplyTarget (sa_force sa) (sa_delay sa) None None s with
      | (Resolved _, s') => (Resolved tt, set_scheduledApply None s')
      | (Rejected e, s') => (Rejected e, s')
      end
  | None => (Resolved tt, s)
  end.

Definition backoffDelay (s : State) : Z :=
  Z.min (2 ^ failedUpdates s * backoffIncrement) (maxPollTime s).

Definition applyError (err : JsError) (force initial intermediate : option bool)
    (s : State) : Outcome unit * State :=
  let s := effect (EmitAsync "apply-target-state-error" (Some err)) s in
  let s := effect (EmitAsync "apply-target-state-end" (Some err)) s in
  if default false intermediate then (Rejected err, s)
  else
    let s := set_failedUpdates (failedUpdates s + 1) s in
    let s := reportCurrentState {[ "update_failed" := JsBool true ]} s in
    match scheduledApply s with
    | Some _ =>
        (Resolved tt,
         if isUpdatesLockedError err then s
         else effect (Log LevelError
                "Updating failed, but there's another update scheduled immediately: ") s)
    | None =>
        let delay := backoffDelay s in
        let s :=
          if isUpdatesLockedError err then
            let message :=
              "Updates are locked, retrying in " +:+ prettyMs delay +:+ "..." in
            effect (Log LevelInfo message)
                   (effect (LogSystemMessage message "updateLocked") s)
          else
            effect (Log LevelError
                      ("Scheduling another update attempt in " +:+ pretty delay
                       +:+ "ms due to failure: ")) s in
        triggerApplyTarget force (Some delay) initial None s
    end.



Definition timers (es : list Effect) : list Z :=
  omap (λ e, match e with SetTimeout d => Some d | _ => None end) es.

(** *** Reboot and shutdown *)

Definition reboot (force skipLock : option bool) (s : State)
    : Outcome unit * State :=
  let s := effect (CallStopAll force skipLock) s in
  match applicationManager_stopAll force skipLock (ext s) with
  | (Rejected e, x) => (Rejected e, set_ext x s)
  | (Resolved _, x) =>
      let s := effect (LogSystemMessage "Rebooting" "Reboot") (set_ext x s) in
      let s := effect CallDbusReboot s in
      match dbus_reboot (ext s) with
      | (Rejected e, x) => (Rejected e, set_ext x s)
      | (Resolved _, x) =>
          (Resolved tt,
           effect (EmitAsync "shutdown" None)
                  (set_shuttingDown true (set_ext x s)))
      end
  end.

Definition shutdown (force skipLock : option bool) (s : State)
    : Outcome unit * State :=
  let s := effect (CallStopAll force skipLock) s in
  match applicationManager_stopAll force skipLock (ext s) with
  | (Rejected e, x) => (Rejected e, set_ext x s)
  | (Resolved _, x) =>
      let s := effect (LogSystemMessage "Shutting down" "Shutdown") (set_ext x s) in
      let s := effect CallDbusShutdown s in
      match dbus_shutdown (ext s) with
      | (Rejected e, x) => (Rejected e, set_ext x s)
      | (Resolved _, x) =>
          (Resolved tt,
           effect (EmitAsync "shutdown" None)
                  (set_shuttingDown true (set_ext x s)))
      end
  end.

Definition okResult : JsValue :=
  JsObject [("Data", JsString "OK"); ("Error", JsNull)].

Definition executeStepAction (step : Step) (force initial skipLock : option bool)
    (s : State) : Outcome JsValue * State :=
  if deviceConfig_isValidAction (action step) then
    match deviceConfig_executeStepAction (action step) initial (ext s) with
    | (Resolved _, x) => (Resolved JsUndefined, set_ext x s)
    | (Rejected e, x) => (Rejected e, set_ext x s)
    end
  else if bool_decide (action step ∈ applicationManager_validActions) then
    let '(r, x) :=
      applicationManager_executeStep (action step) (context step) force skipLock
                                     (ext s) in
    (r, set_ext x s)
  else if bool_decide (action step = "reboot") then
    match reboot force skipLock s with
    | (Resolved _, s') => (Resolved okResult, s')
    | (Rejected e, s') => (Rejected e, s')
    end
  else if bool_decide (action step = "shutdown") then
    match shutdown force skipLock s with
    | (Resolved _, s') => (Resolved okResult, s')
    | (Rejected e, s') => (Rejected e, s')
    end
  else if bool_decide (action step = "noop") then (Resolved JsUndefined, s)
  else (Rejected (PlainError ("Invalid action " +:+ action step)), s).

(** [(e != null ? e.message : undefined) || e || 'Unknown error'] for a
    caught error object [e]. *)
Definition errorField (e : JsError) : JsValue :=
  if bool_decide (message e = "") then JsErrorObject e else JsString (message e).

(** The handler behind the reboot and shutdown routes; the router of this
    file mounts it at [POST /v1/reboot] and [POST /v1/shutdown]. *)
Definition rebootOrShutdown (reqBody : JsValue) (action : string) (s : State)
    : Reply * State :=
  let override := config_get_lockOverride (ext s) in
  let force := checkTruthy (prop reqBody "force") || override in
  match executeStepAction (mkStep action JsUndefined) (Some force) None None s with
  | (Resolved response, s') => (mkReply 202 response, s')
  | (Rejected e, s') =>
      (mkReply (if isUpdatesLockedError e then 423 else 500)
               (JsObject [("Data", JsString ""); ("Error", errorField e)]),
       s')
  end.

(** Position of the first occurrence of an effect. *)
Fixpoint indexOf (e : Effect → bool) (es : list Effect) : option nat :=
  match es with
  | [] => None
  | x :: es' => if e x then Some O else S <$> indexOf e es'
  end.

Definition isCallStopAll (e : Effect) : bool :=
  match e with CallStopAll _ _ => true | _ => false end.

Definition isHostPrimitive (e : Effect) : bool :=
  match e with CallDbusReboot | CallDbusShutdown => true | _ => false end.

(** [triggerApplyTarget({ force, delay })] called for one request after the
    other, up to the first call that throws. *)
Fixpoint triggerAll (requests : list (bool * Z)) (s : State)
    : Outcome unit * State :=
  match requests with
  | [] => (Resolved tt, s)
  | (force, delay) :: rest =>
      match triggerApplyTarget (Some force) (Some delay) None None s with
      | (Resolved _, s') => triggerAll rest s'
      | (Rejected e, s') => (Rejected e, s')
      end
  end.

(** The scheduled apply, if there is one, has its [delay]. *)
Definition wellScheduled (s : State) : Prop :=
  match scheduledApply s with
  | Some sa => is_Some (sa_delay sa)
  | None => True
  end.

End WithCollaborators.

(** *** The rest of the module: status, steps, the apply cycle *)

(** Awaiting one promise after the other: the first rejection ends the
    chain. *)
#[global] Instance Outcome_bind : MBind Outcome :=
  λ A B f o, match o with Resolved a => f a | Rejected e => Rejected e end.

(** What [applicationManager.getStatus()] reports for a service and for an
    application: the fields this module reads. *)
Record ServiceStatus := mkServiceStatus {
  ss_status : JsValue;
  ss_download_progress : JsValue;
}.

Record AppStatus := mkAppStatus {
  as_services : list (string * ServiceStatus);
}.

(** The result of [getStatus]: [local] without its [apps], the [apps] by
    application id in the order [Object.keys] lists them, and
    [dependent.apps]. *)
Record DeviceStatus := mkDeviceStatus {
  local : gmap string JsValue;
  local_apps : list (Z * AppStatus);
  dependent_apps : JsValue;
}.

(** More of the modules [device-state.ts] calls into: the status and the
    required steps of [compose/application-manager] and [device-config],
    [compose/commit], [device-state/db-format], [config], [Bluebird.delay]
    and [Date.now].

    [stepsInParallel] is the outcome of two or more steps that run at the
    same time: [Promise.all] rejects with whichever rejection comes first
    in time, while the other steps are still under way, so both the error
    and the state of the module at that moment depend on how long the
    collaborators take.  The code does not determine that, and the model
    leaves it to the surroundings. *)
Class Surroundings {collaborators : Collaborators} := {
  applicationManager_getStatus : Ext → Outcome (list (Z * AppStatus) * JsValue);
  commitStore_getCommitForApp : Z → Ext → Outcome (option string);
  config_get_localMode : Ext → bool;
  config_get_name : Ext → Outcome JsValue;
  deviceConfig_getCurrent : Ext → Outcome JsValue;
  deviceConfig_getTarget : bool → Ext → Outcome JsValue;
  dbFormat_getApps : Ext → Outcome JsValue;
  applicationManager_getCurrentApps : Ext → Outcome JsValue;
  applicationManager_getCurrentAppsForReport : Ext → Outcome JsValue;
  applicationManager_getDependentState : Ext → Outcome JsValue;
  applicationManager_getDependentTargets : Ext → Outcome JsValue;
  applicationManager_localModeSwitchCompletion : Ext → Outcome unit * Ext;
  deviceConfig_getRequiredSteps : JsValue → JsValue → Ext → Outcome (list Step);
  applicationManager_getRequiredSteps : JsValue → Ext → Outcome (list Step);
  applicationManager_resetTimeSpentFetching : Ext → Ext;
  Bluebird_delay : Z → Ext → Ext;
  Date_now : Ext → Z;
  stepsInParallel : list Step → bool → bool → bool → State → Outcome unit * State;
}.

Section Applying.
Context {validation : Validation} {collaborators : Collaborators}
        {surroundings : Surroundings}.

(** *** [getStatus] and [GET /v1/device] *)

Definition getStatus (s : State) : Outcome DeviceStatus :=
  '(localApps, dependentApps) ← applicationManager_getStatus (ext s);
  let local := delete "apps" (currentVolatile s) in
  match head localApps with
  | Some (appId, _) =>
      commit ← commitStore_getCommitForApp appId (ext s);
      Resolved
        (mkDeviceStatus
           match commit with
           | Some c =>
               if applyInProgress s then local
               else <["is_on__commit" := JsString c]> local
           | None => local
           end
           localApps dependentApps)
  | None => Resolved (mkDeviceStatus local localApps dependentApps)
  end.

(** The fields of [state.local] that [GET /v1/device] passes on. *)
Definition deviceFields : list string :=
  ["api_port"; "ip_address"; "os_version"; "mac_address"; "supervisor_version";
   "update_pending"; "update_failed"; "update_downloaded"].

(** [_.pick(object, keys)] *)
Definition pick (keys : list string) (object : gmap string JsValue)
    : gmap string JsValue :=
  filter (λ kv, kv.1 ∈ keys) object.

(** [if (stateToSend.status === 'Running') stateToSend.status = 'Idle'] *)
Definition shownStatus (status : JsValue) : JsValue :=
  match status with
  | JsString "Running" => JsString "Idle"
  | status => status
  end.

(** [GET /v1/device]: the status and the object handed to [res.json]. *)
Definition getDevice (s : State) : Z * gmap string JsValue :=
  match getStatus s with
  | Rejected e =>
      (500, {[ "Data" := JsString ""; "Error" := errorField e ]})
  | Resolved state =>
      let stateToSend := pick deviceFields (local state) in
      let stateToSend :=
        match local state !! "is_on__commit" with
        | Some commit =>
            if isNullish commit then stateToSend
            else <["commit" := commit]> stateToSend
        | None => stateToSend
        end in
      let service :=
        head (local_apps state) ≫= λ app, snd <$> head (as_services app.2) in
      (200,
       match service with
       | Some service =>
           <["download_progress" := ss_download_progress service]>
             (<["status" := shownStatus (ss_status service)]> stateToSend)
       | None => stateToSend
       end)
  end.

(** *** [applyStep] *)

Definition applyStep (step : Step) (force initial skipLock : option bool)
    (s : State) : Outcome unit * State :=
  if shuttingDown s then (Resolved tt, s)
  else
    match executeStepAction step force initial skipLock s with
    | (Resolved _, s') =>
        (Resolved tt, effect (EmitAsync "step-completed" None) s')
    | (Rejected e, s') =>
        (Rejected e, effect (EmitAsync "step-error" (Some e)) s')
    end.

(** [Promise.all(steps.map((s) => applyStep(s, ...)))].  Every [applyStep]
    is called before anything is awaited, so all of them see the same
    [shuttingDown]: when it is set, each returns at once.  With no step
    there is nothing to wait for, and a single step is awaited alone; how
    several steps interleave is [stepsInParallel]. *)
Definition applySteps (steps : list Step) (force initial skipLock : bool)
    (s : State) : Outcome unit * State :=
  if shuttingDown s then (Resolved tt, s)
  else
    match steps with
    | [] => (Resolved tt, s)
    | [step] => applyStep step (Some force) (Some initial) (Some skipLock) s
    | _ => stepsInParallel steps force initial skipLock s
    end.

(** *** [getTarget], [getCurrentForComparison], [getCurrentState] *)

(** The module variables the apply cycle uses besides those of [State]. *)
Record Loop := mkLoop {
  core : State;
  intermediateTarget : option JsValue;
  lastSuccessfulUpdate : option Z;
}.

Definition with_core (s : State) (l : Loop) : Loop :=
  mkLoop s (intermediateTarget l) (lastSuccessfulUpdate l).

Definition deviceStateObject (name config apps dependent : JsValue) : JsValue :=
  JsObject [("local", JsObject [("name", name); ("config", config);
                                ("apps", apps)]);
            ("dependent", dependent)].

Definition getTarget (initial intermediate : bool) (l : Loop) : Outcome JsValue :=
  if intermediate then Resolved (default JsNull (intermediateTarget l))
  else
    name ← config_get_name (ext (core l));
    config ← deviceConfig_getTarget initial (ext (core l));
    apps ← dbFormat_getApps (ext (core l));
    dependent ← applicationManager_getDependentTargets (ext (core l));
    Resolved (deviceStateObject name config apps dependent).

Definition getCurrentForComparison (x : Ext) : Outcome JsValue :=
  name ← config_get_name x;
  devConfig ← deviceConfig_getCurrent x;
  apps ← applicationManager_getCurrentAppsForReport x;
  dependent ← applicationManager_getDependentState x;
  Resolved (deviceStateObject name devConfig apps dependent).

Definition getCurrentState (x : Ext) : Outcome JsValue :=
  name ← config_get_name x;
  devConfig ← deviceConfig_getCurrent x;
  apps ← applicationManager_getCurrentApps x;
  dependent ← applicationManager_getDependentState x;
  Resolved (deviceStateObject name devConfig apps dependent).

(** *** [applyTarget] *)

(** [_.every(steps, ({ action }) => action === 'noop')] *)
Definition allNoop (steps : list Step) : bool :=
  forallb (λ step, bool_decide (action step = "noop")) steps.

(** [v.k] where [v] may be null or undefined: a [TypeError] then, with the
    engine's message. *)
Definition readMember (v : JsValue) (k : string) : Outcome JsValue :=
  if isNullish v
  then Rejected (PlainError ("Cannot read property '" +:+ k +:+ "' of "
                             +:+ match v with
                                 | JsNull => "null"
                                 | _ => "undefined"
                                 end))
  else Resolved (prop v k).

(** The steps of a cycle and whether to back off: device-configuration
    steps first, the application manager's only when those are all
    no-ops. *)
Definition inferSteps (initial intermediate : bool) (l : Loop)
    : Outcome (bool * list Step) :=
  let x := ext (core l) in
  currentState ← getCurrentForComparison x;
  targetState ← getTarget initial intermediate l;
  deviceConfigSteps ← deviceConfig_getRequiredSteps currentState targetState x;
  if negb (allNoop deviceConfigSteps) then Resolved (false, deviceConfigSteps)
  else
    targetLocal ← readMember targetState "local";
    targetApps ← readMember targetLocal "apps";
    appSteps ← applicationManager_getRequiredSteps targetApps x;
    match appSteps with
    | [] => Resolved (true, deviceConfigSteps)
    | _ => Resolved (false, appSteps)
    end.

(** The delay before the next cycle and the retry count, from those of
    this cycle. *)
Definition pace (backoff noops : bool) (timing : Z * Z) : Z * Z :=
  let '(nextDelay, retryCount) := timing in
  if noops then
    if backoff
    then (Z.min (2 ^ (retryCount + 1) * 1000) (60 * 10 * 1000), retryCount + 1)
    else (1000, retryCount)
  else (nextDelay, retryCount).

(** [JSON.stringify] of an array of strings that need no escaping. *)
Definition stringifyNames (names : list string) : string :=
  let quote := String (Ascii.ascii_of_nat 34) EmptyString in
  "[" +:+ String.concat "," ((λ n, quote +:+ n +:+ quote) <$> names) +:+ "]".

(** How [applyTarget] calls itself. *)
Definition Again : Type := bool → bool → bool → bool → Z → Z → Loop → Outcome unit * Loop.

(** The callback handed to [usingInferStepsLock]. *)
Definition applyCycle (again : Again) (force initial intermediate skipLock : bool)
    (nextDelay retryCount : Z) (l : Loop) : Outcome unit * Loop :=
  match inferSteps initial intermediate l with
  | Rejected e => (Rejected e, l)
  | Resolved (backoff, []) =>
      let s := effect (EmitAsync "apply-target-state-end" None) (core l) in
      if intermediate then (Resolved tt, with_core s l)
      else
        let s := effect (Log LevelDebug "Finished applying target state") s in
        let s := set_ext (applicationManager_resetTimeSpentFetching (ext s)) s in
        let s := set_failedUpdates 0 s in
        let now := Date_now (ext s) in
        let s := reportCurrentState
                   {[ "update_failed" := JsBool false;
                      "update_pending" := JsBool false;
                      "update_downloaded" := JsBool false ]} s in
        (Resolved tt, mkLoop s (intermediateTarget l) (Some now))
  | Resolved (backoff, steps) =>
      let s := if intermediate then core l
               else reportCurrentState {[ "update_pending" := JsBool true ]}
                                       (core l) in
      let '(nextDelay, retryCount) :=
        pace backoff (allNoop steps) (nextDelay, retryCount) in
      let '(r, l) :=
        match applySteps steps force initial skipLock s with
        | (Resolved _, s) =>
            again force initial intermediate skipLock nextDelay retryCount
                  (with_core (set_ext (Bluebird_delay nextDelay (ext s)) s) l)
        | (Rejected e, s) => (Rejected e, with_core s l)
        end in
      match r with
      | Resolved _ => (Resolved tt, l)
      | Rejected e =>
          (Rejected
             (if isUpdatesLockedError e then e
              else PlainError ("Failed to apply state transition steps. "
                               +:+ message e +:+ " Steps:"
                               +:+ stringifyNames (action <$> steps))),
           l)
      end
  end.

(** [applyTarget], its call to itself being [again]; no [pausingApply] is
    under way.  [usingInferStepsLock] requests no lock either (it hands
    [Bluebird.using] the function [inferStepsLock] uncalled), so the call
    from within the callback is an ordinary one. *)
Definition applyTarget (again : Again) (force initial intermediate skipLock : bool)
    (nextDelay retryCount : Z) (l : Loop) : Outcome unit * Loop :=
  match applicationManager_localModeSwitchCompletion (ext (core l)) with
  | (Rejected e, x) => (Rejected e, with_core (set_ext x (core l)) l)
  | (Resolved _, x) =>
      match applyCycle again force initial intermediate skipLock nextDelay
                       retryCount (with_core (set_ext x (core l)) l) with
      | (Resolved _, l) => (Resolved tt, l)
      | (Rejected err, l) =>
          let '(r, s) :=
            applyError err (Some force) (Some initial) (Some intermediate)
                       (core l) in
          (r, with_core s l)
      end
  end.

(** [applyTarget] with its recursion unrolled [cycles] calls deep; the
    call that the last of them makes is [beyond].  The recursion need not
    end: a device whose configuration keeps asking for no-ops cycles for
    ever. *)
Fixpoint applyTargetFor (cycles : nat) (beyond : Again) : Again :=
  match cycles with
  | O => beyond
  | S cycles => applyTarget (applyTargetFor cycles beyond)
  end.

(** The chain [triggerApplyTarget] hangs on its timer: the timer fires or
    [cancelDelay] was called first; then the apply, unless cancelled; then
    the [finally] handler.  [run] is [applyTarget({ force, initial })]. *)
Definition afterDelay (cancelled : bool) (run : Loop → Outcome unit * Loop)
    (l : Loop) : Outcome unit * Loop :=
  let s := if cancelled then set_applyCancelled true (core l) else core l in
  let s := set_cancelDelay false s in
  let '(r, l) :=
    if applyCancelled s
    then (Resolved tt,
          with_core
            (effect (Log LevelInfo "Skipping applyTarget because of a cancellation")
                    s) l)
    else run (with_core (effect (Log LevelInfo "Applying target state") s) l) in
  match applyFinished (core l) with
  | (Resolved _, s') => (r, with_core s' l)
  | (Rejected e, s') => (Rejected e, with_core s' l)
  end.

End Applying.

End DeviceState.

(** ** [src/device-api/v2.ts] *)

Module Service.
Record t := mk {
  appId : Z;
  imageId : Z;
  serviceId : Z;
  serviceName : string;
  releaseId : Z;
  containerId : option string;
  status : option string;
  createdAt : option Z;
}.
End Service.

Module Image.
Record t := mk {
  name : string;
  appId : Z;
  serviceName : string;
  imageId : Z;
  releaseId : Z;
  dockerImageId : option string;
  status : string;
  downloadProgress : option Z;
}.
End Image.

Module V2Api.

(** [req.auth]: the key that authenticated the request and its scope test,
    [req.auth.isScoped({ apps })]. *)
Record Auth := mkAuth {
  apiKey : string;
  isScoped : list Z → bool;
}.

(** Modelled from the spec: [lib/api-keys] is not part of the embedded
    files.  A key carries a scope that is either every application or a set
    of application ids, and [isScoped({apps})] holds iff the scope is
    everything or includes the ids asked for; [generateScopedKey(appId, _)]
    yields a key whose scope is that one application. *)
Inductive KeyScope : Type :=
| AllApps
| Apps (ids : list Z).

Definition authOf (key : string) (scope : KeyScope) : Auth :=
  mkAuth key (λ apps,
    match scope with
    | AllApps => true
    | Apps ids => forallb (λ a, bool_decide (a ∈ ids)) apps
    end).

Definition scopedKeyAuth (key : string) (appId : Z) : Auth :=
  authOf key (Apps [appId]).

Record Request := mkRequest {
  params_appId : string;
  body : JsValue;
  query : JsValue;
  auth : Auth;
}.

(** How a handler ends: [res.status(s).json(v)], [res.status(s).send(text)],
    or [next(err)]. *)
Inductive Response : Type :=
| Json (status : Z) (body : JsValue)
| Send (status : Z) (text : string)
| Next (err : JsError).

Definition statusOf (r : Response) : option Z :=
  match r with
  | Json s _ | Send s _ => Some s
  | Next _ => None
  end.

(** A composition step as [generateStep(action, { current, target, wait })]
    builds it. *)
Record Step := mkStep {
  action : string;
  current : Service.t;
  target : option Service.t;
  wait : bool;
}.

(** An application instance: the fields the handlers read. *)
Record App := mkApp {
  services : list Service.t;
  volumes : list string;
}.

(** A row of the [app] table, its [appId] already read as a number. *)
Record DbApp := mkDbApp {
  db_appId : Z;
  db_commit : string;
  db_name : string;
}.

(** Calls the handlers make into the rest of the supervisor, in order. *)
Inductive ApiCall : Type :=
| ScopeCheck (apps : list Z)
| SetTargetVolatileForService (imageId : Z) (running : bool)
| ExecuteStep (step : Step) (force : JsValue)
| DoPurge (appId : Z) (force : JsValue)
| DoRestart (appId : Z) (force : JsValue)
| RemoveOrphanedVolumes (referenced : list string).

Definition isStepCall (c : ApiCall) : bool :=
  match c with
  | ExecuteStep _ _ | DoPurge _ _ | DoRestart _ _ => true
  | _ => false
  end.


Definition isScopeCheck (c : ApiCall) : bool :=
  match c with ScopeCheck _ => true | _ => false end.

(** The modules the handlers call: [compose/application-manager],
    [device-state/db-format], [compose/service-manager], [compose/images],
    [compose/commit], [compose/volume-manager], [db], [lib/messages],
    [./common], and the container runtime behind the step executor. *)
Class ApiHost {lockHost : UpdateLock.LockFileHost} := {
  appNotFoundMessage : string;
  serviceNotFoundMessage : string;
  v2ServiceEndpointInputErrorMessage : string;
  getCurrentApps : UpdateLock.Host → Outcome (gmap Z App);
  getApp : Z → UpdateLock.Host → Outcome App;
  setTargetVolatileForService : Z → bool → UpdateLock.Host → UpdateLock.Host;
  runStep : Step → UpdateLock.Host → Outcome unit * UpdateLock.Host;
  config_lockOverride : UpdateLock.Host → bool;
  doPurge : Z → JsValue → UpdateLock.Host → Outcome unit * UpdateLock.Host;
  doRestart : Z → JsValue → UpdateLock.Host → Outcome unit * UpdateLock.Host;
  serviceManager_getAll : UpdateLock.Host → list Service.t;
  serviceManager_getStatus : UpdateLock.Host → list Service.t;
  images_getStatus : UpdateLock.Host → list Image.t;
  db_apps : UpdateLock.Host → list DbApp;
  applicationManager_getStatus :
    UpdateLock.Host → Outcome (gmap Z JsValue * JsValue);
  getCommitForApp : option Z → UpdateLock.Host → option string;
  getTargetApps : UpdateLock.Host → list (Z * App);
  generateDockerName : Z → string → string;
  removeOrphanedVolumes : list string → UpdateLock.Host → UpdateLock.Host;
  isApplyInProgress : UpdateLock.Host → bool;
}.

(** Entries of the [/v2/applications/state] reply. *)
Record ServiceEntry := mkServiceEntry {
  se_status : option string;
  se_releaseId : Z;
  se_downloadProgress : option Z;
}.

Record AppEntry := mkAppEntry {
  ae_appId : Z;
  ae_commit : string;
  ae_services : gmap string ServiceEntry;
}.

(** The three shapes of the [/v2/containerId] reply. *)
Inductive ContainerIdReply : Type :=
| OneContainer (containerId : option string)        (* 200 *)
| NoSuchService                                     (* 503 *)
| AllContainers (byName : gmap string (option string)).   (* 200 *)

(** [_.pick(svc, 'status', 'serviceName', 'appId', 'imageId', 'serviceId',
    'containerId', 'createdAt')] *)
Record ContainerState := mkContainerState {
  cs_status : option string;
  cs_serviceName : string;
  cs_appId : Z;
  cs_imageId : Z;
  cs_serviceId : Z;
  cs_containerId : option string;
  cs_createdAt : option Z;
}.

(** [_.pick(img, 'name', 'appId', 'serviceName', 'imageId', 'dockerImageId',
    'status', 'downloadProgress')] *)
Record ImageState := mkImageState {
  is_name : string;
  is_appId : Z;
  is_serviceName : string;
  is_imageId : Z;
  is_dockerImageId : option string;
  is_status : string;
  is_downloadProgress : option Z;
}.

(** The body of the [/v2/state/status] reply (its status is 200). *)
Record StatusReply := mkStatusReply {
  appState : string;
  overallDownloadProgress : option Q;
  containers : list ContainerState;
  images : list ImageState;
  release : option string;
}.

Section WithHost.
Context {validation : Validation} {lockHost : UpdateLock.LockFileHost}
        {apiHost : ApiHost}.

Record ApiWorld := mkApiWorld {
  world : UpdateLock.World;
  calls : list ApiCall;
}.

Definition host (w : ApiWorld) : UpdateLock.Host := UpdateLock.fs (world w).

Definition call (c : ApiCall) (w : ApiWorld) : ApiWorld :=
  mkApiWorld (world w) (calls w ++ [c]).

Definition set_host (h : UpdateLock.Host) (w : ApiWorld) : ApiWorld :=
  mkApiWorld
    (UpdateLock.mkWorld h (UpdateLock.locksTaken (world w))
                        (UpdateLock.trace (world w)))
    (calls w).

(** JavaScript truthiness of a request field. *)
Definition truthy (v : JsValue) : bool :=
  match v with
  | JsUndefined | JsNull | JsBool false | JsNumber 0 | JsString "" => false
  | _ => true
  end.

(** *** The step executor *)

(** Modelled from the spec: [applicationManager.executeStep] is not part of
    the embedded files.  The always-lock-free actions. *)
Definition lockFreeActions : list string :=
  ["fetch"; "updateMetadata"; "noop"; "start"].

(** Modelled from the spec: the work of a step is done by the runtime
    adapter; here it is the thunk handed to [lock]. *)
Definition stepThunk (step : Step) (lw : UpdateLock.World)
    : Outcome unit * UpdateLock.World :=
  let '(r, h) := runStep step (UpdateLock.fs lw) in
  (r, UpdateLock.mkWorld h (UpdateLock.locksTaken lw) (UpdateLock.trace lw)).

(** Modelled from the spec: a step is wrapped in
    [lock(appId, { force }, thunk)] unless its action is always lock free;
    the lock is forced when [force] or the configured [lockOverride] is
    set. *)
Definition executeStep (step : Step) (force : JsValue) (w : ApiWorld)
    : Outcome unit * ApiWorld :=
  let w := call (ExecuteStep step force) w in
  let '(r, lw) :=
    if bool_decide (action step ∈ lockFreeActions)
    then stepThunk step (world w)
    else UpdateLock.lock (Some (Service.appId (current step)))
                         (truthy force || config_lockOverride (host w))
                         (stepThunk step) (world w) in
  (r, mkApiWorld lw (calls w)).

(** *** Service actions *)

Definition failed (status : Z) (text : string) : Response :=
  Json status (JsObject [("status", JsString "failed");
                         ("message", JsString text)]).

(** [!appId] for the result of [checkInt]. *)
Definition falsyAppId (appId : option Z) : bool :=
  match appId with
  | None => true
  | Some n => bool_decide (n = 0)
  end.

(** [_.find(services, { imageId })] and [_.find(services, { serviceName })]
    for a value taken from the request body. *)
Definition findByImageId (imageId : JsValue) (l : list Service.t)
    : option Service.t :=
  List.find (λ s, match imageId with
                  | JsNumber n => bool_decide (Service.imageId s = n)
                  | _ => false
                  end) l.

Definition findByServiceName (serviceName : JsValue) (l : list Service.t)
    : option Service.t :=
  List.find (λ s, match serviceName with
                  | JsString n => bool_decide (Service.serviceName s = n)
                  | _ => false
                  end) l.

Definition handleServiceAction (req : Request) (action : string) (w : ApiWorld)
    : Response * ApiWorld :=
  let imageId := prop (body req) "imageId" in
  let serviceName := prop (body req) "serviceName" in
  let force := prop (body req) "force" in
  let appId := checkInt (params_appId req) in
  if falsyAppId appId then (failed 400 "Missing app id", w)
  else
    let appId := default 0 appId in
    let w := call (ScopeCheck [appId]) w in
    if negb (isScoped (auth req) [appId])
    then (failed 401 "Application is not available", w)
    else
      match getCurrentApps (host w), getApp appId (host w) with
      | Rejected e, _ => (Next e, w)
      | Resolved _, Rejected e => (Next e, w)
      | Resolved apps, Resolved targetApp =>
          match apps !! appId with
          | None => (Send 404 appNotFoundMessage, w)
          | Some app =>
              if isNullish imageId && isNullish serviceName
              then (Next (PlainError v2ServiceEndpointInputErrorMessage), w)
              else
                let '(service, targetService) :=
                  if negb (isNullish imageId)
                  then (findByImageId imageId (services app),
                        findByImageId imageId (services targetApp))
                  else (findByServiceName serviceName (services app),
                        findByServiceName serviceName (services targetApp)) in
                match service with
                | None => (Send 404 serviceNotFoundMessage, w)
                | Some service =>
                    let running := negb (bool_decide (action = "stop")) in
                    let w :=
                      set_host
                        (setTargetVolatileForService
                           (Service.imageId service) running (host w))
                        (call (SetTargetVolatileForService
                                 (Service.imageId service) running) w) in
                    match executeStep
                            (mkStep action service targetService true)
                            force w with
                    | (Resolved _, w') => (Send 200 "OK", w')
                    | (Rejected e, w') => (Next e, w')
                    end
                end
          end
      end.

(** The service of [l] a request names: by [imageId] when the body has
    one, by [serviceName] otherwise. *)
Definition named (req : Request) (l : list Service.t) : option Service.t :=
  if negb (isNullish (prop (body req) "imageId"))
  then findByImageId (prop (body req) "imageId") l
  else findByServiceName (prop (body req) "serviceName") l.

(** [POST /v2/applications/:appId/purge] *)
Definition purge (req : Request) (w : ApiWorld) : Response * ApiWorld :=
  let force := prop (body req) "force" in
  let appId := checkInt (params_appId req) in
  if falsyAppId appId then (failed 400 "Missing app id", w)
  else
    let appId := default 0 appId in
    let w := call (ScopeCheck [appId]) w in
    if negb (isScoped (auth req) [appId])
    then (failed 401 "Application is not available", w)
    else
      let w := call (DoPurge appId force) w in
      match doPurge appId force (host w) with
      | (Resolved _, h) => (Send 200 "OK", set_host h w)
      | (Rejected e, h) => (Next e, set_host h w)
      end.

(** [POST /v2/applications/:appId/restart] *)
Definition restart (req : Request) (w : ApiWorld) : Response * ApiWorld :=
  let force := prop (body req) "force" in
  let appId := checkInt (params_appId req) in
  if falsyAppId appId then (failed 400 "Missing app id", w)
  else
    let appId := default 0 appId in
    let w := call (ScopeCheck [appId]) w in
    if negb (isScoped (auth req) [appId])
    then (failed 401 "Application is not available", w)
    else
      let w := call (DoRestart appId force) w in
      match doRestart appId force (host w) with
      | (Resolved _, h) => (Send 200 "OK", set_host h w)
      | (Rejected e, h) => (Next e, set_host h w)
      end.

(** The routes built with [createServiceActionHandler]. *)
Definition restartService (req : Request) := handleServiceAction req "restart".
Definition stopService (req : Request) := handleServiceAction req "stop".
Definition startService (req : Request) := handleServiceAction req "start".

(** *** Queries *)


(** [GET /v2/applications/state]: the [response] object, sent with 200. *)
Definition applicationsState (req : Request) (h : UpdateLock.Host)
    : gmap string AppEntry :=
  let services := serviceManager_getStatus h in
  let imgs := images_getStatus h in
  let apps := db_apps h in
  let '(response, appNameById) :=
    foldl (λ '(response, appNameById) app,
             (<[db_name app := mkAppEntry (db_appId app) (db_commit app) ∅]> response,
              <[db_appId app := db_name app]> appNameById))
          ((∅ : gmap string AppEntry), (∅ : gmap Z string))
          (filter (λ app, isScoped (auth req) [db_appId app]) apps) in
  foldl (λ response img,
           match appNameById !! Image.appId img with
           | None => response
           | Some appName =>
               let svc := List.find (λ service,
                            bool_decide (Service.imageId service = Image.imageId img))
                            services in
               let status :=
                 match svc with
                 | None => Some (Image.status img)
                 | Some svc =>
                     match Service.status svc with
                     | Some st => if bool_decide (st = "") then Some (Image.status img)
                                  else Some st
                     | None => Some (Image.status img)
                     end
                 end in
               let progress :=
                 match Image.downloadProgress img with
                 | Some 0 => None
                 | p => p
                 end in
               alter (λ e, mkAppEntry (ae_appId e) (ae_commit e)
                             (<[Image.serviceName img :=
                                  mkServiceEntry status (Image.releaseId img) progress]>
                                (ae_services e)))
                     appName response
           end)
        response
        (filter (λ img, isScoped (auth req) [Image.appId img]) imgs).

(** [GET /v2/containerId] *)
Definition containerId (req : Request) (h : UpdateLock.Host) : ContainerIdReply :=
  let services :=
    filter (λ service, isScoped (auth req) [Service.appId service])
           (serviceManager_getAll h) in
  if negb (isNullish (prop (query req) "serviceName"))
     || negb (isNullish (prop (query req) "service"))
  then
    let serviceName :=
      if truthy (prop (query req) "serviceName")
      then prop (query req) "serviceName" else prop (query req) "service" in
    match findByServiceName serviceName services with
    | Some service => OneContainer (Service.containerId service)
    | None => NoSuchService
    end
  else
    AllContainers
      (foldl (λ m service,
                <[Service.serviceName service := Service.containerId service]> m)
             ∅ services).

Definition pickContainer (svc : Service.t) : ContainerState :=
  mkContainerState (Service.status svc) (Service.serviceName svc)
    (Service.appId svc) (Service.imageId svc) (Service.serviceId svc)
    (Service.containerId svc) (Service.createdAt svc).

Definition pickImage (img : Image.t) : ImageState :=
  mkImageState (Image.name img) (Image.appId img) (Image.serviceName img)
    (Image.imageId img) (Image.dockerImageId img) (Image.status img)
    (Image.downloadProgress img).

(** [GET /v2/state/status] *)
Definition stateStatus (req : Request) (h : UpdateLock.Host) : StatusReply :=
  let pending := isApplyInProgress h in
  let scopedServices :=
    filter (λ service, isScoped (auth req) [Service.appId service])
           (serviceManager_getAll h) in
  let containerStates := pickContainer <$> scopedServices in
  let scopedImages :=
    filter (λ img, isScoped (auth req) [Image.appId img]) (images_getStatus h) in
  let imagesStates := pickImage <$> scopedImages in
  let appIds := (Service.appId <$> scopedServices) ++ (Image.appId <$> scopedImages) in
  let progresses := omap Image.downloadProgress scopedImages in
  let downloadProgressTotal := foldl Z.add 0 progresses in
  let downloads := Z.of_nat (length progresses) in
  let overall :=
    if 0 <? downloads
    then Some (inject_Z downloadProgressTotal / inject_Z downloads)%Q
    else None in
  let appId := head appIds in
  let commit := getCommitForApp appId h in
  mkStatusReply
    (if pending then "applying" else "applied")
    overall
    (filter (λ c, Some (cs_appId c) = appId) containerStates)
    (filter (λ i, Some (is_appId i) = appId) imagesStates)
    commit.

(** [GET /v2/cleanup-volumes]: the list handed to
    [volumeManager.removeOrphanedVolumes]. *)
Definition referencedVolumes (req : Request) (h : UpdateLock.Host) : list string :=
  getTargetApps h ≫= λ '(appId, app),
    if isScoped (auth req) [appId]
    then generateDockerName appId <$> volumes app
    else [].

Definition cleanupVolumes (req : Request) (w : ApiWorld) : Response * ApiWorld :=
  let referenced := referencedVolumes req (host w) in
  let w := call (RemoveOrphanedVolumes referenced) w in
  (Json 200 (JsObject [("status", JsString "success")]),
   set_host (removeOrphanedVolumes referenced (host w)) w).

End WithHost.

(** *** The target state in local mode *)

Section LocalMode.
Context {validation : Validation} {collaborators : DeviceState.Collaborators}
        {surroundings : DeviceState.Surroundings}.

(** The [force] that [POST /v2/local/target-state] passes on is whatever
    the body holds; the apply loop only ever tests it for truth. *)
Definition forceOf (v : JsValue) : option bool :=
  match v with
  | JsUndefined => None
  | v => Some (truthy v)
  end.

Definition reply (status : Z) (outcome text : string) : DeviceState.Reply :=
  DeviceState.mkReply status
    (JsObject [("status", JsString outcome); ("message", JsString text)]).

(** [POST /v2/local/target-state] *)
Definition setLocalTargetState (reqBody : JsValue) (s : DeviceState.State)
    : DeviceState.Reply * DeviceState.State :=
  if negb (DeviceState.config_get_localMode (DeviceState.ext s))
  then (reply 400 "failed"
              "Target state can only set when device is in local mode", s)
  else
    let force := prop reqBody "force" in
    match DeviceState.setTarget reqBody (Some true) s with
    | (Rejected e, s) => (reply 400 "failed" (message e), s)
    | (Resolved _, s) =>
        match DeviceState.triggerApplyTarget (forceOf force) None None None s with
        | (Rejected e, s) => (reply 400 "failed" (message e), s)
        | (Resolved _, s) => (reply 200 "success" "OK", s)
        end
    end.

End LocalMode.

End V2Api.

(** ** [src/lib/system-info.ts] *)

Module SystemInfo.

(** [Math.round]: the nearest integer, a half going up. *)
Definition round (x : Q) : Z := Qfloor (x + (1 # 2)).

(** [getCpuUsage], from the loads of the cores that
    [systeminformation.currentLoad()] reports.  [None] is [NaN]: the
    quotient [0 / 0] when there is no core. *)
Definition getCpuUsage (loads : list Q) : option Z :=
  let totalLoad := foldl Qplus 0%Q loads in
  match loads with
  | [] => None
  | _ => Some (round (totalLoad / inject_Z (Z.of_nat (length loads))))
  end.

(** [getCpuTemp], from [tempInfo.main]. *)
Definition getCpuTemp (main : Q) : Z := round main.

Definition bytesToMb (bytes : Z) : Z := bytes / 1024 / 1024.

(** An entry of [systeminformation.fsSize()]. *)
Record Partition := mkPartition {
  fs : string;
  mount : string;
  size : Z;
  used : Z;
}.

Record StorageInfo := mkStorageInfo {
  blockDevice : string;
  storageUsed : option Z;
  storageTotal : option Z;
}.

Definition getStorageInfo (fsInfo : list Partition) : StorageInfo :=
  match List.find (λ partition, bool_decide (mount partition = "/data")) fsInfo with
  | None => mkStorageInfo "" None None
  | Some data =>
      let mainFs := fs data in
      let total := size data in
      if bool_decide (mainFs = "") then mkStorageInfo "" None None
      else
        let used :=
          foldl (λ used partition,
                   if String.prefix mainFs (fs partition)
                   then used + SystemInfo.used partition else used)
                0 fsInfo in
        mkStorageInfo mainFs (Some (bytesToMb used)) (Some (bytesToMb total))
  end.

(** [getMemoryInformation], from [systeminformation.mem()]: [(used, total)]. *)
Definition getMemoryInformation (used cached buffers total : Z) : Z * Z :=
  (bytesToMb (used - cached - buffers), bytesToMb total).

(** [SystemInfo], the result of [getSysInfoToReport], and [Partial<SystemInfo>]. *)
Record t := mk {
  cpu_usage : Z;
  memory_usage : Z;
  memory_total : Z;
  storage_usage : option Z;
  storage_total : option Z;
  storage_block_device : string;
  cpu_temp : Z;
  cpu_id : option string;
  is_undervolted : bool;
}.

Record partial := mkPartial {
  past_cpu_usage : option Z;
  past_memory_usage : option Z;
  past_memory_total : option Z;
  past_storage_usage : option Z;
  past_storage_total : option Z;
  past_storage_block_device : option string;
  past_cpu_temp : option Z;
  past_cpu_id : option string;
  past_is_undervolted : option bool;
}.

(** [Object.keys] of a [SystemInfo]. *)
Definition keys : list string :=
  ["cpu_usage"; "memory_usage"; "memory_total"; "storage_usage";
   "storage_total"; "storage_block_device"; "cpu_temp"; "cpu_id";
   "is_undervolted"].

Definition significantChange (key : string) : option Z :=
  if decide (key = "cpu_usage") then Some 20
  else if decide (key = "cpu_temp") then Some 5
  else if decide (key = "memory_usage") then Some 10
  else None.

(** [past[key] == null] *)
Definition missing (past : partial) (key : string) : bool :=
  if decide (key = "cpu_usage") then bool_decide (past_cpu_usage past = None)
  else if decide (key = "memory_usage") then bool_decide (past_memory_usage past = None)
  else if decide (key = "memory_total") then bool_decide (past_memory_total past = None)
  else if decide (key = "storage_usage") then bool_decide (past_storage_usage past = None)
  else if decide (key = "storage_total") then bool_decide (past_storage_total past = None)
  else if decide (key = "storage_block_device")
  then bool_decide (past_storage_block_device past = None)
  else if decide (key = "cpu_temp") then bool_decide (past_cpu_temp past = None)
  else if decide (key = "cpu_id") then bool_decide (past_cpu_id past = None)
  else if decide (key = "is_undervolted")
  then bool_decide (past_is_undervolted past = None)
  else true.

(** [current[key] as number] and [past[key] as number], for the keys that
    have a bucket size. *)
Definition number (current : t) (key : string) : Z :=
  if decide (key = "cpu_usage") then cpu_usage current
  else if decide (key = "cpu_temp") then cpu_temp current
  else memory_usage current.

Definition pastNumber (past : partial) (key : string) : Z :=
  default 0
    (if decide (key = "cpu_usage") then past_cpu_usage past
     else if decide (key = "cpu_temp") then past_cpu_temp past
     else past_memory_usage past).

(** The predicate handed to [_.omitBy]. *)
Definition significant (past : partial) (current : t) (key : string) : bool :=
  if missing past key then true
  else match significantChange key with
       | None => true
       | Some bucketSize =>
           negb (number current key / bucketSize
                 =? pastNumber past key / bucketSize)
       end.

Definition filterNonSignificantChanges (past : partial) (current : t)
    : list string :=
  filter (λ key, significant past current key = false) keys.

End SystemInfo.

(** ** The log monitor ([src/logging/monitor.ts]) *)

Module LogMonitor.

(** The table [containerLogs] behind [db.models]. *)
Class LogDb := {
  Db : Type;
  selectLastSentTimestamp : string → Db → Outcome (option Z);
  insertLastSentTimestamp : string → Z → Db → Outcome unit * Db;
  updateLastSentTimestamp : string → Z → Db → Outcome unit * Db;
  deleteContainerLogs : string → Db → Outcome unit * Db;
}.

(** [JournalRow['MESSAGE']]: a string, an array of character codes, or
    something else. *)
Inductive MessageField : Type :=
| Text (s : string)
| Codes (codes : list Z)
| Unknown.

Record JournalRow := mkJournalRow {
  CONTAINER_ID_FULL : option string;
  CONTAINER_NAME : option string;
  MESSAGE : MessageField;
  PRIORITY : string;
  REALTIME_TIMESTAMP : Z;       (* the number [__REALTIME_TIMESTAMP] spells *)
}.

(** An entry of [this.containers]; a hook is known by its number. *)
Record Container := mkContainer {
  hook : nat;
  follow : bool;
  timestamp : Z;
  writeRequired : bool;
}.

(** A call of a hook. *)
Record Delivery := mkDelivery {
  to : nat;
  message : string;
  isStdErr : bool;
  at_ : Z;
}.

(** [String.fromCharCode(...entry)] for the bytes that journald sends. *)
Definition fromCharCode (codes : list Z) : string :=
  string_of_list_ascii ((λ c, Ascii.ascii_of_N (Z.to_N (c mod 256))) <$> codes).

(** [None] is [null]: the row is dropped (and an error logged). *)
Definition messageFieldToString (entry : MessageField) : option string :=
  match entry with
  | Codes codes => Some (fromCharCode codes)
  | Text s => Some s
  | Unknown => None
  end.

Section WithDb.
Context {logDb : LogDb}.

(** The monitor: [this.containers] with its keys in the order
    [Object.keys] lists them (container ids are not array indices, so the
    order of insertion), the calls of hooks and the updates of the table
    that went through so far, and the table. *)
Record Monitor := mkMonitor {
  containers : list (string * Container);
  delivered : list Delivery;
  written : list (string * Z);
  db : Db;
}.

Definition isAttached (containerId : string) (m : Monitor) : bool :=
  bool_decide (is_Some (assoc containerId (containers m))).

(** [this.containers[containerId] = entry] for a key that is there. *)
Fixpoint replace (containerId : string) (entry : Container)
    (l : list (string * Container)) : list (string * Container) :=
  match l with
  | [] => []
  | (k, e) :: l' =>
      if decide (containerId = k) then (k, entry) :: l'
      else (k, e) :: replace containerId entry l'
  end.

Definition updateContainerSentTimestamp (containerId : string) (timestamp : Z)
    (m : Monitor) : Monitor :=
  match assoc containerId (containers m) with
  | Some e =>
      mkMonitor (replace containerId (mkContainer (hook e) (follow e) timestamp true)
                         (containers m))
                (delivered m) (written m) (db m)
  | None => m
  end.

(** A non-empty [CONTAINER_ID_FULL]. *)
Definition containerOf (row : JournalRow) : option string :=
  match CONTAINER_ID_FULL row with
  | Some id => if bool_decide (id = "") then None else Some id
  | None => None
  end.

Definition handleRow (row : JournalRow) (m : Monitor) : Monitor :=
  match containerOf row with
  | Some containerId =>
      if bool_decide (CONTAINER_NAME row = Some "balena_supervisor")
         || bool_decide (CONTAINER_NAME row = Some "resin_supervisor")
      then m
      else
        let isStdErr := bool_decide (PRIORITY row = "3") in
        let timestamp := REALTIME_TIMESTAMP row / 1000 in
        match messageFieldToString (MESSAGE row), assoc containerId (containers m) with
        | Some message, Some e =>
            let m := updateContainerSentTimestamp containerId timestamp m in
            mkMonitor (containers m)
                      (delivered m ++ [mkDelivery (hook e) message isStdErr timestamp])
                      (written m) (db m)
        | _, _ => m
        end
  | None => m
  end.

(** The listener [start] puts on the journal of [balena.service]. *)
Definition onRow (row : JournalRow) (m : Monitor) : Monitor :=
  match containerOf row with
  | Some containerId =>
      if isAttached containerId m then handleRow row m else m
  | None => m
  end.

(** The loop of [flushDb] over the keys [ids]; a rejected update ends it. *)
Fixpoint flushLoop (ids : list string) (m : Monitor) : Outcome unit * Monitor :=
  match ids with
  | [] => (Resolved tt, m)
  | containerId :: rest =>
      match assoc containerId (containers m) with
      | None =>
          (Rejected (PlainError "Cannot read property 'writeRequired' of undefined"),
           m)
      | Some e =>
          if negb (writeRequired e) then flushLoop rest m
          else
            match updateLastSentTimestamp containerId (timestamp e) (db m) with
            | (Rejected err, d) =>
                (Rejected err,
                 mkMonitor (containers m) (delivered m) (written m) d)
            | (Resolved _, d) =>
                flushLoop rest
                  (mkMonitor
                     (replace containerId
                        (mkContainer (hook e) (follow e) (timestamp e) false)
                        (containers m))
                     (delivered m)
                     (written m ++ [(containerId, timestamp e)]) d)
            end
      end
  end.

(** [flushDb]: an error is logged, not thrown. *)
Definition flushDb (m : Monitor) : Monitor :=
  snd (flushLoop (fst <$> containers m) m).

(** An entry after its timestamp was written, and the updates a flush owes
    for a list of entries. *)
Definition cleared (kv : string * Container) : string * Container :=
  (kv.1, mkContainer (hook kv.2) (follow kv.2) (timestamp kv.2) false).

Definition pending (l : list (string * Container)) : list (string * Z) :=
  omap (λ kv, if writeRequired kv.2 then Some (kv.1, timestamp kv.2) else None) l.

(** The table after the updates [writes], when each of them goes through. *)
Fixpoint updated (writes : list (string * Z)) (d : Db) : option Db :=
  match writes with
  | [] => Some d
  | (containerId, timestamp) :: writes =>
      match updateLastSentTimestamp containerId timestamp d with
      | (Resolved _, d) => updated writes d
      | (Rejected _, _) => None
      end
  end.

(** [detach] *)
Definition detach (containerId : string) (m : Monitor) : Outcome unit * Monitor :=
  let '(r, d) := deleteContainerLogs containerId (db m) in
  (r, mkMonitor (filter (λ kv, kv.1 ≠ containerId) (containers m))
                (delivered m) (written m) d).

End WithDb.

End LogMonitor.

(** ** Configuration values that are computed ([src/config/functions.ts]) *)

Module ConfigFunctions.

Section WithConfig.
Context {validation : Validation}.

(** The stored values [config.get] and [config.getMany] read. *)
Variable stored : string → JsValue.

(** [apiKey || deviceApiKey] *)
Definition currentApiKey : JsValue :=
  if V2Api.truthy (stored "apiKey") then stored "apiKey"
  else stored "deviceApiKey".

Definition offlineMode : bool :=
  checkTruthy (stored "supervisorOfflineMode")
  || negb (V2Api.truthy (stored "apiEndpoint")).

(** [_.every(_.values(requiredValues), Boolean)] *)
Definition provisioned : bool :=
  forallb (λ key, V2Api.truthy (stored key))
          ["uuid"; "apiEndpoint"; "registered_at"; "deviceId"].

Definition unmanaged : bool := negb (V2Api.truthy (stored "apiEndpoint")).

End WithConfig.

End ConfigFunctions.

(** ** A concrete device

    One implementation of the interfaces above, small enough to run the
    model on: a device whose lock directories, lock files, applications and
    failures are listed explicitly. *)

Module Sample.

Record Device := mkDevice {
  dirs : list (string * list string);
  unreadable : list string;
  lockFiles : list string;
  noParent : list string;
  currentApps : gmap Z V2Api.App;
  targetApps : list (Z * V2Api.App);
  runtimeError : option JsError;
  statusError : option JsError;
  lockOverride : bool;
  allServices : list Service.t;
  allImages : list Image.t;
  dbApps : list V2Api.DbApp;
  commits : gmap Z string;
  applying : bool;
}.

Definition set_lockFiles (l : list string) (d : Device) : Device :=
  mkDevice (dirs d) (unreadable d) l (noParent d) (currentApps d) (targetApps d)
           (runtimeError d) (statusError d) (lockOverride d) (allServices d)
           (allImages d) (dbApps d) (commits d) (applying d).

(** [checkInt] on decimal text. *)
Definition decimal (s : string) : option Z :=
  if bool_decide (s = "") || bool_decide (s = "-") then None
  else Z.of_int <$> DecimalString.NilEmpty.int_of_string s.

Definition validation : Validation := {|
  checkInt := decimal;
  checkTruthy v :=
    match v with
    | JsBool true | JsNumber 1 | JsString "1" | JsString "true"
    | JsString "on" => true
    | _ => false
    end;
  isValidShortText v := match v with JsString _ => true | _ => false end;
  isValidAppsObject v := match v with JsObject _ => true | _ => false end;
  isValidEnv v := match v with JsObject _ => true | _ => false end;
  isValidDependentAppsObject v := match v with JsObject _ => true | _ => false end;
  isValidDependentDevicesObject v := match v with JsObject _ => true | _ => false end;
|}.

Definition lockHost : UpdateLock.LockFileHost := {|
  UpdateLock.Host := Device;
  UpdateLock.getPathOnHost p := "/mnt/root" +:+ p;
  UpdateLock.readdir d h :=
    if bool_decide (d ∈ unreadable h)
    then Rejected (ErrnoException "EACCES" "permission denied")
    else match assoc d (dirs h) with
         | Some names => Resolved names
         | None => Rejected (ErrnoException "ENOENT" "no such file or directory")
         end;
  UpdateLock.lockAsync p h :=
    if bool_decide (p ∈ noParent h)
    then (Rejected (ErrnoException "ENOENT" "no such file or directory"), h)
    else if bool_decide (p ∈ lockFiles h)
    then (Rejected (ErrnoException "EEXIST" "file already exists"), h)
    else (Resolved tt, set_lockFiles (lockFiles h ++ [p]) h);
  UpdateLock.unlockAsync p h :=
    set_lockFiles (filter (λ q, q ≠ p) (lockFiles h)) h;
|}.

(** A device with the services [a] and [b] of application 7, where [b]
    holds its [updates.lock]; the same device with an unreadable lock
    directory; a lock file some other call has registered. *)
Definition servicesDir : string := "/mnt/root/tmp/balena-supervisor/services/7".

Definition lockFile (service file : string) : string :=
  servicesDir +:+ "/" +:+ service +:+ "/" +:+ file.

Definition heldByB : Device :=
  mkDevice [(servicesDir, ["a"; "b"])] [] [lockFile "b" "updates.lock"] []
           ∅ [] None None false [] [] [] ∅ false.

Definition unreadableDir : Device :=
  mkDevice [(servicesDir, ["a"; "b"])] [servicesDir]
           [lockFile "b" "updates.lock"] []
           ∅ [] None None false [] [] [] ∅ false.

Definition foreignLock : string :=
  "/mnt/root/tmp/balena-supervisor/services/9/main/updates.lock".

Definition lockWorld (d : Device) (registry : list string)
    : @UpdateLock.World lockHost :=
  @UpdateLock.mkWorld lockHost d registry [].

Definition idle (lw : @UpdateLock.World lockHost)
    : Outcome unit * @UpdateLock.World lockHost :=
  (Resolved tt, lw).

(** The world after the rejected third [lockAsync] on [heldByB]. *)
Definition afterThirdLock : @UpdateLock.World lockHost :=
  @UpdateLock.mkWorld lockHost
    (set_lockFiles [lockFile "b" "updates.lock"; lockFile "a" "updates.lock";
                    lockFile "a" "resin-updates.lock"] heldByB)
    [lockFile "a" "updates.lock"; lockFile "a" "resin-updates.lock"]
    [UpdateLock.WriteLock 7; UpdateLock.Readdir servicesDir;
     UpdateLock.LockAsync (lockFile "a" "updates.lock") None;
     UpdateLock.LockAsync (lockFile "a" "resin-updates.lock") None;
     UpdateLock.LockAsync (lockFile "b" "updates.lock")
       (Some (ErrnoException "EEXIST" "file already exists"))].

Definition getCurrentApps (h : Device) : Outcome (gmap Z V2Api.App) :=
  Resolved (currentApps h).

Definition getApp (appId : Z) (h : Device) : Outcome V2Api.App :=
  match assoc_Z appId (targetApps h) with
  | Some app => Resolved app
  | None => Rejected (PlainError "no target application")
  end.

Definition runStep (step : V2Api.Step) (h : Device) : Outcome unit * Device :=
  match runtimeError h with
  | Some e => (Rejected e, h)
  | None => (Resolved tt, h)
  end.

Definition appAction (appId : Z) (force : JsValue) (h : Device)
    : Outcome unit * Device :=
  (Resolved tt, h).

Definition getStatus (h : Device) : Outcome (gmap Z JsValue * JsValue) :=
  match statusError h with
  | Some e => Rejected e
  | None => Resolved ((λ _, JsObject []) <$> currentApps h, JsObject [])
  end.

Definition getCommitForApp (appId : option Z) (h : Device) : option string :=
  appId ≫= λ a, commits h !! a.

Definition apiHost : @V2Api.ApiHost lockHost :=
  @V2Api.Build_ApiHost lockHost
    "App not found"
    "Service not found"
    "This endpoint requires one of imageId or serviceName"
    getCurrentApps
    getApp
    (λ _ _ h, h)
    runStep
    lockOverride
    appAction
    appAction
    allServices
    allServices
    allImages
    dbApps
    getStatus
    getCommitForApp
    targetApps
    (λ appId name, pretty appId +:+ "_" +:+ name)
    (λ _ h, h)
    applying.

(** Application 1658654 with its service [main], running and targeted;
    application 222222 next to it. *)
Definition main : Service.t :=
  Service.mk 1658654 2615279 640681 "main" 1232 (Some "abc123") (Some "Running")
             None.

Definition other : Service.t :=
  Service.mk 222222 2615280 640682 "other" 1233 (Some "def456") (Some "Running")
             None.

Definition mainImage : Image.t :=
  Image.mk "registry2.balena-cloud.com/v2/main" 1658654 "main" 2615279 1232 None
           "Downloaded" None.

Definition otherImage : Image.t :=
  Image.mk "registry2.balena-cloud.com/v2/other" 222222 "other" 2615280 1233 None
           "Downloaded" None.

(** The device of the tests; [held] lists the lock files workloads hold.
    Only application 1658654 is among the current applications. *)
Definition testDevice (held : list string) (runtimeError : option JsError)
    : Device :=
  mkDevice [("/mnt/root/tmp/balena-supervisor/services/1658654", ["main"])] []
           held []
           {[ 1658654 := V2Api.mkApp [main] ["data"] ]}
           [(1658654, V2Api.mkApp [main] ["data"]);
            (222222, V2Api.mkApp [other] ["cache"])]
           runtimeError None false [main; other] [mainImage; otherImage]
           [V2Api.mkDbApp 1658654 "abcdef2" "test-app";
            V2Api.mkDbApp 222222 "abcdef3" "test-app2"]
           {[ 1658654 := "abcdef2" ]} false.

Definition mainLock : string :=
  "/mnt/root/tmp/balena-supervisor/services/1658654/main/updates.lock".

Definition apiWorld (d : Device) : @V2Api.ApiWorld lockHost :=
  @V2Api.mkApiWorld lockHost (lockWorld d []) [].

Definition request (appId : string) (body : JsValue) (scopedTo : Z)
    : V2Api.Request :=
  V2Api.mkRequest appId body (JsObject [])
                  (V2Api.scopedKeyAuth "scoped-key" scopedTo).

(** The collaborators of [device-state.ts] on a device whose answers are
    listed explicitly. *)
Record Box := mkBox {
  unmanaged : bool;
  override : bool;
  endpoint : option string;
  stopAllFailure : option JsError;
  dbusFailure : option JsError;
  fetching : Q;
  fetches : Z;
  persisted : list JsValue;
}.

Definition persist (v : JsValue) (x : Box) : Outcome unit * Box :=
  (Resolved tt,
   mkBox (unmanaged x) (override x) (endpoint x) (stopAllFailure x)
         (dbusFailure x) (fetching x) (fetches x) (persisted x ++ [v])).

(** Stopping every service fails while a workload holds a lock, unless the
    caller forces it. *)
Definition stopAll (force skipLock : option bool) (x : Box) : Outcome unit * Box :=
  match stopAllFailure x with
  | Some e => if default false force then (Resolved tt, x) else (Rejected e, x)
  | None => (Resolved tt, x)
  end.

Definition hostPrimitive (x : Box) : Outcome unit * Box :=
  match dbusFailure x with
  | Some e => (Rejected e, x)
  | None => (Resolved tt, x)
  end.

Definition collaborators : DeviceState.Collaborators :=
  @DeviceState.Build_Collaborators Box
    500
    (λ d, pretty d +:+ "ms")
    override
    unmanaged
    endpoint
    persist
    persist
    (λ a, bool_decide (a ∈ ["changeConfig"; "setVPNEnabled"; "setBootConfig"]))
    (λ _ _ x, (Resolved tt, x))
    (λ apps _ _ x, persist apps x)
    ["fetch"; "kill"; "remove"; "start"; "updateMetadata"; "handover";
     "restart"; "stop"; "purge"; "createNetwork"; "removeNetwork";
     "createVolume"; "removeVolume"; "noop"]
    (λ _ _ _ _ x, (Resolved JsUndefined, x))
    stopAll
    fetching
    fetches
    hostPrimitive
    hostPrimitive.

Definition box (unmanaged : bool) (stopAllFailure dbusFailure : option JsError)
    : Box :=
  mkBox unmanaged false (Some "https://api.balena-cloud.com") stopAllFailure
        dbusFailure 0%Q 0 [].

(** [process.hrtime(lastApplyStart)] 10000 s after the apply started. *)
Definition longCycle : Z * Z := (10000, 0).


(** A target state without [apps]. *)
Definition targetWithoutApps : JsValue :=
  JsObject [("local", JsObject [("name", JsString "device");
                                ("config", JsObject [])])].

(** A device state with poll interval [900000] ms. *)
Definition deviceState (x : Box) (failedUpdates : Z)
    (scheduledApply : option DeviceState.ScheduledApply) (applyInProgress : bool)
    : @DeviceState.State collaborators :=
  @DeviceState.mkState collaborators 900000 failedUpdates false scheduledApply
    false applyInProgress false ∅ [] x.

(** An image while it is being pulled, and the test device with both of
    its images on their way. *)
Definition downloading (img : Image.t) (progress : Z) : Image.t :=
  Image.mk (Image.name img) (Image.appId img) (Image.serviceName img)
           (Image.imageId img) (Image.releaseId img) (Image.dockerImageId img)
           "Downloading" (Some progress).

Definition set_allImages (l : list Image.t) (d : Device) : Device :=
  mkDevice (dirs d) (unreadable d) (lockFiles d) (noParent d) (currentApps d)
           (targetApps d) (runtimeError d) (statusError d) (lockOverride d)
           (allServices d) l (dbApps d) (commits d) (applying d).

(** The test device with nothing targeted: [getApp] rejects. *)
Definition untargeted : Device :=
  mkDevice (dirs (testDevice [] None)) [] [] [] (currentApps (testDevice [] None))
           [] None None false [main; other] [mainImage; otherImage]
           (dbApps (testDevice [] None)) (commits (testDevice [] None)) false.

Definition fetchingDevice : Device :=
  set_allImages [downloading mainImage 40; downloading otherImage 0]
                (testDevice [] None).

(** A device for the apply cycle.  What its status, its commit store and
    its planners answer is listed; the actions it has run, the delays it has
    waited and the writes it has taken are recorded.  While [locked], the
    application manager refuses what is not forced.  Of several steps that
    run at the same time, the first to settle times out before any of them
    has changed anything. *)
Record Rig := mkRig {
  inLocalMode : bool;
  reported : list (Z * DeviceState.AppStatus);
  commit : option string;
  configSteps : list DeviceState.Step;
  appSteps : list DeviceState.Step;
  locked : bool;
  clock : Z;
  ran : list string;
  slept : list Z;
  stored : list JsValue;
}.

Definition run (action : string) (x : Rig) : Rig :=
  mkRig (inLocalMode x) (reported x) (commit x) (configSteps x) (appSteps x)
        (locked x) (clock x) (ran x ++ [action]) (slept x) (stored x).

Definition sleep (delay : Z) (x : Rig) : Rig :=
  mkRig (inLocalMode x) (reported x) (commit x) (configSteps x) (appSteps x)
        (locked x) (clock x) (ran x) (slept x ++ [delay]) (stored x).

Definition store (v : JsValue) (x : Rig) : Outcome unit * Rig :=
  (Resolved tt,
   mkRig (inLocalMode x) (reported x) (commit x) (configSteps x) (appSteps x)
         (locked x) (clock x) (ran x) (slept x) (stored x ++ [v])).

Definition unlessLocked {A} (force : option bool) (x : Rig)
    (result : Outcome A * Rig) : Outcome A * Rig :=
  if locked x && negb (default false force)
  then (Rejected (UpdatesLockedError "Updates are locked"), x)
  else result.

Definition configActions : list string :=
  ["changeConfig"; "setVPNEnabled"; "setBootConfig"].

Definition appActions : list string :=
  ["fetch"; "kill"; "remove"; "start"; "updateMetadata"; "handover";
   "restart"; "stop"; "purge"; "createNetwork"; "removeNetwork";
   "createVolume"; "removeVolume"; "noop"].

Definition rigCollaborators : DeviceState.Collaborators :=
  @DeviceState.Build_Collaborators Rig
    500
    (λ d, pretty d +:+ "ms")
    (λ _, false)
    (λ _, false)
    (λ _, Some "https://api.balena-cloud.com")
    store
    store
    (λ a, bool_decide (a ∈ configActions))
    (λ a _ x, (Resolved tt, run a x))
    (λ apps _ source x, store (JsObject [("apps", apps);
                                         ("source", JsString source)]) x)
    appActions
    (λ a _ force _ x, unlessLocked force x (Resolved JsUndefined, run a x))
    (λ force _ x, unlessLocked force x (Resolved tt, run "stopAll" x))
    (λ _, 0%Q)
    (λ _, 0)
    (λ x, (Resolved tt, run "dbus.reboot" x))
    (λ x, (Resolved tt, run "dbus.shutdown" x)).

Definition rigSurroundings : @DeviceState.Surroundings rigCollaborators :=
  @DeviceState.Build_Surroundings rigCollaborators
    (λ x, Resolved (reported x, JsObject []))
    (λ _ x, Resolved (commit x))
    inLocalMode
    (λ _, Resolved (JsString "rig"))
    (λ _, Resolved (JsObject []))
    (λ _ _, Resolved (JsObject []))
    (λ _, Resolved (JsObject []))
    (λ _, Resolved (JsObject []))
    (λ _, Resolved (JsObject []))
    (λ _, Resolved (JsObject []))
    (λ _, Resolved (JsObject []))
    (λ x, (Resolved tt, x))
    (λ _ _ x, Resolved (configSteps x))
    (λ _ x, Resolved (appSteps x))
    (λ x, x)
    sleep
    clock
    (λ _ _ _ _ s,
       (Rejected (PlainError "connect ETIMEDOUT"),
        DeviceState.effect
          (DeviceState.EmitAsync "step-error"
             (Some (PlainError "connect ETIMEDOUT"))) s)).

(** The rig running application 1658654, whose service [main] runs. *)
Definition rig (inLocalMode locked : bool)
    (configSteps appSteps : list DeviceState.Step) : Rig :=
  mkRig inLocalMode
        [(1658654,
          DeviceState.mkAppStatus
            [("640681", DeviceState.mkServiceStatus (JsString "Running") JsNull)])]
        (Some "abcdef2") configSteps appSteps locked 1604361600000 [] [] [].

(** The module after three failed updates, with a secret among the
    reported fields. *)
Definition rigState (x : Rig) (applyInProgress : bool)
    : @DeviceState.State rigCollaborators :=
  @DeviceState.mkState rigCollaborators 900000 3 false None false
    applyInProgress false
    {[ "api_port" := JsNumber 48484; "api_secret" := JsString "s3cret" ]} [] x.

Definition rigLoop (x : Rig) (applyInProgress : bool)
    : @DeviceState.Loop rigCollaborators :=
  @DeviceState.mkLoop rigCollaborators (rigState x applyInProgress) None None.

(** A target state that passes the validation. *)
Definition emptyTarget : JsValue :=
  JsObject [("local", JsObject [("name", JsString "device");
                                ("apps", JsObject []);
                                ("config", JsObject [])])].

(** The table of log timestamps, refusing updates for the containers in
    [failing]; a monitor with two attached containers, the first of which
    has seen a row since the last flush. *)
Definition logDb (failing : list string) : LogMonitor.LogDb := {|
  LogMonitor.Db := gmap string Z;
  LogMonitor.selectLastSentTimestamp k d := Resolved (d !! k);
  LogMonitor.insertLastSentTimestamp k ts d := (Resolved tt, <[k := ts]> d);
  LogMonitor.updateLastSentTimestamp k ts d :=
    if bool_decide (k ∈ failing)
    then (Rejected (PlainError "SQLITE_BUSY: database is locked"), d)
    else (Resolved tt, <[k := ts]> d);
  LogMonitor.deleteContainerLogs k d := (Resolved tt, delete k d);
|}.

Definition monitor (failing : list string) : @LogMonitor.Monitor (logDb failing) :=
  @LogMonitor.mkMonitor (logDb failing)
    [("abc123", LogMonitor.mkContainer 1 true 1604361600500 true);
     ("def456", LogMonitor.mkContainer 2 true 1604361600000 false)]
    [] [] ∅.

(** The same with three containers that have all seen rows. *)
Definition busyMonitor (failing : list string)
    : @LogMonitor.Monitor (logDb failing) :=
  @LogMonitor.mkMonitor (logDb failing)
    [("abc123", LogMonitor.mkContainer 1 true 1604361600500 true);
     ("def456", LogMonitor.mkContainer 2 true 1604361600700 true);
     ("0a1b2c", LogMonitor.mkContainer 3 true 1604361600900 true)]
    [] [] ∅.

(** A line that the container [def456] wrote to its standard error. *)
Definition journalRow : LogMonitor.JournalRow :=
  LogMonitor.mkJournalRow (Some "def456") (Some "other_2615280_1233")
    (LogMonitor.Text "starting") "3" 1604361601234567.

(** Stored configuration of a device that was never given an endpoint. *)
Definition unconfigured (key : string) : JsValue :=
  if bool_decide (key = "uuid") then JsString "1234567890abcdef"
  else JsUndefined.

(** A request with a query string. *)
Definition query (fields : list (string * JsValue)) (key : V2Api.KeyScope)
    : V2Api.Request :=
  V2Api.mkRequest "" JsUndefined (JsObject fields) (V2Api.authOf "key" key).

End Sample.

(** ** Tactics *)

(** Membership in a list that is written out. *)
Ltac in_list :=
  repeat first [apply list_elem_of_here | apply list_elem_of_further].

Ltac not_in_list :=
  let Hin := fresh "Hin" in
  intros Hin; simpl in Hin;
  repeat (apply elem_of_cons in Hin as [Hin|Hin]; [discriminate Hin|]);
  by apply elem_of_nil in Hin.

(** * Facts about [UpdateLock] *)

Module UpdateLockFacts.
Import UpdateLock.

Section WithHost.
Context {lockHost : LockFileHost}.

Lemma filter_not_in_cons (x : string) (l keys : list string) :
  filter (λ k, k ∉ l) (registry_delete keys x) = filter (λ k, k ∉ x :: l) keys.
Proof.
  unfold registry_delete. rewrite list_filter_filter.
  apply list_filter_iff. intros k. rewrite not_elem_of_cons. tauto.
Qed.

Lemma filter_not_in_nil (keys : list string) :
  filter (λ k, k ∉ @nil string) keys = keys.
Proof.
  induction keys as [|k keys IH]; [done|].
  rewrite filter_cons_True; [by rewrite IH | apply not_elem_of_nil].
Qed.

Lemma filter_not_in_self (keys : list string) :
  filter (λ k, k ∉ keys) keys = [].
Proof.
  apply elem_of_nil_inv. intros k Hk.
  apply list_elem_of_filter in Hk. tauto.
Qed.

(** [dispose]'s loop, unrolled: every listed name is handed to
    [unlockAsync], in order, and leaves the registry. *)
Lemma foldl_disposeOne (l : list string) (w : World) :
  foldl disposeOne w l =
  mkWorld (foldl (λ h p, unlockAsync p h) (fs w) l)
          (filter (λ k, k ∉ l) (locksTaken w))
          (trace w ++ (UnlockAsync <$> l)).
Proof.
  revert w. induction l as [|x l IH]; intros w; simpl.
  - rewrite filter_not_in_nil, app_nil_r. by destruct w.
  - rewrite IH. unfold disposeOne, callUnlockAsync. simpl.
    rewrite filter_not_in_cons, <- app_assoc. done.
Qed.

Lemma dispose_eq (a : Z) (w : World) :
  dispose a w =
  mkWorld (foldl (λ h p, unlockAsync p h) (fs w) (locksTaken w)) []
          (trace w ++ (UnlockAsync <$> locksTaken w) ++ [Release a]).
Proof.
  unfold dispose, emit. rewrite foldl_disposeOne. simpl.
  by rewrite filter_not_in_self, <- app_assoc.
Qed.

Lemma acquired_app (t1 t2 : list Event) :
  acquired (t1 ++ t2) = acquired t1 ++ acquired t2.
Proof. apply omap_app. Qed.

Lemma unlocked_app (t1 t2 : list Event) :
  unlocked (t1 ++ t2) = unlocked t1 ++ unlocked t2.
Proof. apply omap_app. Qed.

Lemma registry_set_incl (keys : list string) (p : string) :
  keys ⊆ registry_set keys p.
Proof.
  unfold registry_set. case_decide; [done|].
  intros k Hk. apply elem_of_app. by left.
Qed.

Lemma foldl_registry_set_incl (ps keys : list string) :
  keys ⊆ foldl registry_set keys ps.
Proof.
  revert keys. induction ps as [|p ps IH]; intros keys; simpl; [done|].
  etrans; [apply (registry_set_incl keys p) | apply IH].
Qed.

Lemma extends_refl (w : World) : extends w w.
Proof. exists []. by rewrite app_nil_r. Qed.

Lemma extends_trans (w1 w2 w3 : World) :
  extends w1 w2 → extends w2 w3 → extends w1 w3.
Proof.
  intros (t1 & Ht1 & Hr1) (t2 & Ht2 & Hr2). exists (t1 ++ t2).
  rewrite Ht2, Ht1, Hr2, Hr1, acquired_app, foldl_app, app_assoc. done.
Qed.

Lemma takeLockFile_extends force p w r w' :
  takeLockFile force p w = (r, w') → extends w w'.
Proof.
  unfold takeLockFile. intros Heq.
  assert (extends w (if force then callUnlockAsync p w else w)) as H1.
  { destruct force; [|apply extends_refl]. exists [UnlockAsync p]. done. }
  eapply extends_trans; [exact H1|].
  destruct (lockAsync p _) as [[[]|e] h']; simplify_eq.
  - exists [LockAsync p None]. done.
  - exists [LockAsync p (Some e)]. done.
Qed.

Lemma takeLockFile_rejected force p w e w' :
  takeLockFile force p w = (Rejected e, w') → ENOENT e = false.
Proof.
  unfold takeLockFile.
  destruct (lockAsync p _) as [[[]|e'] h']; intros; simplify_eq.
  destruct (ENOENT e') eqn:He; by simplify_eq.
Qed.

Lemma mapSeries_app {A} (f : A → World → Outcome unit * World) l1 l2 w :
  mapSeries f (l1 ++ l2) w =
  match mapSeries f l1 w with
  | (Resolved _, w') => mapSeries f l2 w'
  | (Rejected e, w') => (Rejected e, w')
  end.
Proof.
  revert w. induction l1 as [|x l1 IH]; intros w; simpl; [done|].
  destruct (f x w) as [[[]|e] w']; [apply IH | done].
Qed.

Lemma mapSeries_takeLockFile_extends force l w r w' :
  mapSeries (takeLockFile force) l w = (r, w') → extends w w'.
Proof.
  revert w. induction l as [|p l IH]; intros w; simpl.
  - intros; simplify_eq. apply extends_refl.
  - destruct (takeLockFile force p w) as [[[]|e] w1] eqn:H1; intros Heq.
    + eapply extends_trans; [by eapply takeLockFile_extends | by eapply IH].
    + simplify_eq. by eapply takeLockFile_extends.
Qed.

Lemma mapSeries_takeLockFile_rejected force l w e w' :
  mapSeries (takeLockFile force) l w = (Rejected e, w') → ENOENT e = false.
Proof.
  revert w. induction l as [|p l IH]; intros w; simpl; [done|].
  destruct (takeLockFile force p w) as [[[]|e1] w1] eqn:H1; intros Heq.
  - by eapply IH.
  - simplify_eq. by eapply takeLockFile_rejected.
Qed.

Lemma lockFilesOfApp_cons a n names :
  lockFilesOfApp a (n :: names) = lockFilesOnHost a n ++ lockFilesOfApp a names.
Proof. reflexivity. Qed.

(** The nested loops of [lock] against one pass over all lock files. *)
Lemma takeServiceLocks_flat a force names w :
  mapSeries (takeServiceLocks a force) names w =
  match mapSeries (takeLockFile force) (lockFilesOfApp a names) w with
  | (Resolved _, w') => (Resolved tt, w')
  | (Rejected err, w') =>
      (Rejected (UpdatesLockedError ("Updates are locked: " +:+ message err)),
       dispose a w')
  end.
Proof.
  revert w. induction names as [|n names IH]; intros w; [done|].
  rewrite lockFilesOfApp_cons, mapSeries_app.
  simpl mapSeries at 1. unfold takeServiceLocks at 1.
  destruct (mapSeries (takeLockFile force) (lockFilesOnHost a n) w)
    as [[[]|e] w1]; [apply IH | done].
Qed.

Lemma takeTheLock_listing a force w names :
  listing a w = Some names →
  takeTheLock a force w = mapSeries (takeServiceLocks a force) names (started a w).
Proof.
  unfold listing, takeTheLock, started. simpl.
  destruct (readdir _ _) as [l|e]; [by intros [= ->]|].
  destruct (ENOENT e); [by intros [= <-] | done].
Qed.

Lemma foldl_registry_set_elem (ps keys : list string) (p : string) :
  p ∈ ps → p ∈ foldl registry_set keys ps.
Proof.
  revert keys. induction ps as [|q ps IH]; intros keys Hp; simpl.
  - by apply elem_of_nil in Hp.
  - apply elem_of_cons in Hp as [-> | Hp]; [|by apply IH].
    apply foldl_registry_set_incl. unfold registry_set.
    case_decide; [done|]. apply elem_of_app. right. apply list_elem_of_here.
Qed.

Lemma foldl_registry_set_fresh (ps keys : list string) :
  NoDup (keys ++ ps) → foldl registry_set keys ps = keys ++ ps.
Proof.
  revert keys. induction ps as [|p ps IH]; intros keys Hnd; simpl.
  - by rewrite app_nil_r.
  - assert (p ∉ keys) as Hp.
    { apply NoDup_app in Hnd as (_ & Hd & _). intros Hin.
      apply (Hd p Hin). by left. }
    unfold registry_set at 2. rewrite decide_False by done.
    rewrite IH; [by rewrite <- app_assoc|]. by rewrite <- app_assoc.
Qed.

Lemma lock_some (a : Z) (force : bool) (fn : World → Outcome unit * World)
    (w : World) (names : list string) :
  listing a w = Some names →
  lock (Some a) force fn w =
  match mapSeries (takeLockFile force) (lockFilesOfApp a names) (started a w) with
  | (Resolved _, w1) => let '(r, w2) := fn (emit Invoke w1) in (r, dispose a w2)
  | (Rejected err, w3) =>
      (Rejected (UpdatesLockedError ("Updates are locked: " +:+ message err)),
       dispose a w3)
  end.
Proof.
  intros Hl. unfold lock. rewrite (takeTheLock_listing _ _ _ _ Hl).
  rewrite takeServiceLocks_flat.
  by destruct (mapSeries (takeLockFile force) _ _) as [[[]|e] w1].
Qed.

(** C2 (as amended).  For a non-null [appId] whose lock directory can be
    listed (or is missing), if taking some lock file is rejected with an
    error [err], then [err] is not a missing-file error, [fn] never runs and
    the call is rejected with [UpdatesLockedError] carrying [err]'s message;
    the registry is emptied and the writer lock released after
    [unlockAsync] has been issued for every name in the registry, the files
    acquired so far among them, in the registry's own order: what it held
    before the call, then the files this call acquired in the order it
    acquired them (so, from an empty registry and without repeated names,
    exactly the acquired files in acquisition order).  A missing-file error
    from [lockAsync] skips that file without registering it, and a missing
    lock directory counts as a directory without services. *)
Theorem lock_updates_locked (a : Z) (force : bool)
    (fn : World → Outcome unit * World) (w : World) (names : list string)
    (err : JsError) (w3 : World) :
  listing a w = Some names →
  mapSeries (takeLockFile force) (lockFilesOfApp a names) (started a w)
    = (Rejected err, w3) →
  ( ENOENT err = false
    ∧ lock (Some a) force fn w =
        (Rejected (UpdatesLockedError ("Updates are locked: " +:+ message err)),
         dispose a w3)
    ∧ locksTaken (dispose a w3) = []
    ∧ ∃ t, trace w3 = trace (started a w) ++ t
           ∧ locksTaken w3 = foldl registry_set (locksTaken w) (acquired t)
           ∧ (∀ p, p ∈ acquired t → p ∈ locksTaken w3)
           ∧ trace (dispose a w3) =
               trace (started a w) ++ t
               ++ (UnlockAsync <$> locksTaken w3) ++ [Release a]
           ∧ (locksTaken w = [] → NoDup (acquired t) →
              locksTaken w3 = acquired t) )
  ∧ ( ∀ p w0 e h',
        lockAsync p (fs (if force then callUnlockAsync p w0 else w0))
          = (Rejected e, h') →
        ENOENT e = true →
        ∃ w0', takeLockFile force p w0 = (Resolved tt, w0')
               ∧ locksTaken w0' = locksTaken w0 )
  ∧ ( ∀ e, readdir (getPathOnHost (lockPath a None)) (fs w) = Rejected e →
           ENOENT e = true → names = [] ).
Proof.
  intros Hl Hm. split; [|split].
  - split; [by eapply mapSeries_takeLockFile_rejected|].
    split; [by rewrite (lock_some _ _ _ _ _ Hl), Hm|].
    split; [by rewrite dispose_eq|].
    destruct (mapSeries_takeLockFile_extends _ _ _ _ _ Hm) as (t & Ht & Hr).
    change (locksTaken (started a w)) with (locksTaken w) in Hr.
    exists t. split; [done|]. split; [done|]. split; [|split].
    + intros p Hp. rewrite Hr. by apply foldl_registry_set_elem.
    + rewrite dispose_eq. simpl. by rewrite Ht, <- app_assoc.
    + intros Hnil Hnd. rewrite Hr, Hnil. by apply foldl_registry_set_fresh.
  - intros p w0 e h' Hlock He. unfold takeLockFile. rewrite Hlock, He.
    eexists. split; [done|]. by destruct force.
  - intros e Hr He. unfold listing in Hl. rewrite Hr, He in Hl. by simplify_eq.
Qed.

(** C9 (as amended).  For a non-null [appId] whose lock directory can be
    listed (or is missing), however the call ends - [fn] resolved, [fn]
    rejected, or the acquisition was rejected with [UpdatesLockedError] -
    the registry is empty afterwards, and [unlockAsync] has been issued for
    every name that was in the registry when [dispose] ran, then the writer
    lock released.  That registry includes every name that was in it when
    the call started, whoever registered it: when the acquisition fails all
    of them are unlocked, not only the files this call acquired. *)
Theorem lock_empties_registry (a : Z) (force : bool)
    (fn : World → Outcome unit * World) (w : World) (names : list string)
    (r : Outcome unit) (w' : World) :
  listing a w = Some names →
  lock (Some a) force fn w = (r, w') →
  locksTaken w' = []
  ∧ ∃ w2, w' = dispose a w2
      ∧ trace w' = trace w2 ++ (UnlockAsync <$> locksTaken w2) ++ [Release a]
      ∧ ( (∃ err, r = Rejected (UpdatesLockedError
                                  ("Updates are locked: " +:+ message err))
                  ∧ mapSeries (takeLockFile force) (lockFilesOfApp a names)
                      (started a w) = (Rejected err, w2)
                  ∧ ∀ p, p ∈ locksTaken w → UnlockAsync p ∈ trace w')
          ∨ (∃ w1, takeTheLock a force w = (Resolved tt, w1)
                   ∧ (∀ p, p ∈ locksTaken w → p ∈ locksTaken w1)
                   ∧ fn (emit Invoke w1) = (r, w2)) ).
Proof.
  intros Hl. rewrite (lock_some _ _ _ _ _ Hl).
  destruct (mapSeries (takeLockFile force) _ _) as [[[]|err] w1] eqn:Hm.
  - destruct (fn (emit Invoke w1)) as [r2 w2] eqn:Hfn. intros [= <- <-].
    split; [by rewrite dispose_eq|]. exists w2.
    split; [done|]. split; [by rewrite dispose_eq|]. right. exists w1.
    split.
    { rewrite (takeTheLock_listing _ _ _ _ Hl), takeServiceLocks_flat. by rewrite Hm. }
    split; [|done].
    destruct (mapSeries_takeLockFile_extends _ _ _ _ _ Hm) as (t & _ & Hr).
    change (locksTaken (started a w)) with (locksTaken w) in Hr.
    intros p Hp. rewrite Hr. by apply foldl_registry_set_incl.
  - intros [= <- <-]. split; [by rewrite dispose_eq|]. exists w1.
    split; [done|]. split; [by rewrite dispose_eq|]. left. exists err.
    split; [done|]. split; [done|].
    destruct (mapSeries_takeLockFile_extends _ _ _ _ _ Hm) as (t & _ & Hr).
    change (locksTaken (started a w)) with (locksTaken w) in Hr.
    intros p Hp. rewrite dispose_eq. simpl.
    apply elem_of_app. right. apply elem_of_app. left.
    apply list_elem_of_fmap_2. rewrite Hr. by apply foldl_registry_set_incl.
Qed.

End WithHost.

Example lockPath_7 : lockPath 7 None = "/tmp/balena-supervisor/services/7".
Proof. reflexivity. Qed.

Example lockFilesOnHost_7_main :
  lockFilesOnHost (lockHost := Sample.lockHost) 7 "main"
  = ["/mnt/root/tmp/balena-supervisor/services/7/main/updates.lock";
     "/mnt/root/tmp/balena-supervisor/services/7/main/resin-updates.lock"].
Proof. reflexivity. Qed.

(** With [force] the held lock file is unlinked first: the call goes
    through, and all three names are in the registry when [dispose] runs. *)
Example lock_forced :
  fst (lock (Some 7) true Sample.idle (Sample.lockWorld Sample.heldByB []))
    = Resolved tt
  ∧ acquired (trace (snd (lock (Some 7) true Sample.idle
                            (Sample.lockWorld Sample.heldByB []))))
    = [Sample.lockFile "a" "updates.lock"; Sample.lockFile "a" "resin-updates.lock";
       Sample.lockFile "b" "updates.lock"; Sample.lockFile "b" "resin-updates.lock"]
  ∧ Sample.lockFiles (fs (snd (lock (Some 7) true Sample.idle
                                 (Sample.lockWorld Sample.heldByB []))))
    = [].
Proof. repeat split; reflexivity. Qed.

(** The theorem at work on the sample device: service [b] holds its
    [updates.lock], so the third [lockAsync] is rejected. *)
Lemma lock_updates_locked_witness :
  lock (Some 7) false Sample.idle (Sample.lockWorld Sample.heldByB [])
  = (Rejected (UpdatesLockedError "Updates are locked: file already exists"),
     dispose 7 Sample.afterThirdLock).
Proof.
  destruct (lock_updates_locked (lockHost := Sample.lockHost) 7 false Sample.idle
              (Sample.lockWorld Sample.heldByB []) ["a"; "b"]
              (ErrnoException "EEXIST" "file already exists")
              Sample.afterThirdLock) as [(_ & Hl & _) _].
  - reflexivity.
  - reflexivity.
  - exact Hl.
Defined.

(** C2 as stated fails: with two lock files acquired before the failure,
    [unlockAsync] is issued for them in the order they were acquired, which
    is not the reverse order. *)
Lemma lock_release_order_counterexample :
  fst (lock (Some 7) false Sample.idle (Sample.lockWorld Sample.heldByB []))
    = Rejected (UpdatesLockedError "Updates are locked: file already exists")
  ∧ acquired (trace (snd (lock (Some 7) false Sample.idle
                            (Sample.lockWorld Sample.heldByB []))))
    = [Sample.lockFile "a" "updates.lock"; Sample.lockFile "a" "resin-updates.lock"]
  ∧ unlocked (trace (snd (lock (Some 7) false Sample.idle
                            (Sample.lockWorld Sample.heldByB []))))
    = [Sample.lockFile "a" "updates.lock"; Sample.lockFile "a" "resin-updates.lock"]
  ∧ unlocked (trace (snd (lock (Some 7) false Sample.idle
                            (Sample.lockWorld Sample.heldByB []))))
    ≠ rev (acquired (trace (snd (lock (Some 7) false Sample.idle
                                   (Sample.lockWorld Sample.heldByB []))))).
Proof.
  repeat split; try reflexivity. vm_compute. discriminate.
Qed.

Lemma lock_empties_registry_witness :
  locksTaken (snd (lock (Some 7) false Sample.idle
                     (Sample.lockWorld Sample.heldByB [Sample.foreignLock]))) = []
  ∧ UnlockAsync Sample.foreignLock
      ∈ trace (snd (lock (Some 7) false Sample.idle
                      (Sample.lockWorld Sample.heldByB [Sample.foreignLock]))).
Proof.
  destruct (lock_empties_registry (lockHost := Sample.lockHost) 7 false Sample.idle
              (Sample.lockWorld Sample.heldByB [Sample.foreignLock]) ["a"; "b"]
              (fst (lock (Some 7) false Sample.idle
                      (Sample.lockWorld Sample.heldByB [Sample.foreignLock])))
              (snd (lock (Some 7) false Sample.idle
                      (Sample.lockWorld Sample.heldByB [Sample.foreignLock]))))
    as (Hempty & w2 & _ & _ & [(err & _ & _ & Hall) | (w1 & Hw1 & _)]).
  - reflexivity.
  - reflexivity.
  - split; [exact Hempty|]. apply Hall. apply list_elem_of_here.
  - exfalso. vm_compute in Hw1. discriminate Hw1.
Defined.

(** C9 as stated fails without the two provisos: with a null [appId]
    nothing is disposed of, and when [readdir] fails with an error other
    than a missing directory the call is rejected before any lock file is
    touched; either way a name registered by another call stays in the
    registry and no [unlockAsync] is issued. *)
Lemma lock_registry_counterexample :
  ( locksTaken (snd (lock None false Sample.idle
                       (Sample.lockWorld Sample.heldByB [Sample.foreignLock])))
      = [Sample.foreignLock]
    ∧ unlocked (trace (snd (lock None false Sample.idle
                         (Sample.lockWorld Sample.heldByB [Sample.foreignLock]))))
      = [] )
  ∧ ( lock (Some 7) false Sample.idle
        (Sample.lockWorld Sample.unreadableDir [Sample.foreignLock])
      = (Rejected (ErrnoException "EACCES" "permission denied"),
         @mkWorld Sample.lockHost Sample.unreadableDir [Sample.foreignLock]
                 [WriteLock 7; Readdir Sample.servicesDir]) ).
Proof. repeat split; reflexivity. Qed.

End UpdateLockFacts.

(** * Facts about [DeviceState] *)

Module DeviceStateFacts.
Import DeviceState.

Section WithCollaborators.
Context {validation : Validation} {collaborators : Collaborators}.

Lemma Qlt_bool_iff (x y : Q) : Qlt_bool x y = true ↔ (x < y)%Q.
Proof.
  unfold Qlt_bool. rewrite negb_true_iff. split.
  - intros Hle. apply Qnot_le_lt. intros Hyx.
    apply Qle_bool_iff in Hyx. congruence.
  - intros Hlt. destruct (Qle_bool y x) eqn:Hle; [|done].
    apply Qle_bool_iff in Hle. exfalso. by eapply Qlt_not_le.
Qed.

(** C5 (as amended).  [healthcheck] answers true exactly when the device
    is unmanaged, or no apply is in progress, or a fetch is in progress, or
    the time since the last apply started, less the time spent fetching, is
    below twice the poll interval. *)
Theorem healthcheck_true_iff (cycleTime : Z * Z) (s : State) :
  fst (healthcheck cycleTime s) = true
  ↔ config_get_unmanaged (ext s) = true
    ∨ applyInProgress s = false
    ∨ 0 < applicationManager_fetchesInProgress (ext s)
    ∨ (cycleTimeMs cycleTime - applicationManager_timeSpentFetching (ext s)
       < 2 * inject_Z (maxPollTime s))%Q.
Proof.
  unfold healthcheck.
  destruct (config_get_unmanaged (ext s)); simpl; [tauto|].
  unfold applyTargetHealthy, cycleTimeWithinInterval.
  rewrite !orb_true_iff, negb_true_iff, Z.ltb_lt, Qlt_bool_iff.
  split; [tauto|]. intros [?|?]; [done|tauto].
Qed.

Lemma validateState_rejects (target : JsValue) :
  isObject (prop target "local") = false
  ∨ isNullish (prop (prop target "local") "apps") = true
  ∨ isValidAppsObject (prop (prop target "local") "apps") = false
  ∨ isNullish (prop (prop target "local") "config") = true
  ∨ isValidEnv (prop (prop target "local") "config") = false →
  ∃ msg, validateState target = Some (PlainError msg) ∧ msg ∈ validationMessages.
Proof.
  intros Hbad. unfold validateState, validateLocalState, validationMessages.
  destruct (isObject target); simpl; [|eexists; split; [done|in_list]].
  destruct (isObject (prop target "local")); simpl;
    [|eexists; split; [done|in_list]].
  destruct (negb (isNullish (prop (prop target "local") "name"))
            && negb (isValidShortText (prop (prop target "local") "name")));
    [eexists; split; [done|in_list]|].
  destruct (isNullish (prop (prop target "local") "apps")); simpl;
    [eexists; split; [done|in_list]|].
  destruct (isValidAppsObject (prop (prop target "local") "apps")); simpl;
    [|eexists; split; [done|in_list]].
  destruct (isNullish (prop (prop target "local") "config")); simpl;
    [eexists; split; [done|in_list]|].
  destruct (isValidEnv (prop (prop target "local") "config")); simpl;
    [|eexists; split; [done|in_list]].
  destruct Hbad as [?|[?|[?|[?|?]]]]; discriminate.
Qed.

Lemma validationMessages_readable (msg : string) :
  msg ∈ validationMessages → msg ≠ "".
Proof.
  unfold validationMessages. intros Hm ->. revert Hm. not_in_list.
Qed.

(** C7.  A target state whose [local] is not an object, or that has no
    [apps] (or malformed ones), or whose device configuration is missing or
    malformed makes [setTarget] throw a validation error with one of the
    module's messages; nothing is written: the collaborators' state (where
    the target is persisted) is untouched, and no event is emitted, no lock
    taken and no transaction started.  Only [failedUpdates] has been reset
    by then. *)
Theorem setTarget_rejects_invalid (target : JsValue) (localSource : option bool)
    (s : State) :
  isObject (prop target "local") = false
  ∨ isNullish (prop (prop target "local") "apps") = true
  ∨ isValidAppsObject (prop (prop target "local") "apps") = false
  ∨ isNullish (prop (prop target "local") "config") = true
  ∨ isValidEnv (prop (prop target "local") "config") = false →
  ∃ msg s',
    setTarget target localSource s = (Rejected (PlainError msg), s')
    ∧ msg ∈ validationMessages ∧ msg ≠ ""
    ∧ ext s' = ext s
    ∧ effects s' = effects s
    ∧ s' = set_failedUpdates 0 s.
Proof.
  intros Hbad. destruct (validateState_rejects target Hbad) as (msg & Hv & Hin).
  exists msg, (set_failedUpdates 0 s). unfold setTarget. rewrite Hv.
  repeat split; try done. by apply validationMessages_readable.
Qed.


(** C3.  The handler behind the reboot and shutdown routes, for an action
    that neither the device configuration nor the application manager
    claims.  [stopAll] is called first, with [force] set iff the request
    forces it or [lockOverride] is set.  If [stopAll] is rejected the host
    primitive is never called and nothing else happens: the reply is 423
    for an [UpdatesLockedError] and 500 for any other error.  If the host
    primitive itself is rejected the reply follows the same rule.
    Otherwise the calls are, in this order, [stopAll], the system log
    message, the host primitive and the ['shutdown'] event, [shuttingDown]
    is true afterwards and the reply is 202 with
    [{ Data: 'OK', Error: null }]. *)
Theorem rebootOrShutdown_contract (reqBody : JsValue) (action : string)
    (s : State) :
  action = "reboot" ∨ action = "shutdown" →
  deviceConfig_isValidAction action = false →
  action ∉ applicationManager_validActions →
  let force :=
    Some (checkTruthy (prop reqBody "force") || config_get_lockOverride (ext s)) in
  let isReboot := bool_decide (action = "reboot") in
  let primitive := if isReboot then CallDbusReboot else CallDbusShutdown in
  let dbus := if isReboot then dbus_reboot else dbus_shutdown in
  let announcement :=
    if isReboot then LogSystemMessage "Rebooting" "Reboot"
    else LogSystemMessage "Shutting down" "Shutdown" in
  ∃ reply s' new,
    rebootOrShutdown reqBody action s = (reply, s')
    ∧ effects s' = effects s ++ new
    ∧ head new = Some (CallStopAll force None)
    ∧ match applicationManager_stopAll force None (ext s) with
      | (Rejected e, _) =>
          status reply = (if isUpdatesLockedError e then 423 else 500)
          ∧ new = [CallStopAll force None]
          ∧ shuttingDown s' = shuttingDown s
      | (Resolved _, x) =>
          match dbus x with
          | (Rejected e, _) =>
              status reply = (if isUpdatesLockedError e then 423 else 500)
              ∧ new = [CallStopAll force None; announcement; primitive]
              ∧ shuttingDown s' = shuttingDown s
          | (Resolved _, _) =>
              reply = mkReply 202 (JsObject [("Data", JsString "OK");
                                             ("Error", JsNull)])
              ∧ new = [CallStopAll force None; announcement; primitive;
                       EmitAsync "shutdown" None]
              ∧ shuttingDown s' = true
          end
      end.
Proof.
  intros Hact Hconf Happ. simpl.
  unfold rebootOrShutdown, executeStepAction. simpl.
  rewrite Hconf, (bool_decide_eq_false_2 _ Happ).
  destruct s as [mpt fu ac sched sd aip cd cv effs x].
  destruct Hact as [-> | ->]; simpl; unfold reboot, shutdown; simpl.
  - destruct (applicationManager_stopAll _ None x) as [[[]|e] x1]; simpl.
    + destruct (dbus_reboot x1) as [[[]|e] x2]; simpl;
        eexists; eexists; eexists; (split; [reflexivity|]); simpl;
        (split; [by rewrite <- !app_assoc|]); done.
    + eexists; eexists; eexists; (split; [reflexivity|]); simpl; done.
  - destruct (applicationManager_stopAll _ None x) as [[[]|e] x1]; simpl.
    + destruct (dbus_shutdown x1) as [[[]|e] x2]; simpl;
        eexists; eexists; eexists; (split; [reflexivity|]); simpl;
        (split; [by rewrite <- !app_assoc|]); done.
    + eexists; eexists; eexists; (split; [reflexivity|]); simpl; done.
Qed.

End WithCollaborators.

(** C5 as stated fails on an unmanaged device: an apply is in progress,
    nothing is being fetched and 10000 s have passed against a poll
    interval of 900 s, yet [healthcheck] answers true. *)
Lemma healthcheck_unmanaged_counterexample :
  fst (healthcheck (collaborators := Sample.collaborators) Sample.longCycle
         (Sample.deviceState (Sample.box true None None) 0 None true)) = true
  ∧ ¬ (applyInProgress
         (Sample.deviceState (Sample.box true None None) 0 None true) = false
       ∨ 0 < Sample.fetches (Sample.box true None None)
       ∨ (cycleTimeMs Sample.longCycle - Sample.fetching (Sample.box true None None)
          < 2 * inject_Z 900000)%Q).
Proof.
  split; [reflexivity|]. intros [Hin | [Hf | Hc]].
  - discriminate Hin.
  - vm_compute in Hf. discriminate Hf.
  - vm_compute in Hc. discriminate Hc.
Qed.

(** Three failures in a row with nothing scheduled: 1000, 2000, 4000 ms,
    and the poll interval caps the delay. *)
Example backoffDelay_grows :
  backoffDelay (Sample.deviceState (Sample.box false None None) 1 None true) = 1000
  ∧ backoffDelay (Sample.deviceState (Sample.box false None None) 2 None true) = 2000
  ∧ backoffDelay (Sample.deviceState (Sample.box false None None) 3 None true) = 4000
  ∧ backoffDelay (Sample.deviceState (Sample.box false None None) 20 None true)
    = 900000.
Proof. repeat split; reflexivity. Qed.

(** A forced reboot goes through although a workload holds a lock. *)
Example reboot_forced :
  rebootOrShutdown (validation := Sample.validation)
    (collaborators := Sample.collaborators)
    (JsObject [("force", JsBool true)]) "reboot"
    (Sample.deviceState
       (Sample.box false (Some (UpdatesLockedError "Updates are locked")) None)
       0 None false)
  = (mkReply 202 (JsObject [("Data", JsString "OK"); ("Error", JsNull)]),
     set_shuttingDown true
       (effect (EmitAsync "shutdown" None)
          (effect CallDbusReboot
             (effect (LogSystemMessage "Rebooting" "Reboot")
                (effect (CallStopAll (Some true) None)
                   (Sample.deviceState
                      (Sample.box false
                         (Some (UpdatesLockedError "Updates are locked")) None)
                      0 None false)))))).
Proof. reflexivity. Qed.

(** A target without [apps] is turned away before anything is written. *)
Lemma setTarget_rejects_invalid_witness :
  fst (setTarget (validation := Sample.validation)
         (collaborators := Sample.collaborators) Sample.targetWithoutApps None
         (Sample.deviceState (Sample.box false None None) 3 None false))
    = Rejected (PlainError "Invalid apps")
  ∧ Sample.persisted
      (ext (snd (setTarget (validation := Sample.validation)
                   (collaborators := Sample.collaborators)
                   Sample.targetWithoutApps None
                   (Sample.deviceState (Sample.box false None None) 3 None false))))
    = [].
Proof.
  destruct (setTarget_rejects_invalid (validation := Sample.validation)
              (collaborators := Sample.collaborators) Sample.targetWithoutApps None
              (Sample.deviceState (Sample.box false None None) 3 None false))
    as (msg & s' & Heq & _ & _ & Hext & _).
  - right. left. reflexivity.
  - rewrite Heq. simpl. split.
    + vm_compute in Heq. by injection Heq as <- _.
    + by rewrite Hext.
Defined.



(** A reboot request without [force] while a workload holds a lock: 423,
    and [stopAll] is the only call made. *)
Lemma rebootOrShutdown_contract_witness :
  status (fst (rebootOrShutdown (validation := Sample.validation)
                 (collaborators := Sample.collaborators) (JsObject []) "reboot"
                 (Sample.deviceState
                    (Sample.box false (Some (UpdatesLockedError "Updates are locked"))
                                None) 0 None false)))
    = 423
  ∧ effects (snd (rebootOrShutdown (validation := Sample.validation)
                    (collaborators := Sample.collaborators) (JsObject []) "reboot"
                    (Sample.deviceState
                       (Sample.box false (Some (UpdatesLockedError "Updates are locked"))
                                   None) 0 None false)))
    = [CallStopAll (Some false) None].
Proof.
  destruct (rebootOrShutdown_contract (validation := Sample.validation)
              (collaborators := Sample.collaborators) (JsObject []) "reboot"
              (Sample.deviceState
                 (Sample.box false (Some (UpdatesLockedError "Updates are locked"))
                             None) 0 None false))
    as (reply & s' & new & Heq & Heff & _ & Hm).
  - left. reflexivity.
  - reflexivity.
  - vm_compute. not_in_list.
  - rewrite Heq. simpl. simpl in Hm. destruct Hm as (Hst & Hnew & _).
    split; [exact Hst|]. rewrite Heff, Hnew. reflexivity.
Defined.

End DeviceStateFacts.

(** * Facts about [V2Api] *)

Module V2ApiFacts.
Import V2Api.

Section WithHost.
Context {validation : Validation} {lockHost : UpdateLock.LockFileHost}
        {apiHost : ApiHost}.

Lemma falsyAppId_false (o : option Z) (appId : Z) :
  o = Some appId → appId ≠ 0 → falsyAppId o = false.
Proof. intros -> Hne. simpl. by apply bool_decide_eq_false_2. Qed.

Lemma scopedKeyAuth_isScoped (key : string) (A B : Z) :
  isScoped (scopedKeyAuth key A) [B] = true ↔ B = A.
Proof.
  simpl. rewrite andb_true_r, bool_decide_eq_true, elem_of_cons, elem_of_nil.
  tauto.
Qed.

Lemma scopedKeyAuth_out_of_scope (key : string) (A B : Z) :
  B ≠ A → isScoped (scopedKeyAuth key A) [B] = false.
Proof.
  intros Hne. apply not_true_is_false. by rewrite scopedKeyAuth_isScoped.
Qed.

(** C10.  When the [:appId] parameter does not pass [checkInt], or passes
    it as 0, the service-action, purge and restart handlers all answer 400
    with the message 'Missing app id' and leave the world as it was: there
    is no scope check and no call into the executor. *)
Theorem missing_app_id (req : Request) (action : string) (w : ApiWorld) :
  checkInt (params_appId req) = None ∨ checkInt (params_appId req) = Some 0 →
  handleServiceAction req action w = (failed 400 "Missing app id", w)
  ∧ purge req w = (failed 400 "Missing app id", w)
  ∧ restart req w = (failed 400 "Missing app id", w)
  ∧ failed 400 "Missing app id"
    = Json 400 (JsObject [("status", JsString "failed");
                          ("message", JsString "Missing app id")]).
Proof.
  intros Hbad. unfold handleServiceAction, purge, restart.
  by destruct Hbad as [-> | ->].
Qed.

Lemma findByServiceName_named (v : JsValue) (l : list Service.t) (s : Service.t) :
  findByServiceName v l = Some s → isNullish v = false.
Proof.
  unfold findByServiceName. intros Hf. apply find_some in Hf as [_ Hv].
  by destruct v.
Qed.

(** The handler up to the point where the service is known. *)
Lemma handleServiceAction_found (req : Request) (action : string) (w : ApiWorld)
    (appId : Z) (apps : gmap Z App) (targetApp app : App) (service : Service.t) :
  checkInt (params_appId req) = Some appId → appId ≠ 0 →
  isScoped (auth req) [appId] = true →
  getCurrentApps (host w) = Resolved apps →
  getApp appId (host w) = Resolved targetApp →
  apps !! appId = Some app →
  named req (services app) = Some service →
  handleServiceAction req action w =
  let running := negb (bool_decide (action = "stop")) in
  let w1 := call (ScopeCheck [appId]) w in
  let w2 :=
    set_host (setTargetVolatileForService (Service.imageId service) running (host w1))
             (call (SetTargetVolatileForService (Service.imageId service) running) w1) in
  match executeStep (mkStep action service (named req (services targetApp)) true)
                    (prop (body req) "force") w2 with
  | (Resolved _, w') => (Send 200 "OK", w')
  | (Rejected e, w') => (Next e, w')
  end.
Proof.
  intros Hint Hne Hscope Hcur Htgt Happ Hnamed. unfold handleServiceAction.
  rewrite (falsyAppId_false _ _ Hint Hne), Hint. simpl.
  rewrite Hscope. simpl.
  change (host (call (ScopeCheck [appId]) w)) with (host w).
  rewrite Hcur, Htgt, Happ. unfold named in *.
  destruct (isNullish (prop (body req) "imageId")) eqn:Himg; simpl in *.
  - rewrite (findByServiceName_named _ _ _ Hnamed), Hnamed. done.
  - rewrite Hnamed. done.
Qed.

(** C1 (as amended).  A start-service request whose [:appId] passes
    [checkInt] with a nonzero integer in the key's scope and which names a
    service of the current application - the lookups of the current and
    target applications and the step's own work on the runtime having
    resolved - is answered with 200 'OK'.  The executor is called exactly
    once, with the step [{ action: 'start', current, target, wait: true }]
    and the request's [force]; the state of the update-lock module is left
    as it was: no writer lock, no listing of the lock directory, no
    [lockAsync] or [unlockAsync], whatever lock files the host holds. *)
Theorem startService_bypasses_locks (req : Request) (w : ApiWorld) (appId : Z)
    (apps : gmap Z App) (targetApp app : App) (service : Service.t)
    (h' : UpdateLock.Host) :
  checkInt (params_appId req) = Some appId → appId ≠ 0 →
  isScoped (auth req) [appId] = true →
  getCurrentApps (host w) = Resolved apps →
  getApp appId (host w) = Resolved targetApp →
  apps !! appId = Some app →
  named req (services app) = Some service →
  runStep (mkStep "start" service (named req (services targetApp)) true)
          (setTargetVolatileForService (Service.imageId service) true (host w))
    = (Resolved tt, h') →
  ∃ w',
    startService req w = (Send 200 "OK", w')
    ∧ calls w' = calls w ++
        [ScopeCheck [appId];
         SetTargetVolatileForService (Service.imageId service) true;
         ExecuteStep (mkStep "start" service (named req (services targetApp)) true)
                     (prop (body req) "force")]
    ∧ UpdateLock.trace (world w') = UpdateLock.trace (world w)
    ∧ UpdateLock.locksTaken (world w') = UpdateLock.locksTaken (world w)
    ∧ host w' = h'.
Proof.
  intros Hint Hne Hscope Hcur Htgt Happ Hnamed Hrun. unfold startService.
  rewrite (handleServiceAction_found _ _ _ _ _ _ _ _ Hint Hne Hscope Hcur Htgt
             Happ Hnamed).
  simpl. unfold executeStep, stepThunk. simpl. unfold host in *. simpl.
  rewrite Hrun. eexists. split; [reflexivity|]. simpl.
  by rewrite <- !app_assoc.
Qed.

(** C4 (as amended).  For any service action whose [:appId] passes
    [checkInt] with a nonzero integer in the key's scope, when the lookups
    of the current and target applications resolve and there is no current
    application with that id, the handler answers 404 with the
    app-not-found message; only the scope check has run. *)
Theorem unknown_app_not_found (req : Request) (action : string) (w : ApiWorld)
    (appId : Z) (apps : gmap Z App) (targetApp : App) :
  checkInt (params_appId req) = Some appId → appId ≠ 0 →
  isScoped (auth req) [appId] = true →
  getCurrentApps (host w) = Resolved apps →
  getApp appId (host w) = Resolved targetApp →
  apps !! appId = None →
  handleServiceAction req action w
  = (Send 404 appNotFoundMessage, call (ScopeCheck [appId]) w).
Proof.
  intros Hint Hne Hscope Hcur Htgt Happ. unfold handleServiceAction.
  rewrite (falsyAppId_false _ _ Hint Hne), Hint. simpl.
  rewrite Hscope. simpl.
  change (host (call (ScopeCheck [appId]) w)) with (host w).
  by rewrite Hcur, Htgt, Happ.
Qed.

(** *** Scope of the queries *)

Lemma foldl_invariant {A B} (P : A → Prop) (f : A → B → A) (l : list B) (a : A) :
  P a → (∀ a x, x ∈ l → P a → P (f a x)) → P (foldl f a l).
Proof.
  revert a. induction l as [|x l IH]; intros a Ha Hstep; simpl; [done|].
  apply IH.
  - apply Hstep; [apply list_elem_of_here | done].
  - intros a' y Hy. apply Hstep. by apply list_elem_of_further.
Qed.








End WithHost.

Example checkInt_samples :
  Sample.decimal "1658654" = Some 1658654
  ∧ Sample.decimal "123invalid" = None
  ∧ Sample.decimal "0" = Some 0
  ∧ Sample.decimal "" = None.
Proof. repeat split; reflexivity. Qed.

(** Restart under a held lock: without [force] the executor is called and
    the error surfaces from the lock; with [force] the step runs and the
    lock files are taken and released again. *)
Example restartService_locked :
  fst (restartService (validation := Sample.validation) (apiHost := Sample.apiHost)
         (Sample.request "1658654" (JsObject [("serviceName", JsString "main")])
                         1658654)
         (Sample.apiWorld (Sample.testDevice [Sample.mainLock] None)))
    = Next (UpdatesLockedError "Updates are locked: file already exists")
  ∧ length (filter (λ c, isStepCall c)
              (calls (snd (restartService (validation := Sample.validation)
                             (apiHost := Sample.apiHost)
                             (Sample.request "1658654"
                                (JsObject [("serviceName", JsString "main")])
                                1658654)
                             (Sample.apiWorld
                                (Sample.testDevice [Sample.mainLock] None))))))
    = 1%nat.
Proof. split; reflexivity. Qed.

Example restartService_forced :
  fst (restartService (validation := Sample.validation) (apiHost := Sample.apiHost)
         (Sample.request "1658654"
            (JsObject [("serviceName", JsString "main"); ("force", JsBool true)])
            1658654)
         (Sample.apiWorld (Sample.testDevice [Sample.mainLock] None)))
    = Send 200 "OK"
  ∧ UpdateLock.acquired
      (UpdateLock.trace
         (world (snd (restartService (validation := Sample.validation)
                        (apiHost := Sample.apiHost)
                        (Sample.request "1658654"
                           (JsObject [("serviceName", JsString "main");
                                      ("force", JsBool true)])
                           1658654)
                        (Sample.apiWorld
                           (Sample.testDevice [Sample.mainLock] None))))))
    = [Sample.mainLock;
       "/mnt/root/tmp/balena-supervisor/services/1658654/main/resin-updates.lock"].
Proof. split; reflexivity. Qed.

(** The start-service scenario of the tests, with the service's update
    lock held by a workload all along. *)
Lemma startService_bypasses_locks_witness :
  fst (startService (validation := Sample.validation) (apiHost := Sample.apiHost)
         (Sample.request "1658654" (JsObject [("serviceName", JsString "main")])
                         1658654)
         (Sample.apiWorld (Sample.testDevice [Sample.mainLock] None)))
    = Send 200 "OK"
  ∧ UpdateLock.trace
      (world (snd (startService (validation := Sample.validation)
                     (apiHost := Sample.apiHost)
                     (Sample.request "1658654"
                        (JsObject [("serviceName", JsString "main")]) 1658654)
                     (Sample.apiWorld (Sample.testDevice [Sample.mainLock] None)))))
    = [].
Proof.
  destruct (startService_bypasses_locks (validation := Sample.validation)
              (apiHost := Sample.apiHost)
              (Sample.request "1658654" (JsObject [("serviceName", JsString "main")])
                              1658654)
              (Sample.apiWorld (Sample.testDevice [Sample.mainLock] None))
              1658654
              {[ 1658654 := mkApp [Sample.main] ["data"] ]}
              (mkApp [Sample.main] ["data"]) (mkApp [Sample.main] ["data"])
              Sample.main (Sample.testDevice [Sample.mainLock] None))
    as (w' & Heq & _ & Htrace & _).
  - reflexivity.
  - discriminate.
  - reflexivity.
  - reflexivity.
  - reflexivity.
  - reflexivity.
  - reflexivity.
  - reflexivity.
  - rewrite Heq. simpl. split; [reflexivity | exact Htrace].
Defined.

(** C1 as stated fails.  Application 1658654 is current, its service
    [main] is named by the request and the key is scoped to it; yet when
    the lookup of the target application rejects, the error goes to [next]
    and the executor is never called, and when the step's work on the
    runtime fails, the answer is that error and not 200. *)
Lemma startService_counterexample :
  checkInt (Validation := Sample.validation) "1658654" = Some 1658654
  ∧ isScoped (auth (Sample.request "1658654"
                      (JsObject [("serviceName", JsString "main")]) 1658654))
             [1658654] = true
  ∧ (∃ app, Sample.currentApps Sample.untargeted !! 1658654 = Some app
            ∧ named (Sample.request "1658654"
                       (JsObject [("serviceName", JsString "main")]) 1658654)
                    (services app) = Some Sample.main)
  ∧ startService (validation := Sample.validation) (apiHost := Sample.apiHost)
      (Sample.request "1658654" (JsObject [("serviceName", JsString "main")])
                      1658654)
      (Sample.apiWorld Sample.untargeted)
    = (Next (PlainError "no target application"),
       call (ScopeCheck [1658654]) (Sample.apiWorld Sample.untargeted))
  ∧ calls (call (ScopeCheck [1658654]) (Sample.apiWorld Sample.untargeted))
    = [ScopeCheck [1658654]]
  ∧ fst (startService (validation := Sample.validation)
           (apiHost := Sample.apiHost)
           (Sample.request "1658654"
              (JsObject [("serviceName", JsString "main")]) 1658654)
           (Sample.apiWorld
              (Sample.testDevice [] (Some (PlainError "container is gone")))))
    = Next (PlainError "container is gone").
Proof.
  split; [reflexivity|]. split; [reflexivity|].
  split; [by eexists|]. repeat split; reflexivity.
Qed.

(** Application 222222 is targeted but not among the current
    applications: the key's own application, and yet 404. *)
Lemma unknown_app_not_found_witness :
  fst (stopService (validation := Sample.validation) (apiHost := Sample.apiHost)
         (Sample.request "222222" (JsObject [("serviceName", JsString "other")])
                         222222)
         (Sample.apiWorld (Sample.testDevice [] None)))
    = Send 404 "App not found".
Proof.
  unfold stopService.
  rewrite (unknown_app_not_found (validation := Sample.validation)
             (apiHost := Sample.apiHost) _ "stop" _ 222222
             {[ 1658654 := mkApp [Sample.main] ["data"] ]}
             (mkApp [Sample.other] ["cache"]));
    first [reflexivity | discriminate].
Defined.

(** C4 as stated fails: for an application id in the key's scope that
    names no current application, all three service actions answer 404, not
    409. *)
Lemma unknown_app_counterexample :
  statusOf (fst (startService (validation := Sample.validation)
                   (apiHost := Sample.apiHost)
                   (Sample.request "222222"
                      (JsObject [("serviceName", JsString "other")]) 222222)
                   (Sample.apiWorld (Sample.testDevice [] None))))
    = Some 404
  ∧ statusOf (fst (stopService (validation := Sample.validation)
                     (apiHost := Sample.apiHost)
                     (Sample.request "222222"
                        (JsObject [("serviceName", JsString "other")]) 222222)
                     (Sample.apiWorld (Sample.testDevice [] None))))
    = Some 404
  ∧ statusOf (fst (restartService (validation := Sample.validation)
                     (apiHost := Sample.apiHost)
                     (Sample.request "222222"
                        (JsObject [("serviceName", JsString "other")]) 222222)
                     (Sample.apiWorld (Sample.testDevice [] None))))
    = Some 404
  ∧ (404 ≠ 409).
Proof. repeat split; try reflexivity. discriminate. Qed.

(** The literal "0" passes [checkInt] and is still turned away. *)
Lemma missing_app_id_witness :
  checkInt (Validation := Sample.validation) "0" = Some 0
  ∧ fst (purge (validation := Sample.validation) (apiHost := Sample.apiHost)
           (Sample.request "0" (JsObject []) 1658654)
           (Sample.apiWorld (Sample.testDevice [] None)))
    = Json 400 (JsObject [("status", JsString "failed");
                          ("message", JsString "Missing app id")])
  ∧ calls (snd (handleServiceAction (validation := Sample.validation)
                  (apiHost := Sample.apiHost)
                  (Sample.request "0" (JsObject []) 1658654) "restart"
                  (Sample.apiWorld (Sample.testDevice [] None))))
    = [].
Proof.
  destruct (missing_app_id (validation := Sample.validation)
              (apiHost := Sample.apiHost)
              (Sample.request "0" (JsObject []) 1658654) "restart"
              (Sample.apiWorld (Sample.testDevice [] None)))
    as (Hservice & Hpurge & _ & _).
  - right. reflexivity.
  - split; [reflexivity|]. rewrite Hpurge, Hservice. split; reflexivity.
Defined.


End V2ApiFacts.

(** * More about [UpdateLock]: the paths, the forced and the successful
    acquisition, an unreadable lock directory *)

Module UpdateLockProps.
Import UpdateLock UpdateLockFacts.

Section WithHost.
Context {lockHost : LockFileHost}.

Lemma attempted_app (t1 t2 : list Event) :
  attempted (t1 ++ t2) = attempted t1 ++ attempted t2.
Proof. apply omap_app. Qed.

Lemma elem_of_concat {A} (x : A) (ls : list (list A)) :
  x ∈ concat ls → ∃ l, x ∈ l ∧ l ∈ ls.
Proof.
  induction ls as [|l ls IH]; simpl; [by intros ?%elem_of_nil|].
  intros [Hx|Hx]%elem_of_app.
  - exists l. split; [done | apply list_elem_of_here].
  - destruct (IH Hx) as (l' & ? & ?). exists l'.
    split; [done | by apply list_elem_of_further].
Qed.

(** One lock file, taken or skipped: what the trace gains. *)
Lemma takeLockFile_resolved (force : bool) (p : string) (w w' : World) :
  takeLockFile force p w = (Resolved tt, w') →
  ∃ r, benign r
       ∧ trace w' = trace w ++ (if force then [UnlockAsync p] else [])
                            ++ [LockAsync p r]
       ∧ locksTaken w' =
           match r with
           | None => registry_set (locksTaken w) p
           | Some _ => locksTaken w
           end.
Proof.
  unfold takeLockFile.
  destruct (lockAsync p _) as [[[]|e] h'] eqn:Hl.
  - intros [= <-]. exists None. simpl.
    destruct force; simpl; by rewrite <- ?app_assoc.
  - destruct (ENOENT e) eqn:He; [|done]. intros [= <-]. exists (Some e). simpl.
    destruct force; simpl; by rewrite <- ?app_assoc.
Qed.

(** The events of a pass over [files] that met the results [rs]. *)
Lemma mapSeries_takeLockFile_resolved (force : bool) (files : list string)
    (w w' : World) :
  mapSeries (takeLockFile force) files w = (Resolved tt, w') →
  ∃ rs, length rs = length files
        ∧ Forall benign rs
        ∧ trace w' = trace w
            ++ concat (zip_with (λ p r, (if force then [UnlockAsync p] else [])
                                        ++ [LockAsync p r]) files rs).
Proof.
  revert w. induction files as [|p files IH]; intros w; simpl.
  - intros [= <-]. exists []. by rewrite app_nil_r.
  - destruct (takeLockFile force p w) as [[[]|e] w1] eqn:H1; [|done].
    intros Hrest. destruct (takeLockFile_resolved _ _ _ _ H1) as (r & Hr & Ht & _).
    destruct (IH _ Hrest) as (rs & Hlen & Hall & Htr).
    exists (r :: rs). split; [by simpl; rewrite Hlen|].
    split; [by constructor|]. rewrite Htr, Ht. simpl.
    by rewrite <- !app_assoc.
Qed.

Lemma attempted_pass (force : bool) (files : list string)
    (rs : list (option JsError)) :
  length rs = length files →
  attempted (concat (zip_with (λ p r, (if force then [UnlockAsync p] else [])
                                      ++ [LockAsync p r]) files rs)) = files.
Proof.
  revert rs. induction files as [|p files IH]; intros [|r rs] Hlen;
    simplify_eq/=; [done|].
  rewrite attempted_app, (IH rs) by done. by destruct force.
Qed.

(** X1.  The success path of [lock].  When the lock directory can be listed
    (or is missing) and the acquisition goes through, [lockAsync] has been
    called once for every lock file of every listed service, in order, each
    call either granted or answered with a missing-file error; every granted
    file is in the registry when [fn] starts; and the call is [fn] followed
    by [dispose].  So [fn] never runs before the last lock file was tried,
    and never while another holder keeps one of them. *)
Theorem lock_tries_every_file (a : Z) (force : bool)
    (fn : World → Outcome unit * World) (w w1 : World) (names : list string) :
  listing a w = Some names →
  takeTheLock a force w = (Resolved tt, w1) →
  ∃ t, trace w1 = trace (started a w) ++ t
       ∧ attempted t = lockFilesOfApp a names
       ∧ (∀ p e, LockAsync p (Some e) ∈ t → ENOENT e = true)
       ∧ (∀ p, p ∈ acquired t → p ∈ locksTaken w1)
       ∧ (Invoke ∉ t)
       ∧ lock (Some a) force fn w =
           (let '(r, w2) := fn (emit Invoke w1) in (r, dispose a w2)).
Proof.
  intros Hl Ht.
  assert (mapSeries (takeLockFile force) (lockFilesOfApp a names) (started a w)
          = (Resolved tt, w1)) as Hm.
  { rewrite (takeTheLock_listing _ _ _ _ Hl), takeServiceLocks_flat in Ht.
    destruct (mapSeries (takeLockFile force) _ _) as [[[]|e] w'];
      by simplify_eq. }
  destruct (mapSeries_takeLockFile_resolved _ _ _ _ Hm) as (rs & Hlen & Hall & Htr).
  destruct (mapSeries_takeLockFile_extends _ _ _ _ _ Hm) as (t & Ht2 & Hreg).
  assert (t = concat (zip_with (λ p r, (if force then [UnlockAsync p] else [])
                                        ++ [LockAsync p r])
                        (lockFilesOfApp a names) rs)) as ->.
  { rewrite Ht2 in Htr. by apply app_inv_head in Htr. }
  eexists. split; [exact Ht2|]. split; [by apply attempted_pass|].
  split; [|split; [|split]].
  - intros p e Hin. apply elem_of_concat in Hin as (l & Hin & Hl').
    apply elem_of_lookup_zip_with in Hl' as (i & q & r & -> & _ & Hr).
    apply elem_of_app in Hin as [Hin|Hin].
    { destruct force; [|by apply elem_of_nil in Hin].
      by apply list_elem_of_singleton in Hin. }
    apply list_elem_of_singleton in Hin. simplify_eq.
    by apply (Forall_lookup_1 _ _ _ _ Hall Hr).
  - intros p Hp. rewrite Hreg. by apply foldl_registry_set_elem.
  - intros Hin. apply elem_of_concat in Hin as (l & Hin & Hl').
    apply elem_of_lookup_zip_with in Hl' as (i & q & r & -> & _ & _).
    apply elem_of_app in Hin as [Hin|Hin].
    { destruct force; [|by apply elem_of_nil in Hin].
      by apply list_elem_of_singleton in Hin. }
    by apply list_elem_of_singleton in Hin.
  - by rewrite (lock_some _ _ _ _ _ Hl), Hm.
Qed.

(** Under [force] a pass never stops: a file that was just unlinked can be
    taken, or is missing. *)
Lemma mapSeries_takeLockFile_forced (files : list string) (w : World) :
  (∀ p h e, fst (lockAsync p (unlockAsync p h)) = Rejected e → ENOENT e = true) →
  ∃ w', mapSeries (takeLockFile true) files w = (Resolved tt, w').
Proof.
  intros Hlaw. revert w. induction files as [|p files IH]; intros w; simpl.
  - by eexists.
  - unfold takeLockFile at 1. simpl.
    pose proof (Hlaw p (fs w)) as Hp.
    destruct (lockAsync p (unlockAsync p (fs w))) as [[[]|e] h']; simpl in *.
    + apply IH.
    + rewrite (Hp e eq_refl). apply IH.
Qed.

(** X2.  [force] overrides the locks.  On a host where a lock file that was
    just removed can be taken (or turns out to have no directory), a forced
    [lock] on a listable lock directory never ends in
    [UpdatesLockedError]: every lock file of every listed service is first
    handed to [unlockAsync] and then to [lockAsync], in order, and the call
    is [fn] followed by [dispose]. *)
Theorem lock_force_overrides (a : Z) (fn : World → Outcome unit * World)
    (w : World) (names : list string) :
  (∀ p h e, fst (lockAsync p (unlockAsync p h)) = Rejected e → ENOENT e = true) →
  listing a w = Some names →
  ∃ w1 rs,
    takeTheLock a true w = (Resolved tt, w1)
    ∧ length rs = length (lockFilesOfApp a names)
    ∧ Forall benign rs
    ∧ trace w1 = trace (started a w)
        ++ concat (zip_with (λ p r, [UnlockAsync p; LockAsync p r])
                            (lockFilesOfApp a names) rs)
    ∧ lock (Some a) true fn w =
        (let '(r, w2) := fn (emit Invoke w1) in (r, dispose a w2)).
Proof.
  intros Hlaw Hl.
  destruct (mapSeries_takeLockFile_forced (lockFilesOfApp a names) (started a w) Hlaw)
    as (w1 & Hm).
  destruct (mapSeries_takeLockFile_resolved _ _ _ _ Hm) as (rs & Hlen & Hall & Htr).
  exists w1, rs. split.
  { by rewrite (takeTheLock_listing _ _ _ _ Hl), takeServiceLocks_flat, Hm. }
  split; [done|]. split; [done|]. split; [exact Htr|].
  by rewrite (lock_some _ _ _ _ _ Hl), Hm.
Qed.

Lemma string_app_assoc (s1 s2 s3 : string) :
  (s1 +:+ s2) +:+ s3 = s1 +:+ (s2 +:+ s3).
Proof.
  induction s1 as [|c s1 IH]; [reflexivity|].
  change (String c ((s1 +:+ s2) +:+ s3) = String c (s1 +:+ (s2 +:+ s3))).
  by f_equal.
Qed.

Lemma lockFile_in_lockPath (appId : Z) (serviceName filename : string) :
  serviceName ≠ "" → filename ≠ "" →
  path_join [lockPath appId None; serviceName; filename]
  = lockPath appId (Some serviceName) +:+ "/" +:+ filename.
Proof.
  intros Hs Hf. unfold lockPath, path_join, default.
  assert ("/tmp/balena-supervisor/services" ≠ "") as Hroot by discriminate.
  assert ("/tmp/balena-supervisor/services" +:+ "/" +:+ pretty appId ≠ "")
    as Hdir by discriminate.
  destruct (decide (pretty appId = "")) as [He|He]; [rewrite He|].
  all: repeat first
    [ rewrite (filter_cons_True (λ s : string, s ≠ "") _ _ Hroot)
    | rewrite (filter_cons_True (λ s : string, s ≠ "") _ _ Hdir)
    | rewrite (filter_cons_True (λ s : string, s ≠ "") _ _ Hs)
    | rewrite (filter_cons_True (λ s : string, s ≠ "") _ _ Hf)
    | rewrite (filter_cons_True (λ s : string, s ≠ "") _ _ He)
    | rewrite (filter_cons_False (λ s : string, s ≠ "") "")
        by (intros H; by apply H)
    | rewrite filter_nil
    | progress cbn [String.concat] ].
  all: by rewrite !string_app_assoc.
Qed.

(** X3.  The lock files [lock] looks at are the two files inside the
    directory [lockPath(appId, serviceName)] names, seen from the host:
    whoever creates [updates.lock] or [resin-updates.lock] under that
    directory is seen by [lock]. *)
Theorem lockFilesOnHost_in_lockPath (appId : Z) (serviceName : string) :
  serviceName ≠ "" →
  lockFilesOnHost appId serviceName =
    [getPathOnHost (lockPath appId (Some serviceName) +:+ "/updates.lock");
     getPathOnHost (lockPath appId (Some serviceName) +:+ "/resin-updates.lock")].
Proof.
  intros Hs. unfold lockFilesOnHost.
  change (?f <$> [?x; ?y]) with [f x; f y]. cbv beta.
  rewrite !lockFile_in_lockPath by (done || discriminate). reflexivity.
Qed.

End WithHost.

(** The sample device under [force]: service [b] holds a lock file, and the
    call still reaches [fn]. *)
Lemma lock_tries_every_file_witness :
  ∃ t, trace (snd (takeTheLock 7 true (Sample.lockWorld Sample.heldByB [])))
       = [WriteLock 7; Readdir Sample.servicesDir] ++ t
       ∧ attempted t
         = [Sample.lockFile "a" "updates.lock";
            Sample.lockFile "a" "resin-updates.lock";
            Sample.lockFile "b" "updates.lock";
            Sample.lockFile "b" "resin-updates.lock"].
Proof.
  destruct (lock_tries_every_file (lockHost := Sample.lockHost) 7 true Sample.idle
              (Sample.lockWorld Sample.heldByB [])
              (snd (takeTheLock 7 true (Sample.lockWorld Sample.heldByB [])))
              ["a"; "b"]) as (t & Ht & Ha & _).
  - reflexivity.
  - vm_compute. reflexivity.
  - exists t. split; [exact Ht | exact Ha].
Defined.

Lemma lock_force_overrides_witness :
  ∃ w1, takeTheLock 7 true (Sample.lockWorld Sample.heldByB [])
        = (Resolved tt, w1)
        ∧ lock (Some 7) true Sample.idle (Sample.lockWorld Sample.heldByB [])
          = (Resolved tt, dispose 7 (emit Invoke w1)).
Proof.
  destruct (lock_force_overrides (lockHost := Sample.lockHost) 7 Sample.idle
              (Sample.lockWorld Sample.heldByB []) ["a"; "b"])
    as (w1 & rs & Ht & _ & _ & _ & Hlock).
  - intros p h e. simpl.
    destruct (bool_decide (p ∈ Sample.noParent _)); [by intros [= <-]|].
    rewrite bool_decide_eq_false_2; [done|].
    intros Hin%list_elem_of_filter. by destruct Hin.
  - reflexivity.
  - exists w1. split; [exact Ht | exact Hlock].
Defined.

Lemma lockFilesOnHost_in_lockPath_witness :
  lockFilesOnHost (lockHost := Sample.lockHost) 1658654 "main"
  = ["/mnt/root" +:+ lockPath 1658654 (Some "main") +:+ "/updates.lock";
     "/mnt/root" +:+ lockPath 1658654 (Some "main") +:+ "/resin-updates.lock"].
Proof.
  apply (lockFilesOnHost_in_lockPath (lockHost := Sample.lockHost) 1658654 "main").
  discriminate.
Defined.

End UpdateLockProps.

(** * More about [DeviceState]: scheduling of applies *)

Module DeviceStateProps.
Import DeviceState DeviceStateFacts.

Section WithCollaborators.
Context {validation : Validation} {collaborators : Collaborators}.

Lemma set_scheduledApply_twice (a b : option ScheduledApply) (s : State) :
  set_scheduledApply a (set_scheduledApply b s) = set_scheduledApply a s.
Proof. reflexivity. Qed.

(** Requests that arrive while an apply runs and another one is already
    scheduled. *)
Lemma triggerAll_scheduled (requests : list (bool * Z)) (force : bool) (delay : Z)
    (s : State) :
  applyInProgress s = true →
  scheduledApply s = Some (mkScheduled (Some force) (Some delay)) →
  triggerAll requests s =
  (Resolved tt,
   set_scheduledApply
     (Some (mkScheduled (Some (force || existsb fst requests))
                        (Some (foldl Z.max delay (snd <$> requests))))) s).
Proof.
  revert force delay s.
  induction requests as [|[f d] rest IH]; intros force delay s Hin Hs.
  - simpl. rewrite orb_false_r, <- Hs. by destruct s.
  - simpl. unfold triggerApplyTarget. rewrite Hin, Hs. simpl.
    rewrite (IH (force || f) (Z.max d delay)); try done.
    + rewrite set_scheduledApply_twice, orb_assoc, (Z.max_comm d delay). done.
    + simpl. by destruct force.
Qed.

(** X4.  While an apply is in progress and nothing is scheduled yet,
    requests that do not come from the API are folded into one scheduled
    apply: it is forced iff one of the requests was, and its delay is the
    largest of the requested delays.  No call throws, no timer is set and
    nothing else changes. *)
Theorem triggerApplyTarget_coalesces (force : bool) (delay : Z)
    (rest : list (bool * Z)) (s : State) :
  applyInProgress s = true →
  scheduledApply s = None →
  triggerAll ((force, delay) :: rest) s =
  (Resolved tt,
   set_scheduledApply
     (Some (mkScheduled (Some (force || existsb fst rest))
                        (Some (foldl Z.max delay (snd <$> rest))))) s).
Proof.
  intros Hin Hs. simpl. unfold triggerApplyTarget at 1. rewrite Hin, Hs. simpl.
  by rewrite (triggerAll_scheduled rest force delay).
Qed.

Lemma triggerApplyTarget_wellScheduled (force : option bool) (delay : option Z)
    (initial isFromApi : option bool) (s : State) :
  wellScheduled s →
  ∃ s', triggerApplyTarget force delay initial isFromApi s = (Resolved tt, s')
        ∧ wellScheduled s'.
Proof.
  unfold wellScheduled, triggerApplyTarget. intros Hw.
  destruct (applyInProgress s); [|by eexists].
  destruct (scheduledApply s) as [[f d]|] eqn:Hs; simpl in *.
  - destruct (default false isFromApi && cancelDelay s) eqn:Hapi.
    + eexists. split; [done|]. simpl. by eexists.
    + destruct Hw as [d' ->]. eexists. split; [done|]. simpl. by eexists.
  - eexists. split; [done|]. unfold wellScheduled.
    match goal with |- context [if ?b then _ else _] => destruct b end;
      simpl; by eexists.
Qed.

(** X5.  The scheduled apply always has a delay.  From a state where this
    holds - such as the initial one, where nothing is scheduled -
    [triggerApplyTarget] and the [finally] handler never throw, [applyError]
    only rethrows the error of an intermediate apply, and all three keep
    the property: the [InternalInconsistencyError] about a missing delay
    cannot be reached through these functions. *)
Theorem scheduled_delay_invariant (s : State) :
  wellScheduled s →
  (∀ force delay initial isFromApi,
     ∃ s', triggerApplyTarget force delay initial isFromApi s = (Resolved tt, s')
           ∧ wellScheduled s')
  ∧ (∃ s', applyFinished s = (Resolved tt, s') ∧ wellScheduled s')
  ∧ (∀ err force initial intermediate,
       wellScheduled (snd (applyError err force initial intermediate s))
       ∧ ∀ e, fst (applyError err force initial intermediate s) = Rejected e →
              e = err ∧ intermediate = Some true).
Proof.
  intros Hw. split; [|split].
  - intros. by apply triggerApplyTarget_wellScheduled.
  - unfold applyFinished.
    change (scheduledApply (reportCurrentState ∅ (set_applyInProgress false s)))
      with (scheduledApply s).
    destruct (scheduledApply s) as [sa|] eqn:Hs.
    + edestruct (triggerApplyTarget_wellScheduled (sa_force sa) (sa_delay sa)
                   None None
                   (reportCurrentState ∅ (set_applyInProgress false s)))
        as (s' & -> & _).
      { unfold wellScheduled in *.
        change (scheduledApply (reportCurrentState ∅ (set_applyInProgress false s)))
          with (scheduledApply s).
        by rewrite Hs in *. }
      by eexists.
    + eexists. split; [done|]. unfold wellScheduled.
      change (scheduledApply (reportCurrentState ∅ (set_applyInProgress false s)))
        with (scheduledApply s).
      by rewrite Hs.
  - intros err force initial intermediate. unfold applyError.
    destruct (default false intermediate) eqn:Hi.
    { split; [done|]. simpl. intros e [= <-]. split; [done|].
      by destruct intermediate as [[]|]. }
    set (s1 := reportCurrentState _ _).
    assert (scheduledApply s1 = scheduledApply s) as Hs1 by done.
    assert (wellScheduled s1) as Hw1.
    { unfold wellScheduled in *. by rewrite Hs1. }
    clear Hs1. clearbody s1.
    destruct (scheduledApply s1) as [sa|] eqn:Hs.
    + split; [|done]. unfold wellScheduled in *.
      destruct (isUpdatesLockedError err); simpl; by rewrite Hs in *.
    + set (s2 := if isUpdatesLockedError err then _ else _).
      assert (wellScheduled s2) as Hw2.
      { unfold wellScheduled, s2.
        destruct (isUpdatesLockedError err); simpl; by rewrite Hs. }
      destruct (triggerApplyTarget_wellScheduled force (Some (backoffDelay s1))
                  initial None s2 Hw2) as (s' & Heq & Hw').
      rewrite Heq. by split.
Qed.

(** X6.  The [finally] handler of an apply never throws.  It clears
    [applyInProgress], emits [change] without touching the reported fields,
    and, when an apply was scheduled meanwhile, starts it at once - the
    timer is set with the scheduled delay, the apply is marked in progress
    again - and empties the slot. *)
Theorem applyFinished_starts_scheduled (s : State) :
  ∃ s', applyFinished s = (Resolved tt, s')
        ∧ scheduledApply s' = None
        ∧ effects s' = effects s ++ EmitAsync "change" None ::
            match scheduledApply s with
            | Some sa => [SetTimeout (default 0 (sa_delay sa))]
            | None => []
            end
        ∧ applyInProgress s' = bool_decide (is_Some (scheduledApply s))
        ∧ failedUpdates s' = failedUpdates s
        ∧ currentVolatile s' = currentVolatile s.
Proof.
  unfold applyFinished.
  change (scheduledApply (reportCurrentState ∅ (set_applyInProgress false s)))
    with (scheduledApply s).
  destruct (scheduledApply s) as [sa|] eqn:Hs; unfold triggerApplyTarget; simpl.
  - eexists. split; [done|]. simpl. rewrite <- app_assoc.
    by rewrite (left_id_L ∅ (∪)).
  - eexists. split; [done|]. simpl. rewrite Hs.
    by rewrite (left_id_L ∅ (∪)).
Qed.

End WithCollaborators.

(** Three requests while an apply runs: one of them forced, the longest
    delay 5 s. *)
Lemma triggerApplyTarget_coalesces_witness :
  scheduledApply
    (snd (triggerAll (collaborators := Sample.collaborators)
            [(false, 1000); (true, 0); (false, 5000)]
            (Sample.deviceState (Sample.box false None None) 0 None true)))
  = Some (mkScheduled (Some true) (Some 5000)).
Proof.
  rewrite (triggerApplyTarget_coalesces (collaborators := Sample.collaborators)
             false 1000 [(true, 0); (false, 5000)]
             (Sample.deviceState (Sample.box false None None) 0 None true))
    by reflexivity.
  reflexivity.
Defined.

(** From the initial state a request of the API goes through. *)
Lemma scheduled_delay_invariant_witness :
  ∃ s', triggerApplyTarget (collaborators := Sample.collaborators)
          (Some true) None None (Some true)
          (Sample.deviceState (Sample.box false None None) 0 None false)
        = (Resolved tt, s')
        ∧ wellScheduled s'.
Proof.
  destruct (scheduled_delay_invariant (collaborators := Sample.collaborators)
              (Sample.deviceState (Sample.box false None None) 0 None false))
    as (Htrigger & _).
  - exact I.
  - exact (Htrigger (Some true) None None (Some true)).
Defined.

End DeviceStateProps.

(** * More about [V2Api]: how a service is named, what a service action
    touches, the listings *)

Module V2ApiProps.
Import V2Api V2ApiFacts.

Section WithHost.
Context {validation : Validation} {lockHost : UpdateLock.LockFileHost}
        {apiHost : ApiHost}.

(** X7.  [imageId] takes precedence.  The service-action handler reads
    only [imageId], [serviceName] and [force] from the body, and once the
    body has an [imageId] the [serviceName] is not looked at: two requests
    that agree on the application, the key, [force] and a non-null
    [imageId] are handled alike, whatever service names they carry. *)
Theorem imageId_takes_precedence (req req' : Request) (action : string)
    (w : ApiWorld) :
  params_appId req' = params_appId req →
  auth req' = auth req →
  prop (body req') "force" = prop (body req) "force" →
  prop (body req') "imageId" = prop (body req) "imageId" →
  isNullish (prop (body req) "imageId") = false →
  handleServiceAction req' action w = handleServiceAction req action w.
Proof.
  intros Hp Ha Hf Hi Hn. unfold handleServiceAction.
  rewrite Hp, Ha, Hf, Hi, Hn. reflexivity.
Qed.

(** X8.  A request that names no service, or none of the current
    application, touches nothing.  With the application found, a body
    without [imageId] and [serviceName] is passed to [next] as an error
    carrying the input-error message, and a body naming a service the
    application does not have is answered 404 with the service-not-found
    message; in both cases only the scope check has run: the volatile
    target is not written and no step is executed. *)
Theorem unnamed_service_untouched (req : Request) (action : string) (w : ApiWorld)
    (appId : Z) (apps : gmap Z App) (targetApp app : App) :
  checkInt (params_appId req) = Some appId → appId ≠ 0 →
  isScoped (auth req) [appId] = true →
  getCurrentApps (host w) = Resolved apps →
  getApp appId (host w) = Resolved targetApp →
  apps !! appId = Some app →
  named req (services app) = None →
  handleServiceAction req action w =
  (if isNullish (prop (body req) "imageId")
      && isNullish (prop (body req) "serviceName")
   then Next (PlainError v2ServiceEndpointInputErrorMessage)
   else Send 404 serviceNotFoundMessage,
   call (ScopeCheck [appId]) w).
Proof.
  intros Hint Hne Hscope Hcur Htgt Happ Hnamed. unfold handleServiceAction.
  rewrite (falsyAppId_false _ _ Hint Hne), Hint. simpl.
  rewrite Hscope. simpl.
  change (host (call (ScopeCheck [appId]) w)) with (host w).
  rewrite Hcur, Htgt, Happ. unfold named in Hnamed.
  destruct (isNullish (prop (body req) "imageId")) eqn:Himg; simpl in *.
  - destruct (isNullish (prop (body req) "serviceName")); [done|].
    by rewrite Hnamed.
  - by rewrite Hnamed.
Qed.



(** [_.keyBy('serviceName')] followed by [mapValues('containerId')] against
    [_.find]: with distinct names the map holds, under each name, the first
    service of that name. *)
Lemma keyBy_lookup (l : list Service.t) (m : gmap string (option string))
    (n : string) :
  NoDup (Service.serviceName <$> l) →
  foldl (λ m service,
           <[Service.serviceName service := Service.containerId service]> m) m l
    !! n
  = match List.find (λ s, bool_decide (Service.serviceName s = n)) l with
    | Some s => Some (Service.containerId s)
    | None => m !! n
    end.
Proof.
  revert m. induction l as [|s l IH]; intros m Hnd; [done|].
  apply NoDup_cons in Hnd as [Hs Hnd]. simpl. rewrite (IH _ Hnd).
  case_bool_decide as Hn.
  - destruct (List.find _ l) as [s'|] eqn:Hfind.
    + apply find_some in Hfind as [Hin Hs']. apply bool_decide_eq_true in Hs'.
      exfalso. apply Hs. rewrite Hn, <- Hs'.
      apply list_elem_of_fmap_2. by apply list_elem_of_In.
    + rewrite <- Hn. by rewrite lookup_insert_eq.
  - destruct (List.find _ l); [done|]. by rewrite lookup_insert_ne.
Qed.

(** X10.  [/v2/containerId] by name agrees with its listing when the
    in-scope services have distinct names: asking for the service [name]
    yields the container id the listing has under [name], and 503 exactly
    when the listing has no such name.  (The lookup takes the first service
    of a name and the listing keeps the last.) *)
Theorem containerId_consistent (req reqAll : Request) (h : UpdateLock.Host)
    (name : string) :
  NoDup (Service.serviceName <$>
           filter (λ service, isScoped (auth req) [Service.appId service])
                  (serviceManager_getAll h)) →
  auth reqAll = auth req →
  prop (query reqAll) "serviceName" = JsUndefined →
  prop (query reqAll) "service" = JsUndefined →
  prop (query req) "serviceName" = JsString name → name ≠ "" →
  ∃ byName,
    containerId reqAll h = AllContainers byName
    ∧ containerId req h =
        match byName !! name with
        | Some cid => OneContainer cid
        | None => NoSuchService
        end.
Proof.
  intros Hnd Ha Hq1 Hq2 Hq Hname. unfold containerId.
  rewrite Ha, Hq1, Hq2, Hq.
  assert (truthy (JsString name) = true) as ->.
  { destruct name as [|c name]; [done|]. reflexivity. }
  cbn [isNullish negb orb]. eexists. split; [reflexivity|].
  rewrite (keyBy_lookup _ ∅ name Hnd), lookup_empty.
  unfold findByServiceName. by destruct (List.find _ _).
Qed.

(** X11.  What [/v2/applications/state] shows for a service.  Every
    service entry stems from an image in the key's scope whose application
    is the in-scope application the entry is listed under, and bears that
    image's service name.  It carries the image's release; its status is
    that of the first running service with the image's id when that status
    is not empty, and the image's status otherwise; its progress is the
    image's download progress, except that a progress of 0 is shown as
    [null], so no entry ever shows 0. *)
Theorem applicationsState_service_entry (req : Request) (h : UpdateLock.Host)
    (appName serviceName : string) (e : AppEntry) (se : ServiceEntry) :
  applicationsState req h !! appName = Some e →
  ae_services e !! serviceName = Some se →
  se_downloadProgress se ≠ Some 0
  ∧ ∃ app img,
      app ∈ db_apps h
      ∧ isScoped (auth req) [db_appId app] = true
      ∧ db_name app = appName
      ∧ img ∈ images_getStatus h
      ∧ isScoped (auth req) [Image.appId img] = true
      ∧ Image.appId img = db_appId app
      ∧ Image.serviceName img = serviceName
      ∧ se_releaseId se = Image.releaseId img
      ∧ se_downloadProgress se
        = (if bool_decide (Image.downloadProgress img = Some 0) then None
           else Image.downloadProgress img)
      ∧ se_status se
        = Some match List.find (λ service,
                       bool_decide (Service.imageId service = Image.imageId img))
                     (serviceManager_getStatus h) ≫= Service.status with
               | Some st => if bool_decide (st = "") then Image.status img else st
               | None => Image.status img
               end.
Proof.
  unfold applicationsState.
  set (Q := λ (appName serviceName : string) (se : ServiceEntry),
         se_downloadProgress se ≠ Some 0
         ∧ ∃ app img,
             app ∈ db_apps h
             ∧ isScoped (auth req) [db_appId app] = true
             ∧ db_name app = appName
             ∧ img ∈ images_getStatus h
             ∧ isScoped (auth req) [Image.appId img] = true
             ∧ Image.appId img = db_appId app
             ∧ Image.serviceName img = serviceName
             ∧ se_releaseId se = Image.releaseId img
             ∧ se_downloadProgress se
               = (if bool_decide (Image.downloadProgress img = Some 0) then None
                  else Image.downloadProgress img)
             ∧ se_status se
               = Some match List.find (λ service,
                              bool_decide (Service.imageId service
                                           = Image.imageId img))
                            (serviceManager_getStatus h) ≫= Service.status with
                      | Some st =>
                          if bool_decide (st = "") then Image.status img else st
                      | None => Image.status img
                      end).
  set (P := λ response : gmap string AppEntry, ∀ appName e serviceName se,
         response !! appName = Some e →
         ae_services e !! serviceName = Some se → Q appName serviceName se).
  set (N := λ names : gmap Z string, ∀ id name,
         names !! id = Some name →
         ∃ app, app ∈ db_apps h ∧ isScoped (auth req) [db_appId app] = true
                ∧ db_appId app = id ∧ db_name app = name).
  destruct (foldl _ (∅, ∅) _) as [response appNameById] eqn:Hfold.
  assert (P response ∧ N appNameById) as [Hresponse Hnames].
  { change response with (fst (response, appNameById)).
    change appNameById with (snd (response, appNameById)) at 2.
    rewrite <- Hfold.
    apply (foldl_invariant
             (λ p : gmap string AppEntry * gmap Z string, P p.1 ∧ N p.2)).
    - split.
      + intros n e' sn se' Hl. simpl in Hl. by apply lookup_empty_Some in Hl.
      + intros id name Hl. simpl in Hl. by apply lookup_empty_Some in Hl.
    - intros [r names] app Happ [IH IHn]. simpl in *. split.
      + intros n e' sn se' Hl Hse.
        apply lookup_insert_Some in Hl as [[_ <-] | [_ Hl]];
          [|exact (IH _ _ _ _ Hl Hse)].
        simpl in Hse. by apply lookup_empty_Some in Hse.
      + intros id name Hl.
        apply lookup_insert_Some in Hl as [[<- <-] | [_ Hl]];
          [|exact (IHn _ _ Hl)].
        apply list_elem_of_filter in Happ as [Hs Happ].
        exists app. split; [done|]. split; [by apply Is_true_true | done]. }
  intros Hl Hse. revert appName e serviceName se Hl Hse. fold P.
  apply foldl_invariant; [done|].
  intros r img Himg IH n e' sn se' Hl Hse.
  apply list_elem_of_filter in Himg as [Hscoped Himg].
  destruct (appNameById !! Image.appId img) as [name|] eqn:Hname;
    [|exact (IH _ _ _ _ Hl Hse)].
  apply lookup_alter_Some in Hl as [(<- & e0 & He0 & ->) | [_ Hl]];
    [|exact (IH _ _ _ _ Hl Hse)].
  simpl in Hse.
  apply lookup_insert_Some in Hse as [[<- <-] | [_ Hse]];
    [|exact (IH _ _ _ _ He0 Hse)].
  destruct (Hnames _ _ Hname) as (app & Happ & Happs & Hid & Hnm).
  split.
  { simpl. by destruct (Image.downloadProgress img) as [[| |]|]. }
  exists app, img. split; [done|]. split; [done|]. split; [done|].
  split; [done|]. split; [by apply Is_true_true|]. split; [done|].
  split; [done|]. split; [done|]. split.
  { simpl. by destruct (Image.downloadProgress img) as [[| |]|]. }
  simpl. destruct (List.find _ _) as [svc|]; simpl; [|done].
  destruct (Service.status svc) as [st|]; [|done].
  by case_bool_decide.
Qed.

(** X12.  [/v2/state/status] reports one application.  The containers and
    images in the reply all belong to the same application; when there are
    in-scope services it is the application of the first of them, that
    service's container is in the reply and [release] is the commit of
    that application. *)
Theorem stateStatus_one_application (req : Request) (h : UpdateLock.Host) :
  (∀ c c', c ∈ containers (stateStatus req h) →
           c' ∈ containers (stateStatus req h) → cs_appId c = cs_appId c')
  ∧ (∀ c i, c ∈ containers (stateStatus req h) →
            i ∈ images (stateStatus req h) → cs_appId c = is_appId i)
  ∧ (∀ i i', i ∈ images (stateStatus req h) →
             i' ∈ images (stateStatus req h) → is_appId i = is_appId i')
  ∧ (∀ svc rest,
       filter (λ service, isScoped (auth req) [Service.appId service])
              (serviceManager_getAll h) = svc :: rest →
       pickContainer svc ∈ containers (stateStatus req h)
       ∧ (∀ c, c ∈ containers (stateStatus req h) →
               cs_appId c = Service.appId svc)
       ∧ release (stateStatus req h)
         = getCommitForApp (Some (Service.appId svc)) h).
Proof.
  unfold stateStatus. cbn [containers images release].
  set (appId := head _).
  assert (∀ c, c ∈ filter (λ c, Some (cs_appId c) = appId)
                     (pickContainer <$>
                        filter (λ service, isScoped (auth req) [Service.appId service])
                               (serviceManager_getAll h)) →
               Some (cs_appId c) = appId) as Hc.
  { intros c Hin. by apply list_elem_of_filter in Hin as [? _]. }
  assert (∀ i, i ∈ filter (λ i, Some (is_appId i) = appId)
                     (pickImage <$>
                        filter (λ img, isScoped (auth req) [Image.appId img])
                               (images_getStatus h)) →
               Some (is_appId i) = appId) as Hi.
  { intros i Hin. by apply list_elem_of_filter in Hin as [? _]. }
  split; [|split; [|split]].
  - intros c c' H1 H2. apply Hc in H1, H2. congruence.
  - intros c i H1 H2. apply Hc in H1. apply Hi in H2. congruence.
  - intros i i' H1 H2. apply Hi in H1, H2. congruence.
  - intros svc rest Hscoped.
    assert (appId = Some (Service.appId svc)) as Happ.
    { unfold appId. by rewrite Hscoped. }
    split; [|split].
    + apply list_elem_of_filter. split; [by rewrite Happ|].
      rewrite Hscoped. apply list_elem_of_here.
    + intros c Hin. apply Hc in Hin. congruence.
    + by rewrite Happ.
Qed.

Lemma foldl_add_bounds (lo hi a : Z) (l : list Z) :
  Forall (λ p, lo ≤ p ≤ hi) l →
  a + lo * Z.of_nat (length l) ≤ foldl Z.add a l
  ∧ foldl Z.add a l ≤ a + hi * Z.of_nat (length l).
Proof.
  revert a. induction l as [|p l IH]; intros a Hall; simpl length; simpl foldl.
  - lia.
  - apply Forall_cons in Hall as [Hp Hall].
    destruct (IH (a + p) Hall). rewrite Nat2Z.inj_succ. lia.
Qed.

Lemma foldl_add_sum (a : Z) (l : list Z) :
  foldl Z.add a l = a + foldr Z.add 0 l.
Proof.
  revert a. induction l as [|p l IH]; intros a; simpl; [lia|].
  rewrite IH. lia.
Qed.

(** X13.  The overall download progress of [/v2/state/status] is [null]
    exactly when no in-scope image reports a progress; otherwise it is the
    mean of the values the in-scope images report - their sum divided by
    their number - and so lies between the smallest and the largest of
    them: with every progress between [lo] and [hi], so is the overall
    one. *)
Theorem stateStatus_progress_bounds (req : Request) (h : UpdateLock.Host)
    (lo hi : Z) :
  (∀ img p, img ∈ images_getStatus h →
            isScoped (auth req) [Image.appId img] = true →
            Image.downloadProgress img = Some p → lo ≤ p ≤ hi) →
  match overallDownloadProgress (stateStatus req h) with
  | Some q =>
      (inject_Z lo <= q)%Q ∧ (q <= inject_Z hi)%Q
      ∧ (∃ img, img ∈ images_getStatus h
                ∧ isScoped (auth req) [Image.appId img] = true
                ∧ is_Some (Image.downloadProgress img))
      ∧ ∃ reported,
          reported
          = omap Image.downloadProgress
              (filter (λ img, isScoped (auth req) [Image.appId img])
                      (images_getStatus h))
          ∧ reported ≠ []
          ∧ q = (inject_Z (foldr Z.add 0%Z reported)
                 / inject_Z (Z.of_nat (length reported)))%Q
  | None =>
      ∀ img, img ∈ images_getStatus h →
             isScoped (auth req) [Image.appId img] = true →
             Image.downloadProgress img = None
  end.
Proof.
  intros Hbounds. unfold stateStatus. cbn [overallDownloadProgress].
  set (scoped := filter _ (images_getStatus h)).
  set (ps := omap Image.downloadProgress scoped).
  assert (Forall (λ p, lo ≤ p ≤ hi) ps) as Hall.
  { apply Forall_forall. intros p Hp.
    apply list_elem_of_omap in Hp as (img & Himg & Hp).
    apply list_elem_of_filter in Himg as [Hs Himg].
    apply (Hbounds img p); [done | by apply Is_true_true | done]. }
  destruct (0 <? Z.of_nat (length ps)) eqn:Hlen.
  - apply Z.ltb_lt in Hlen.
    destruct (foldl_add_bounds lo hi 0 ps Hall) as [Hlo Hhi].
    assert (0 < inject_Z (Z.of_nat (length ps)))%Q as Hpos.
    { change 0%Q with (inject_Z 0). by rewrite <- Zlt_Qlt. }
    split; [|split; [|split]].
    + apply Qle_shift_div_l; [done|].
      rewrite <- inject_Z_mult, <- Zle_Qle. lia.
    + apply Qle_shift_div_r; [done|].
      rewrite <- inject_Z_mult, <- Zle_Qle. lia.
    + destruct ps as [|p ps'] eqn:Hps; [simpl in Hlen; lia|].
      assert (p ∈ omap Image.downloadProgress scoped) as Hp.
      { fold ps. rewrite Hps. apply list_elem_of_here. }
      apply list_elem_of_omap in Hp as (img & Himg & Hp).
      apply list_elem_of_filter in Himg as [Hs Himg].
      exists img. split; [done|]. split; [by apply Is_true_true | by eexists].
    + exists ps. split; [done|]. split.
      * intros Hnil. rewrite Hnil in Hlen. simpl in Hlen. lia.
      * by rewrite foldl_add_sum.
  - apply Z.ltb_ge in Hlen.
    assert (ps = []) as Hnil.
    { destruct ps; [done | simpl in Hlen; lia]. }
    intros img Himg Hs.
    destruct (Image.downloadProgress img) as [p|] eqn:Hp; [|done].
    assert (p ∈ ps) as Hin.
    { apply list_elem_of_omap. exists img. split; [|done].
      apply list_elem_of_filter. split; [by apply Is_true_true | done]. }
    rewrite Hnil in Hin. by apply elem_of_nil in Hin.
Qed.

End WithHost.

(** A restart that names the image of [main] and a service that does not
    exist is a restart of [main]. *)
Lemma imageId_takes_precedence_witness :
  fst (handleServiceAction (validation := Sample.validation)
         (apiHost := Sample.apiHost)
         (Sample.request "1658654"
            (JsObject [("imageId", JsNumber 2615279);
                       ("serviceName", JsString "nope")]) 1658654)
         "restart" (Sample.apiWorld (Sample.testDevice [] None)))
  = Send 200 "OK".
Proof.
  rewrite (imageId_takes_precedence (validation := Sample.validation)
             (apiHost := Sample.apiHost)
             (Sample.request "1658654"
                (JsObject [("imageId", JsNumber 2615279)]) 1658654)
             (Sample.request "1658654"
                (JsObject [("imageId", JsNumber 2615279);
                           ("serviceName", JsString "nope")]) 1658654)
             "restart" (Sample.apiWorld (Sample.testDevice [] None)));
    reflexivity.
Defined.

Lemma unnamed_service_untouched_witness :
  handleServiceAction (validation := Sample.validation)
    (apiHost := Sample.apiHost)
    (Sample.request "1658654" (JsObject [("serviceName", JsString "nope")])
                    1658654)
    "stop" (Sample.apiWorld (Sample.testDevice [] None))
  = (Send 404 "Service not found",
     call (ScopeCheck [1658654]) (Sample.apiWorld (Sample.testDevice [] None))).
Proof.
  rewrite (unnamed_service_untouched (validation := Sample.validation)
             (apiHost := Sample.apiHost)
             (Sample.request "1658654"
                (JsObject [("serviceName", JsString "nope")]) 1658654)
             "stop" (Sample.apiWorld (Sample.testDevice [] None)) 1658654
             {[ 1658654 := mkApp [Sample.main] ["data"] ]}
             (mkApp [Sample.main] ["data"]) (mkApp [Sample.main] ["data"]));
    try reflexivity.
  discriminate.
Defined.


Lemma containerId_consistent_witness :
  containerId (apiHost := Sample.apiHost)
    (Sample.query [("serviceName", JsString "main")] (Apps [1658654]))
    (Sample.testDevice [] None)
  = OneContainer (Some "abc123").
Proof.
  destruct (containerId_consistent (apiHost := Sample.apiHost)
              (Sample.query [("serviceName", JsString "main")] (Apps [1658654]))
              (Sample.query [] (Apps [1658654]))
              (Sample.testDevice [] None) "main")
    as (byName & Hall & Hone).
  - vm_compute. apply NoDup_singleton.
  - reflexivity.
  - reflexivity.
  - reflexivity.
  - reflexivity.
  - discriminate.
  - vm_compute in Hall. injection Hall as <-. exact Hone.
Defined.

(** The image of [other] is at 0 percent: its entry shows no progress. *)
Lemma applicationsState_service_entry_witness :
  ∃ app img,
    app ∈ Sample.dbApps Sample.fetchingDevice
    ∧ db_name app = "test-app2"
    ∧ img ∈ Sample.allImages Sample.fetchingDevice
    ∧ Image.appId img = db_appId app
    ∧ Image.serviceName img = "other"
    ∧ Image.releaseId img = 1233
    ∧ None = (if bool_decide (Image.downloadProgress img = Some 0) then None
              else Image.downloadProgress img).
Proof.
  destruct (applicationsState_service_entry (apiHost := Sample.apiHost)
              (Sample.query [] AllApps) Sample.fetchingDevice
              "test-app2" "other"
              (mkAppEntry 222222 "abcdef3"
                 {[ "other" := mkServiceEntry (Some "Running") 1233 None ]})
              (mkServiceEntry (Some "Running") 1233 None))
    as (_ & app & img & Happ & _ & Hname & Hin & _ & Hid & Hsvc & Hrel & Hprog & _).
  - vm_compute. reflexivity.
  - vm_compute. reflexivity.
  - exists app, img. split; [exact Happ|]. split; [exact Hname|].
    split; [exact Hin|]. split; [exact Hid|]. split; [exact Hsvc|].
    split; [symmetry; exact Hrel | exact Hprog].
Defined.

(** Two images on their way, at 40 and at 0 percent: 20 overall. *)
Lemma stateStatus_progress_bounds_witness :
  match overallDownloadProgress
          (stateStatus (apiHost := Sample.apiHost) (Sample.query [] AllApps)
                       Sample.fetchingDevice) with
  | Some q => (inject_Z 0 <= q)%Q ∧ (q <= inject_Z 100)%Q
              ∧ q = (inject_Z 40 / inject_Z 2)%Q
  | None => False
  end.
Proof.
  pose proof (stateStatus_progress_bounds (apiHost := Sample.apiHost)
                (Sample.query [] AllApps) Sample.fetchingDevice 0 100) as H.
  destruct (overallDownloadProgress _) as [q|] eqn:Hq.
  - destruct H as (Hlo & Hhi & _ & ps & Hps & _ & Hmean).
    + intros img p Hin _ Hp. simpl in Hin.
      apply elem_of_cons in Hin as [-> | Hin];
        [|apply list_elem_of_singleton in Hin as ->];
        simpl in Hp; injection Hp as <-; lia.
    + split; [exact Hlo|]. split; [exact Hhi|].
      rewrite Hmean, Hps. reflexivity.
  - vm_compute in Hq. discriminate Hq.
Defined.

End V2ApiProps.

(** * More about [DeviceState]: steps, status, the apply cycle *)

Module ApplyProps.
Import DeviceState.

Section Applying.
Context {validation : Validation} {collaborators : Collaborators}
        {surroundings : Surroundings}.

Lemma reboot_shuttingDown (force skipLock : option bool) (s s' : State) :
  reboot force skipLock s = (Resolved tt, s') → shuttingDown s' = true.
Proof.
  unfold reboot.
  destruct (applicationManager_stopAll _ _ _) as [[[]|e] x]; [|done].
  destruct (dbus_reboot _) as [[[]|e] x']; [|done].
  by intros [= <-].
Qed.

Lemma shutdown_shuttingDown (force skipLock : option bool) (s s' : State) :
  shutdown force skipLock s = (Resolved tt, s') → shuttingDown s' = true.
Proof.
  unfold shutdown.
  destruct (applicationManager_stopAll _ _ _) as [[[]|e] x]; [|done].
  destruct (dbus_shutdown _) as [[[]|e] x']; [|done].
  by intros [= <-].
Qed.

Lemma applySteps_shuttingDown (steps : list Step) (force initial skipLock : bool)
    (s : State) :
  shuttingDown s = true → applySteps steps force initial skipLock s = (Resolved tt, s).
Proof.
  intros Hs. unfold applySteps. by rewrite Hs.
Qed.

(** X14.  Once a reboot or a shutdown has gone through, no step is applied
    any more: [applyStep] returns at once, without an event and without a
    call to the outside, and so does every step of a cycle that is still
    running. *)
Theorem no_step_after_shutdown (force skipLock : option bool) (s s' : State) :
  reboot force skipLock s = (Resolved tt, s')
  ∨ shutdown force skipLock s = (Resolved tt, s') →
  (∀ step f i k, applyStep step f i k s' = (Resolved tt, s'))
  ∧ (∀ steps f i k, applySteps steps f i k s' = (Resolved tt, s')).
Proof.
  intros Hdown.
  assert (shuttingDown s' = true) as Hs.
  { destruct Hdown as [H|H];
      [by eapply reboot_shuttingDown | by eapply shutdown_shuttingDown]. }
  split.
  - intros. unfold applyStep. by rewrite Hs.
  - intros. by apply applySteps_shuttingDown.
Qed.

(** X15.  A step whose action nobody claims - not the device
    configuration, not the application manager, and neither [reboot] nor
    [shutdown] - makes no call to the outside.  [noop] resolves and emits
    [step-completed]; any other action is rejected with
    'Invalid action <action>', and [step-error] is emitted with that
    error. *)
Theorem applyStep_unclaimed_action (step : Step) (force initial skipLock : option bool)
    (s : State) :
  shuttingDown s = false →
  deviceConfig_isValidAction (action step) = false →
  action step ∉ applicationManager_validActions →
  action step ≠ "reboot" → action step ≠ "shutdown" →
  applyStep step force initial skipLock s =
  if bool_decide (action step = "noop")
  then (Resolved tt, effect (EmitAsync "step-completed" None) s)
  else (Rejected (PlainError ("Invalid action " +:+ action step)),
        effect (EmitAsync "step-error"
                  (Some (PlainError ("Invalid action " +:+ action step)))) s).
Proof.
  intros Hs Hc Ha Hr Hd. unfold applyStep, executeStepAction.
  rewrite Hs, Hc.
  rewrite (bool_decide_eq_false_2 _ Ha), (bool_decide_eq_false_2 _ Hr),
    (bool_decide_eq_false_2 _ Hd).
  by case_bool_decide.
Qed.

(** What [getStatus] puts into [local]. *)
Lemma getStatus_local (s : State) (st : DeviceStatus) (k : string) :
  getStatus s = Resolved st →
  local st !! "apps" = None
  ∧ (k ≠ "apps" → k ≠ "is_on__commit" → local st !! k = currentVolatile s !! k)
  ∧ (applyInProgress s = true →
     local st !! "is_on__commit" = currentVolatile s !! "is_on__commit")
  ∧ ∃ dependent,
      applicationManager_getStatus (ext s) = Resolved (local_apps st, dependent).
Proof.
  unfold getStatus.
  destruct (applicationManager_getStatus (ext s)) as [[apps dep]|e]; [|done].
  simpl.
  assert (∀ c, (<["is_on__commit" := JsString c]>
                  (delete "apps" (currentVolatile s)) : gmap string JsValue)
               !! "apps" = None) as Hno.
  { intros c. rewrite lookup_insert_ne by done. apply lookup_delete_eq. }
  destruct (head apps) as [[appId app]|].
  - destruct (commitStore_getCommitForApp appId (ext s)) as [[c|]|e]; simpl;
      [|intros [= <-]; simpl|done].
    + destruct (applyInProgress s) eqn:Hin; intros [= <-]; simpl.
      * split; [apply lookup_delete_eq|]. split.
        { intros. by rewrite lookup_delete_ne. }
        split; [intros _; by rewrite lookup_delete_ne | by eexists].
      * split; [apply Hno|]. split.
        { intros. rewrite lookup_insert_ne by done. by rewrite lookup_delete_ne. }
        split; [done | by eexists].
    + split; [apply lookup_delete_eq|]. split.
      { intros. by rewrite lookup_delete_ne. }
      split; [intros _; by rewrite lookup_delete_ne | by eexists].
  - intros [= <-]; simpl. split; [apply lookup_delete_eq|]. split.
    { intros. by rewrite lookup_delete_ne. }
    split; [intros _; by rewrite lookup_delete_ne | by eexists].
Qed.

(** X16.  What was reported is what the status shows.  After
    [reportCurrentState(newState)], [getStatus] has every field of
    [newState] in [local] with the reported value - except [apps], which
    always is what the application manager reports, and [is_on__commit],
    which the commit store overrides when no apply is in progress. *)
Theorem reported_fields_in_status (newState : gmap string JsValue) (s : State)
    (st : DeviceStatus) (k : string) (v : JsValue) :
  getStatus (reportCurrentState newState s) = Resolved st →
  newState !! k = Some v →
  k ≠ "apps" → k ≠ "is_on__commit" →
  local st !! k = Some v
  ∧ local st !! "apps" = None
  ∧ ∃ dependent,
      applicationManager_getStatus (ext s) = Resolved (local_apps st, dependent).
Proof.
  intros Hst Hk Hna Hnc.
  destruct (getStatus_local _ _ k Hst) as (Happs & Hother & _ & Hdep).
  split; [|split; [done|exact Hdep]].
  rewrite (Hother Hna Hnc). simpl.
  apply lookup_union_Some_raw. by left.
Qed.

Lemma running_shown_idle (v : JsValue) : shownStatus v ≠ JsString "Running".
Proof.
  unfold shownStatus. intros H. destruct v as [| | | |s| | |]; try discriminate H.
  do 8 (destruct s as [|[[] [] [] [] [] [] [] []] s]; simpl in H;
        try (by simplify_eq)).
Qed.

(** X17.  [GET /v1/device] passes on nothing but its eight fields of the
    reported state, with the reported values, and [commit], [status] and
    [download_progress]: a secret that was reported, such as [api_secret],
    is not in the reply.  A [status] is never 'Running' (it is shown as
    'Idle'), and while an apply is in progress the [commit] is not taken
    from the commit store. *)
Theorem getDevice_fields (s : State) (k : string) (v : JsValue) :
  (getDevice s).1 = 200 →
  (getDevice s).2 !! k = Some v →
  k ∈ deviceFields ++ ["commit"; "status"; "download_progress"]
  ∧ (k ∈ deviceFields → currentVolatile s !! k = Some v)
  ∧ (k = "status" → v ≠ JsString "Running")
  ∧ (k = "commit" → applyInProgress s = true →
     currentVolatile s !! "is_on__commit" = Some v).
Proof.
  unfold getDevice.
  destruct (getStatus s) as [st|e] eqn:Hst; [|done]. intros _. cbn [fst snd].
  set (picked := pick deviceFields (local st)).
  assert (∀ k v, picked !! k = Some v →
            k ∈ deviceFields ∧ currentVolatile s !! k = Some v) as Hpicked.
  { intros k' v' Hl. apply map_lookup_filter_Some in Hl as [Hl Hin].
    simpl in Hin. split; [done|].
    destruct (getStatus_local _ _ k' Hst) as (_ & Hother & _).
    rewrite <- Hother; [done| |].
    - intros ->. revert Hin. unfold deviceFields. not_in_list.
    - intros ->. revert Hin. unfold deviceFields. not_in_list. }
  set (committed := match local st !! "is_on__commit" with
                    | Some commit => if isNullish commit then picked
                                     else <["commit" := commit]> picked
                    | None => picked
                    end).
  assert (∀ k v, committed !! k = Some v →
            (k ∈ deviceFields ∧ currentVolatile s !! k = Some v)
            ∨ (k = "commit" ∧ local st !! "is_on__commit" = Some v)) as Hcommitted.
  { intros k' v' Hl. unfold committed in Hl.
    destruct (local st !! "is_on__commit") as [c|] eqn:Hc;
      [|left; by apply Hpicked].
    destruct (isNullish c); [left; by apply Hpicked|].
    apply lookup_insert_Some in Hl as [[<- <-] | [_ Hl]];
      [by right | left; by apply Hpicked]. }
  assert (∀ k, k ∈ deviceFields →
            k ≠ "commit" ∧ k ≠ "status" ∧ k ≠ "download_progress") as Hfresh.
  { intros k' Hin. repeat split; intros ->; revert Hin; unfold deviceFields;
      not_in_list. }
  intros Hl.
  assert ((k ∈ deviceFields ∧ currentVolatile s !! k = Some v)
          ∨ (k = "commit" ∧ local st !! "is_on__commit" = Some v)
          ∨ (k = "status" ∧ v ≠ JsString "Running")
          ∨ k = "download_progress") as Hcases.
  { destruct (head (local_apps st) ≫= _) as [service|];
      [|destruct (Hcommitted _ _ Hl); auto].
    apply lookup_insert_Some in Hl as [[<- <-] | [_ Hl]]; [auto|].
    apply lookup_insert_Some in Hl as [[<- <-] | [_ Hl]];
      [|destruct (Hcommitted _ _ Hl); auto].
    right. right. left. split; [done | apply running_shown_idle]. }
  destruct Hcases as [[Hin Hv] | [[-> Hv] | [[-> Hv] | ->]]].
  - split; [apply elem_of_app; by left|]. split; [done|].
    destruct (Hfresh _ Hin) as (? & ? & ?). split; by intros ->.
  - split; [apply elem_of_app; right; in_list|].
    split; [intros Hin; by destruct (Hfresh _ Hin) as (? & _)|].
    split; [done|]. intros _ Happly.
    destruct (getStatus_local _ _ "commit" Hst) as (_ & _ & Hc & _).
    by rewrite <- (Hc Happly).
  - split; [apply elem_of_app; right; in_list|].
    split; [intros Hin; by destruct (Hfresh _ Hin) as (_ & ? & _)|].
    split; [done|]. done.
  - split; [apply elem_of_app; right; in_list|].
    split; [intros Hin; by destruct (Hfresh _ Hin) as (_ & _ & ?)|].
    split; done.
Qed.

(** X18.  A cycle that finds nothing left to do ends the apply, whatever
    the next cycle would be.  ['apply-target-state-end'] is emitted without
    an error; for an apply that is not intermediate the failure count is
    reset to 0, the time spent fetching is reset, the time of the last
    successful update is taken, and [update_failed], [update_pending] and
    [update_downloaded] are reported false.  An intermediate apply changes
    none of these.  No step is applied and no apply is scheduled. *)
Theorem applyTarget_target_reached (again : Again)
    (force initial intermediate skipLock : bool) (nextDelay retryCount : Z)
    (l : Loop) (x : Ext) (backoff : bool) :
  applicationManager_localModeSwitchCompletion (ext (core l)) = (Resolved tt, x) →
  inferSteps initial intermediate (with_core (set_ext x (core l)) l)
    = Resolved (backoff, []) →
  ∃ l',
    applyTarget again force initial intermediate skipLock nextDelay retryCount l
      = (Resolved tt, l')
    ∧ intermediateTarget l' = intermediateTarget l
    ∧ scheduledApply (core l') = scheduledApply (core l)
    ∧ applyInProgress (core l') = applyInProgress (core l)
    ∧ if intermediate
      then core l' = effect (EmitAsync "apply-target-state-end" None)
                            (set_ext x (core l))
           ∧ lastSuccessfulUpdate l' = lastSuccessfulUpdate l
      else failedUpdates (core l') = 0
           ∧ ext (core l') = applicationManager_resetTimeSpentFetching x
           ∧ lastSuccessfulUpdate l'
             = Some (Date_now (applicationManager_resetTimeSpentFetching x))
           ∧ effects (core l') = effects (core l) ++
               [EmitAsync "apply-target-state-end" None;
                Log LevelDebug "Finished applying target state";
                EmitAsync "change" None]
           ∧ currentVolatile (core l') !! "update_failed" = Some (JsBool false)
           ∧ currentVolatile (core l') !! "update_pending" = Some (JsBool false)
           ∧ currentVolatile (core l') !! "update_downloaded"
             = Some (JsBool false).
Proof.
  intros Hswitch Hsteps. unfold applyTarget, applyCycle.
  rewrite Hswitch, Hsteps. destruct intermediate.
  - eexists. split; [reflexivity|]. repeat split; reflexivity.
  - eexists. split; [reflexivity|]. cbn.
    repeat split; try done.
    + by rewrite <- !app_assoc.
    + apply lookup_union_Some_raw. left. reflexivity.
    + apply lookup_union_Some_raw. left. reflexivity.
    + apply lookup_union_Some_raw. left. reflexivity.
Qed.

(** X19.  A cycle whose steps fail does not start the next cycle: the
    rejection of [Promise.all] - that of the step itself when there is one
    step, of whichever step fails first when there are several - goes to
    [applyError], on the state of the module at that moment.  An
    [UpdatesLockedError] is passed on as it is; any other error is replaced
    by an error whose message starts with
    'Failed to apply state transition steps. ', continues with the
    original message and ends with the actions of the cycle's steps.  For
    an apply that is not intermediate [update_pending] has been reported
    before the steps were started. *)
Theorem applyTarget_step_failure (again : Again) (force initial skipLock : bool)
    (nextDelay retryCount : Z) (l : Loop) (x : Ext) (backoff : bool)
    (steps : list Step) (e : JsError) (s1 : State) :
  applicationManager_localModeSwitchCompletion (ext (core l)) = (Resolved tt, x) →
  inferSteps initial false (with_core (set_ext x (core l)) l)
    = Resolved (backoff, steps) →
  applySteps steps force initial skipLock
    (reportCurrentState {[ "update_pending" := JsBool true ]} (set_ext x (core l)))
    = (Rejected e, s1) →
  ∃ err,
    applyTarget again force initial false skipLock nextDelay retryCount l
    = (let '(r, s2) := applyError err (Some force) (Some initial) (Some false) s1 in
       (r, with_core s2 l))
    ∧ isUpdatesLockedError err = isUpdatesLockedError e
    ∧ (isUpdatesLockedError e = true → err = e)
    ∧ (isUpdatesLockedError e = false →
       err = PlainError ("Failed to apply state transition steps. "
                         +:+ message e +:+ " Steps:"
                         +:+ stringifyNames (action <$> steps))).
Proof.
  intros Hswitch Hsteps Hfail. unfold applyTarget, applyCycle.
  rewrite Hswitch, Hsteps.
  destruct steps as [|step rest].
  { unfold applySteps in Hfail. by destruct (shuttingDown _). }
  cbn [with_core core]. rewrite Hfail.
  destruct (pace _ _ _) as [d c].
  destruct (isUpdatesLockedError e) eqn:He.
  - exists e. split; [|repeat split; first [done | by rewrite ?He]].
    cbn [core]. by destruct (applyError _ _ _ _ _).
  - exists (PlainError ("Failed to apply state transition steps. "
                        +:+ message e +:+ " Steps:"
                        +:+ stringifyNames (action <$> step :: rest))).
    split; [|repeat split; first [done | by rewrite ?He]].
    cbn [core]. by destruct (applyError _ _ _ _ _).
Qed.

(** X20.  A request of the API cuts a pending delay short.  An apply is
    triggered with some delay; while its timer runs, a request marked as
    coming from the API replaces whatever is scheduled and calls
    [cancelDelay]; the cancelled chain then skips [applyTarget] and its
    [finally] handler starts the requested apply at once, with delay 0. *)
Theorem api_request_cuts_delay (run : Loop → Outcome unit * Loop)
    (force : option bool) (delay : option Z) (initial apiForce : option bool)
    (l : Loop) :
  applyInProgress (core l) = false →
  ∃ s1 s2 l3,
    triggerApplyTarget force delay initial None (core l) = (Resolved tt, s1)
    ∧ triggerApplyTarget apiForce None None (Some true) s1 = (Resolved tt, s2)
    ∧ afterDelay true run (with_core s2 l) = (Resolved tt, l3)
    ∧ effects (core l3) = effects (core l) ++
        [SetTimeout (default 0 delay); CallCancelDelay;
         Log LevelInfo "Skipping applyTarget because of a cancellation";
         EmitAsync "change" None; SetTimeout 0]
    ∧ applyInProgress (core l3) = true
    ∧ scheduledApply (core l3) = None
    ∧ applyCancelled (core l3) = false.
Proof.
  intros Hidle. unfold triggerApplyTarget at 1. rewrite Hidle.
  eexists. eexists. eexists. split; [reflexivity|].
  unfold triggerApplyTarget at 1. cbn.
  split.
  { by destruct (scheduledApply (core l)). }
  unfold afterDelay. cbn. split; [reflexivity|]. cbn.
  by rewrite <- !app_assoc.
Qed.

Lemma with_core_twice (s s' : State) (l : Loop) :
  with_core s' (with_core s l) = with_core s' l.
Proof. reflexivity. Qed.

(** A cycle of no-ops that calls for backing off: the steps having
    resolved, [applyTarget] waits [min(2^(retryCount+1) * 1000, 600000)]
    milliseconds and calls itself with that delay and the count raised by
    one; what that call resolves with is its own result. *)
Lemma applyTarget_noop_cycle (again : Again)
    (force initial intermediate skipLock : bool) (nextDelay retryCount : Z)
    (l l' : Loop) (x : Ext) (steps : list Step) (s : State) :
  applicationManager_localModeSwitchCompletion (ext (core l)) = (Resolved tt, x) →
  inferSteps initial intermediate (with_core (set_ext x (core l)) l)
    = Resolved (true, steps) →
  steps ≠ [] → allNoop steps = true →
  applySteps steps force initial skipLock
    (if intermediate then set_ext x (core l)
     else reportCurrentState {[ "update_pending" := JsBool true ]}
                             (set_ext x (core l)))
    = (Resolved tt, s) →
  again force initial intermediate skipLock
        (Z.min (2 ^ (retryCount + 1) * 1000) 600000) (retryCount + 1)
        (with_core
           (set_ext (Bluebird_delay (Z.min (2 ^ (retryCount + 1) * 1000) 600000)
                                    (ext s)) s) l)
    = (Resolved tt, l') →
  applyTarget again force initial intermediate skipLock nextDelay retryCount l
    = (Resolved tt, l').
Proof.
  intros Hswitch Hsteps Hne Hnoop Hrun Hnext. unfold applyTarget, applyCycle.
  rewrite Hswitch, Hsteps.
  destruct steps as [|step rest]; [done|].
  cbn [with_core core]. rewrite Hrun. unfold pace. rewrite Hnoop.
  change (60 * 10 * 1000) with 600000.
  by rewrite with_core_twice, Hnext.
Qed.

(** X21.  The pause between cycles of no-ops doubles, up to ten minutes.
    Let [quiet] hold of the module in a state in which a cycle of
    [applyTarget] finds nothing but no-ops coming from the device
    configuration and its steps resolve, and let it hold again after any
    pause that follows such a cycle.  Then from a quiet state and a retry
    count [retryCount], [cycles] calls of [applyTarget], each made by the
    one before, are such cycles, and the last of them waits
    [min(2^(retryCount+cycles) * 1000, 600000)] milliseconds and then
    makes the next call with that delay and the count
    [retryCount + cycles]: whatever that call resolves with is the result
    of the first.  The pause lies between 2 s and ten minutes, and is ten
    minutes once the count has reached ten. *)
Theorem noop_backoff (force initial intermediate skipLock : bool)
    (quiet : Loop → Prop) (cycles : nat) (nextDelay retryCount : Z) (l : Loop) :
  (∀ l, quiet l →
     ∃ x steps s,
       applicationManager_localModeSwitchCompletion (ext (core l))
         = (Resolved tt, x)
       ∧ inferSteps initial intermediate (with_core (set_ext x (core l)) l)
         = Resolved (true, steps)
       ∧ steps ≠ [] ∧ allNoop steps = true
       ∧ applySteps steps force initial skipLock
           (if intermediate then set_ext x (core l)
            else reportCurrentState {[ "update_pending" := JsBool true ]}
                                    (set_ext x (core l)))
         = (Resolved tt, s)
       ∧ ∀ delay,
           quiet (with_core (set_ext (Bluebird_delay delay (ext s)) s) l)) →
  quiet l → 0 ≤ retryCount → (0 < cycles)%nat →
  2000 ≤ Z.min (2 ^ (retryCount + Z.of_nat cycles) * 1000) 600000 ≤ 600000
  ∧ (10 ≤ retryCount + Z.of_nat cycles →
     Z.min (2 ^ (retryCount + Z.of_nat cycles) * 1000) 600000 = 600000)
  ∧ ∃ s,
      quiet (with_core
               (set_ext
                  (Bluebird_delay
                     (Z.min (2 ^ (retryCount + Z.of_nat cycles) * 1000) 600000)
                     (ext s)) s) l)
      ∧ ∀ (beyond : Again) (l' : Loop),
          beyond force initial intermediate skipLock
                 (Z.min (2 ^ (retryCount + Z.of_nat cycles) * 1000) 600000)
                 (retryCount + Z.of_nat cycles)
                 (with_core
                    (set_ext
                       (Bluebird_delay
                          (Z.min (2 ^ (retryCount + Z.of_nat cycles) * 1000)
                                 600000)
                          (ext s)) s) l)
            = (Resolved tt, l') →
          applyTargetFor cycles beyond force initial intermediate skipLock
                         nextDelay retryCount l
            = (Resolved tt, l').
Proof.
  intros Hquiet Hl Hcount Hpos. split; [|split].
  - assert (2 ^ 1 ≤ 2 ^ (retryCount + Z.of_nat cycles)) as Hlow.
    { apply Z.pow_le_mono_r; lia. }
    lia.
  - intros Hten.
    assert (2 ^ 10 ≤ 2 ^ (retryCount + Z.of_nat cycles)) as Hhigh.
    { apply Z.pow_le_mono_r; lia. }
    change (2 ^ 10) with 1024 in Hhigh. lia.
  - destruct cycles as [|n]; [lia|]. clear Hpos.
    revert nextDelay retryCount l Hl Hcount.
    induction n as [|n IH]; intros nextDelay retryCount l Hl Hcount.
    + destruct (Hquiet l Hl) as (x & steps & s & Hx & Hsteps & Hne & Hnoop
                                   & Hrun & Hnext).
      exists s. change (Z.of_nat 1) with 1. split; [apply Hnext|].
      intros beyond l' Hbeyond. cbn [applyTargetFor].
      by eapply applyTarget_noop_cycle.
    + destruct (Hquiet l Hl) as (x & steps & s & Hx & Hsteps & Hne & Hnoop
                                   & Hrun & Hnext).
      destruct (IH (Z.min (2 ^ (retryCount + 1) * 1000) 600000)
                   (retryCount + 1)
                   (with_core
                      (set_ext (Bluebird_delay
                                  (Z.min (2 ^ (retryCount + 1) * 1000) 600000)
                                  (ext s)) s) l))
        as (s' & Hq' & Hcall); [apply Hnext | lia |].
      replace (retryCount + 1 + Z.of_nat (S n))
        with (retryCount + Z.of_nat (S (S n))) in * by lia.
      exists s'. split; [exact Hq'|].
      intros beyond l' Hbeyond.
      change (applyTargetFor (S (S n)) beyond)
        with (applyTarget (applyTargetFor (S n) beyond)).
      eapply applyTarget_noop_cycle; try done.
      by apply Hcall.
Qed.

End Applying.

(** After a reboot the kill of a cycle that is still running is skipped. *)
Lemma no_step_after_shutdown_witness :
  Sample.ran (ext (snd (applyStep (collaborators := Sample.rigCollaborators)
                   (mkStep "kill" JsUndefined) None None None
                   (snd (reboot None None
                           (Sample.rigState (Sample.rig false false [] []) true))))))
  = ["stopAll"; "dbus.reboot"].
Proof.
  destruct (no_step_after_shutdown (surroundings := Sample.rigSurroundings)
              None None
              (Sample.rigState (Sample.rig false false [] []) true)
              (snd (reboot None None
                      (Sample.rigState (Sample.rig false false [] []) true))))
    as [Hstep _].
  - left. vm_compute. reflexivity.
  - rewrite Hstep. vm_compute. reflexivity.
Defined.

Lemma applyStep_unclaimed_action_witness :
  fst (applyStep (collaborators := Sample.rigCollaborators)
         (mkStep "format" JsUndefined) None None None
         (Sample.rigState (Sample.rig false false [] []) true))
  = Rejected (PlainError "Invalid action format").
Proof.
  rewrite (applyStep_unclaimed_action (collaborators := Sample.rigCollaborators)
             (mkStep "format" JsUndefined) None None None
             (Sample.rigState (Sample.rig false false [] []) true)).
  - reflexivity.
  - reflexivity.
  - reflexivity.
  - simpl. unfold Sample.appActions. not_in_list.
  - discriminate.
  - discriminate.
Defined.

(** The port that was just reported is the port in the status. *)
Lemma reported_fields_in_status_witness :
  ∃ st,
    getStatus (surroundings := Sample.rigSurroundings)
      (reportCurrentState {[ "api_port" := JsNumber 80 ]}
         (Sample.rigState (Sample.rig false false [] []) false))
    = Resolved st
    ∧ local st !! "api_port" = Some (JsNumber 80).
Proof.
  destruct (getStatus (surroundings := Sample.rigSurroundings)
              (reportCurrentState {[ "api_port" := JsNumber 80 ]}
                 (Sample.rigState (Sample.rig false false [] []) false)))
    as [st|e] eqn:Hst.
  - exists st. split; [reflexivity|].
    destruct (reported_fields_in_status (surroundings := Sample.rigSurroundings)
                {[ "api_port" := JsNumber 80 ]}
                (Sample.rigState (Sample.rig false false [] []) false)
                st "api_port" (JsNumber 80)) as [Hport _].
    + exact Hst.
    + reflexivity.
    + discriminate.
    + discriminate.
    + exact Hport.
  - exfalso. vm_compute in Hst. discriminate.
Defined.

(** The reported secret is not in the reply of [GET /v1/device]. *)
Lemma getDevice_fields_witness :
  (getDevice (surroundings := Sample.rigSurroundings)
     (Sample.rigState (Sample.rig false false [] []) false)).2 !! "api_secret"
  = None.
Proof.
  destruct ((getDevice (surroundings := Sample.rigSurroundings)
               (Sample.rigState (Sample.rig false false [] []) false)).2
              !! "api_secret") as [v|] eqn:Hl; [|reflexivity].
  destruct (getDevice_fields (surroundings := Sample.rigSurroundings)
              (Sample.rigState (Sample.rig false false [] []) false)
              "api_secret" v) as [Hin _].
  - reflexivity.
  - exact Hl.
  - exfalso. revert Hin. unfold deviceFields. not_in_list.
Defined.

(** Nothing left to do after three failed updates: the count is reset. *)
Lemma applyTarget_target_reached_witness :
  ∃ l',
    applyTarget (surroundings := Sample.rigSurroundings)
      (λ _ _ _ _ _ _ l, (Resolved tt, l)) false false false false 200 0
      (Sample.rigLoop (Sample.rig false false [] []) true)
    = (Resolved tt, l')
    ∧ failedUpdates (core l') = 0
    ∧ lastSuccessfulUpdate l' = Some 1604361600000.
Proof.
  destruct (applyTarget_target_reached (surroundings := Sample.rigSurroundings)
              (λ _ _ _ _ _ _ l, (Resolved tt, l)) false false false false 200 0
              (Sample.rigLoop (Sample.rig false false [] []) true)
              (Sample.rig false false [] []) true)
    as (l' & Heq & _ & _ & _ & Hcount & _ & Htime & _).
  - reflexivity.
  - reflexivity.
  - exists l'. split; [exact Heq|]. split; [exact Hcount | exact Htime].
Defined.

(** A kill that is refused because of a lock: the cycle ends in
    [applyError] with the lock error itself. *)
Lemma applyTarget_step_failure_witness :
  ∃ err,
    isUpdatesLockedError err = true
    ∧ fst (applyTarget (surroundings := Sample.rigSurroundings)
             (λ _ _ _ _ _ _ l, (Resolved tt, l)) false false false false 200 0
             (Sample.rigLoop
                (Sample.rig false true [] [mkStep "kill" JsUndefined]) true))
      = Resolved tt.
Proof.
  destruct (applyTarget_step_failure (surroundings := Sample.rigSurroundings)
              (λ _ _ _ _ _ _ l, (Resolved tt, l)) false false false 200 0
              (Sample.rigLoop
                 (Sample.rig false true [] [mkStep "kill" JsUndefined]) true)
              (Sample.rig false true [] [mkStep "kill" JsUndefined]) false
              [mkStep "kill" JsUndefined]
              (UpdatesLockedError "Updates are locked")
              (snd (applySteps (surroundings := Sample.rigSurroundings)
                      [mkStep "kill" JsUndefined] false false false
                      (reportCurrentState {[ "update_pending" := JsBool true ]}
                         (Sample.rigState
                            (Sample.rig false true [] [mkStep "kill" JsUndefined])
                            true)))))
    as (err & Heq & Hlocked & Hsame & _).
  - reflexivity.
  - reflexivity.
  - vm_compute. reflexivity.
  - exists err. split; [exact Hlocked|]. rewrite Heq, (Hsame eq_refl).
    vm_compute. reflexivity.
Defined.

(** A rig whose configuration keeps asking for a no-op: the fourth call
    is made after a pause of eight seconds, with a retry count of 3. *)
Lemma noop_backoff_witness :
  ∃ s : @State Sample.rigCollaborators,
    ∀ l',
      (Resolved tt,
       with_core (set_ext (collaborators := Sample.rigCollaborators)
                          (Sample.sleep 8000 (ext s)) s)
                 (Sample.rigLoop
                    (Sample.rig false false [mkStep "noop" JsUndefined] []) true))
      = (Resolved tt, l') →
      applyTargetFor (surroundings := Sample.rigSurroundings) 3
        (λ _ _ _ _ _ _ l, (Resolved tt, l)) false false false false 200 0
        (Sample.rigLoop (Sample.rig false false [mkStep "noop" JsUndefined] [])
                        true)
      = (Resolved tt, l').
Proof.
  destruct (noop_backoff (surroundings := Sample.rigSurroundings)
              false false false false
              (λ l, Sample.configSteps (ext (core l)) = [mkStep "noop" JsUndefined]
                    ∧ Sample.appSteps (ext (core l)) = []
                    ∧ Sample.locked (ext (core l)) = false
                    ∧ shuttingDown (core l) = false)
              3 200 0
              (Sample.rigLoop
                 (Sample.rig false false [mkStep "noop" JsUndefined] []) true))
    as (_ & _ & s & _ & Hcall).
  - intros [[mp fu sd sa ac ai cd cv ef [lm rp cm cs aps lk ck rn sl st]] it lu]
           (Hc & Ha & Hk & Hd).
    simpl in Hc, Ha, Hk, Hd. subst.
    eexists _, _, _. split; [reflexivity|].
    split; [reflexivity|].
    split; [discriminate|]. split; [reflexivity|].
    split; [reflexivity|].
    intros delay. repeat split; done.
  - repeat split.
  - lia.
  - lia.
  - exists s. intros l' Hl'. by apply (Hcall (λ _ _ _ _ _ _ l, (Resolved tt, l))).
Defined.

Lemma api_request_cuts_delay_witness :
  ∃ l3 : @Loop Sample.rigCollaborators,
    timers (effects (core l3)) = [64000; 0]
    ∧ applyInProgress (core l3) = true.
Proof.
  destruct (api_request_cuts_delay (collaborators := Sample.rigCollaborators)
              (λ l, (Resolved tt, l)) (Some false) (Some 64000) None (Some true)
              (Sample.rigLoop (Sample.rig false false [] []) false))
    as (s1 & s2 & l3 & _ & _ & _ & Heffects & Hin & _).
  - reflexivity.
  - exists l3. split; [|exact Hin]. rewrite Heffects. reflexivity.
Defined.

End ApplyProps.

(** * The target state set through the local-mode endpoint *)

Module LocalModeProps.
Import DeviceState V2Api.

Section LocalMode.
Context {validation : Validation} {collaborators : Collaborators}
        {surroundings : Surroundings}.

(** Every error of [validateState] is a plain [Error]. *)
Lemma validateState_plain (target : JsValue) (e : JsError) :
  validateState target = Some e → e = PlainError (message e).
Proof.
  unfold validateState, validateLocalState, validateDependentState.
  destruct (negb (isObject target)); [by intros [= <-]|].
  destruct (negb (isObject (prop target "local"))); [by intros [= <-]|].
  destruct (negb (isNullish (prop (prop target "local") "name")) && _);
    [by intros [= <-]|].
  destruct (isNullish (prop (prop target "local") "apps") || _);
    [by intros [= <-]|].
  destruct (isNullish (prop (prop target "local") "config") || _);
    [by intros [= <-]|].
  destruct (negb (isNullish (prop target "dependent"))); [|done].
  destruct (negb (isNullish (prop (prop target "dependent") "apps")) && _);
    [by intros [= <-]|].
  destruct (negb (isNullish (prop (prop target "dependent") "devices")) && _);
    [by intros [= <-]|done].
Qed.

(** X22.  [POST /v2/local/target-state] outside local mode, or with a
    target that does not pass [validateState], is answered 400 and leaves
    everything in place: nothing is written through the collaborators, no
    event is emitted, no apply is triggered or scheduled.  Outside local
    mode the state is untouched; in local mode the message is the one
    [validateState] threw and only the failure count has been reset. *)
Theorem local_target_refused (reqBody : JsValue) (s : State) :
  config_get_localMode (ext s) = false ∨ is_Some (validateState reqBody) →
  ∃ text s',
    setLocalTargetState reqBody s = (reply 400 "failed" text, s')
    ∧ ext s' = ext s
    ∧ effects s' = effects s
    ∧ scheduledApply s' = scheduledApply s
    ∧ applyInProgress s' = applyInProgress s
    ∧ (config_get_localMode (ext s) = false →
       s' = s
       ∧ text = "Target state can only set when device is in local mode")
    ∧ (config_get_localMode (ext s) = true →
       s' = set_failedUpdates 0 s
       ∧ validateState reqBody = Some (PlainError text)).
Proof.
  intros Hrefused. unfold setLocalTargetState.
  destruct (config_get_localMode (ext s)) eqn:Hmode; simpl.
  - destruct Hrefused as [?|[e He]]; [done|].
    unfold setTarget. rewrite He. simpl.
    pose proof (validateState_plain _ _ He) as Hplain.
    eexists _, _. split; [reflexivity|]. repeat split; try done.
    by rewrite <- Hplain.
  - eexists _, _. split; [reflexivity|]. repeat split; done.
Qed.

(** X23.  In local mode, a target that passes [validateState] and whose
    writes go through is answered 200: the target is written with the
    source 'local' whatever the API endpoint is, the failure count is 0,
    and an apply is triggered - its timer is set with delay 0 when no
    apply is in progress, and it is scheduled behind the running one
    otherwise.  Between the event and the timer there is the transaction
    and nothing else: no lock on the target is requested. *)
Theorem local_target_accepted (reqBody : JsValue) (s : State) (x' : Ext) :
  config_get_localMode (ext s) = true →
  validateState reqBody = None →
  wellScheduled s →
  transaction
    (andThen (config_set_name (prop (prop reqBody "local") "name"))
       (andThen (deviceConfig_setTarget (prop (prop reqBody "local") "config"))
          (applicationManager_setTarget (prop (prop reqBody "local") "apps")
             (prop reqBody "dependent") "local")))
    (ext s) = (Resolved tt, x') →
  ∃ s',
    setLocalTargetState reqBody s = (reply 200 "success" "OK", s')
    ∧ ext s' = x'
    ∧ failedUpdates s' = 0
    ∧ if applyInProgress s
      then is_Some (scheduledApply s')
           ∧ timers (effects s') = timers (effects s)
           ∧ applyInProgress s' = true
      else applyInProgress s' = true
           ∧ scheduledApply s' = scheduledApply s
           ∧ effects s' = effects s ++
               [GlobalEmit "targetStateChanged"; Transaction; SetTimeout 0].
Proof.
  intros Hmode Hvalid Hw Hwrite. unfold setLocalTargetState.
  rewrite Hmode. cbn [negb].
  assert (setTarget reqBody (Some true) s =
          (Resolved tt,
           set_ext x' (effect Transaction
                         (effect (GlobalEmit "targetStateChanged")
                            (set_failedUpdates 0 s)))))
    as ->.
  { unfold setTarget. rewrite Hvalid. simpl.
    destruct (config_get_apiEndpoint (ext s)); simpl; by rewrite Hwrite. }
  unfold triggerApplyTarget. simpl.
  destruct (applyInProgress s) eqn:Hin.
  - unfold wellScheduled in Hw.
    destruct (scheduledApply s) as [[f d]|] eqn:Hs; simpl in *.
    + destruct Hw as [d' ->]. eexists. split; [reflexivity|]. simpl.
      repeat split; try done.
      unfold timers. rewrite !omap_app. simpl. by rewrite !app_nil_r.
    + eexists. split; [reflexivity|]. simpl.
      repeat split; try done.
      unfold timers. rewrite !omap_app. simpl. by rewrite !app_nil_r.
  - eexists. split; [reflexivity|]. simpl.
    repeat split; try done. by rewrite <- !app_assoc.
Qed.

End LocalMode.

(** Outside local mode the request is refused and nothing changes. *)
Lemma local_target_refused_witness :
  ∃ text,
    setLocalTargetState (validation := Sample.validation)
      (surroundings := Sample.rigSurroundings) Sample.emptyTarget
      (Sample.rigState (Sample.rig false false [] []) false)
    = (reply 400 "failed" text,
       Sample.rigState (Sample.rig false false [] []) false).
Proof.
  destruct (local_target_refused (validation := Sample.validation)
              (surroundings := Sample.rigSurroundings) Sample.emptyTarget
              (Sample.rigState (Sample.rig false false [] []) false))
    as (text & s' & Heq & _ & _ & _ & _ & Hsame & _).
  - left. reflexivity.
  - exists text. destruct Hsame as [Hs' _]; [reflexivity|].
    rewrite Hs' in Heq. exact Heq.
Defined.

(** In local mode the target is stored as a local one and applied at
    once. *)
Lemma local_target_accepted_witness :
  ∃ s',
    setLocalTargetState (validation := Sample.validation)
      (surroundings := Sample.rigSurroundings) Sample.emptyTarget
      (Sample.rigState (Sample.rig true false [] []) false)
    = (reply 200 "success" "OK", s')
    ∧ Sample.stored (ext s')
      = [JsString "device"; JsObject [];
         JsObject [("apps", JsObject []); ("source", JsString "local")]]
    ∧ failedUpdates s' = 0.
Proof.
  destruct (local_target_accepted (validation := Sample.validation)
              (surroundings := Sample.rigSurroundings) Sample.emptyTarget
              (Sample.rigState (Sample.rig true false [] []) false)
              (snd (Sample.store
                      (JsObject [("apps", JsObject []);
                                 ("source", JsString "local")])
                      (snd (Sample.store (JsObject [])
                              (snd (Sample.store (JsString "device")
                                      (Sample.rig true false [] []))))))))
    as (s' & Heq & Hext & Hcount & _).
  - reflexivity.
  - reflexivity.
  - exact I.
  - reflexivity.
  - exists s'. split; [exact Heq|]. split; [|exact Hcount].
    rewrite Hext. reflexivity.
Defined.

End LocalModeProps.

(** * Facts about [SystemInfo] *)

Module SystemInfoProps.
Import SystemInfo.

Lemma significantChange_Some (key : string) (bucketSize : Z) :
  significantChange key = Some bucketSize →
  (key = "cpu_usage" ∧ bucketSize = 20)
  ∨ (key = "cpu_temp" ∧ bucketSize = 5)
  ∨ (key = "memory_usage" ∧ bucketSize = 10).
Proof.
  unfold significantChange. repeat case_decide; intros; simplify_eq; auto.
Qed.

(** Two numbers in the same bucket are less than a bucket apart. *)
Lemma same_bucket_close (v p b : Z) :
  0 < b → v / b = p / b → Z.abs (v - p) < b.
Proof.
  intros Hb Heq.
  pose proof (Z.div_mod v b ltac:(lia)) as Hv.
  pose proof (Z.div_mod p b ltac:(lia)) as Hp.
  pose proof (Z.mod_pos_bound v b Hb).
  pose proof (Z.mod_pos_bound p b Hb).
  rewrite Heq in Hv. lia.
Qed.

(** X24.  [filterNonSignificantChanges] only ever names [cpu_usage],
    [cpu_temp] and [memory_usage], and names a key only when there is a
    past value for it and the current value lies in the same bucket as
    the past one, so that the two differ by less than the bucket size (20,
    5 and 10): a change of a bucket size or more is never filtered. *)
Theorem filterNonSignificantChanges_small (past : partial) (current : t)
    (key : string) :
  key ∈ filterNonSignificantChanges past current →
  ∃ bucketSize,
    significantChange key = Some bucketSize
    ∧ key ∈ ["cpu_usage"; "cpu_temp"; "memory_usage"]
    ∧ missing past key = false
    ∧ number current key / bucketSize = pastNumber past key / bucketSize
    ∧ Z.abs (number current key - pastNumber past key) < bucketSize.
Proof.
  unfold filterNonSignificantChanges. intros Hin.
  apply list_elem_of_filter in Hin as [Hsig _]. unfold significant in Hsig.
  destruct (missing past key) eqn:Hmissing; [done|].
  destruct (significantChange key) as [b|] eqn:Hb; [|done].
  exists b. split; [done|].
  apply negb_false_iff, Z.eqb_eq in Hsig.
  destruct (significantChange_Some _ _ Hb) as [[-> ->] | [[-> ->] | [-> ->]]];
    (split; [in_list|]); (split; [done|]); (split; [done|]);
    apply same_bucket_close; (lia || done).
Qed.

Lemma foldl_used_ge (mainFs : string) (l : list Partition) (acc : Z) :
  Forall (λ p, 0 ≤ used p) l →
  acc ≤ foldl (λ u partition,
                 if String.prefix mainFs (fs partition)
                 then u + used partition else u) acc l.
Proof.
  revert acc. induction l as [|p l IH]; intros acc Hall; simpl; [lia|].
  apply Forall_cons in Hall as [Hp Hall].
  etrans; [|apply (IH _ Hall)]. destruct (String.prefix _ _); lia.
Qed.

Lemma prefix_refl (s : string) : String.prefix s s = true.
Proof.
  induction s as [|c s IH]; [done|]. simpl.
  destruct (Ascii.ascii_dec c c); [exact IH | done].
Qed.

Lemma foldl_used_member (data : Partition) (l : list Partition) (acc : Z) :
  Forall (λ p, 0 ≤ used p) l → data ∈ l →
  acc + used data
  ≤ foldl (λ u partition,
             if String.prefix (fs data) (fs partition)
             then u + used partition else u) acc l.
Proof.
  revert acc. induction l as [|p l IH]; intros acc Hall Hin;
    [by apply elem_of_nil in Hin|].
  apply Forall_cons in Hall as [Hp Hall]. simpl.
  apply elem_of_cons in Hin as [<- | Hin].
  - rewrite prefix_refl. by apply foldl_used_ge.
  - etrans; [|apply (IH _ Hall Hin)]. destruct (String.prefix _ _); lia.
Qed.

Lemma bytesToMb_mono (a b : Z) : a ≤ b → bytesToMb a ≤ bytesToMb b.
Proof.
  intros Hab. unfold bytesToMb.
  apply Z.div_le_mono; [lia|]. apply Z.div_le_mono; lia.
Qed.

Lemma foldl_used_sum (mainFs : string) (l : list Partition) (acc : Z) :
  foldl (λ u partition,
           if String.prefix mainFs (fs partition)
           then u + used partition else u) acc l
  = acc + foldr Z.add 0
            (used <$> filter (λ partition, String.prefix mainFs (fs partition)) l).
Proof.
  revert acc. induction l as [|p l IH]; intros acc; simpl; [lia|].
  rewrite IH. destruct (String.prefix mainFs (fs p)) eqn:Hp.
  - rewrite filter_cons_True by by rewrite Hp.
    rewrite fmap_cons. cbn [foldr]. lia.
  - rewrite filter_cons_False; [done|]. rewrite Hp. intros [].
Qed.

(** X25.  [getStorageInfo] reports the first partition mounted at [/data]:
    its device as [blockDevice] and its size as [storageTotal], in
    megabytes rounded down; [storageUsed] is, in megabytes rounded down,
    the sum of what is used on the partitions whose device name starts
    with that of the data partition, and on no others - so, when no
    partition uses a negative amount, it is at least what the data
    partition itself uses.  Without a partition at [/data], or when that
    partition has no device name, the device is the empty string and both
    numbers are undefined. *)
Theorem getStorageInfo_data_partition (fsInfo : list Partition) :
  Forall (λ p, 0 ≤ used p) fsInfo →
  match List.find (λ partition, bool_decide (mount partition = "/data")) fsInfo with
  | Some data =>
      data ∈ fsInfo ∧ mount data = "/data"
      ∧ if bool_decide (fs data = "")
        then getStorageInfo fsInfo = mkStorageInfo "" None None
        else ∃ usedMb,
             getStorageInfo fsInfo
             = mkStorageInfo (fs data) (Some usedMb) (Some (bytesToMb (size data)))
             ∧ usedMb
               = bytesToMb
                   (foldr Z.add 0
                      (used <$> filter (λ partition,
                                          String.prefix (fs data) (fs partition))
                                       fsInfo))
             ∧ bytesToMb (used data) ≤ usedMb
  | None =>
      getStorageInfo fsInfo = mkStorageInfo "" None None
      ∧ ∀ p, p ∈ fsInfo → mount p ≠ "/data"
  end.
Proof.
  intros Hall. unfold getStorageInfo.
  destruct (List.find _ fsInfo) as [data|] eqn:Hfind.
  - apply find_some in Hfind as [Hin Hmount].
    apply list_elem_of_In in Hin. apply bool_decide_eq_true in Hmount.
    split; [done|]. split; [done|].
    case_bool_decide; [done|]. eexists. split; [reflexivity|]. split.
    + by rewrite foldl_used_sum.
    + apply bytesToMb_mono.
      pose proof (foldl_used_member data fsInfo 0 Hall Hin). lia.
  - split; [done|]. intros p Hp Hmount.
    apply list_elem_of_In in Hp.
    pose proof (find_none _ _ Hfind p Hp) as Hno. simpl in Hno.
    by rewrite bool_decide_eq_true_2 in Hno.
Qed.

Lemma foldl_Qplus_bounds (lo hi : Z) (l : list Q) (acc : Q) :
  Forall (λ x, inject_Z lo <= x ∧ x <= inject_Z hi)%Q l →
  (acc + inject_Z lo * inject_Z (Z.of_nat (length l)) <= foldl Qplus acc l)%Q
  ∧ (foldl Qplus acc l <= acc + inject_Z hi * inject_Z (Z.of_nat (length l)))%Q.
Proof.
  revert acc. induction l as [|x l IH]; intros acc Hall.
  - simpl. split; ring_simplify; apply Qle_refl.
  - apply Forall_cons in Hall as [[Hlo Hhi] Hall].
    destruct (IH (acc + x)%Q Hall) as [IHlo IHhi].
    simpl length. simpl foldl. rewrite Nat2Z.inj_succ.
    unfold Z.succ. rewrite inject_Z_plus.
    split.
    + eapply Qle_trans; [|exact IHlo].
      setoid_replace (acc + inject_Z lo * (inject_Z (Z.of_nat (length l)) + inject_Z 1))%Q
        with ((acc + inject_Z lo) + inject_Z lo * inject_Z (Z.of_nat (length l)))%Q
        using relation Qeq by ring.
      apply Qplus_le_compat; [|apply Qle_refl].
      apply Qplus_le_compat; [apply Qle_refl | exact Hlo].
    + eapply Qle_trans; [exact IHhi|].
      setoid_replace (acc + inject_Z hi * (inject_Z (Z.of_nat (length l)) + inject_Z 1))%Q
        with ((acc + inject_Z hi) + inject_Z hi * inject_Z (Z.of_nat (length l)))%Q
        using relation Qeq by ring.
      apply Qplus_le_compat; [|apply Qle_refl].
      apply Qplus_le_compat; [apply Qle_refl | exact Hhi].
Qed.

Lemma round_between (lo hi : Z) (x : Q) :
  (inject_Z lo <= x)%Q → (x <= inject_Z hi)%Q → lo ≤ round x ≤ hi.
Proof.
  intros Hlo Hhi. unfold round. split.
  - rewrite <- (Qfloor_Z lo). apply Qfloor_resp_le.
    eapply Qle_trans; [exact Hlo|].
    rewrite <- (Qplus_0_r x) at 1. apply Qplus_le_compat; [apply Qle_refl | done].
  - assert (inject_Z (Qfloor (x + (1 # 2))) < inject_Z (hi + 1))%Q as Hlt.
    { eapply Qle_lt_trans; [apply Qfloor_le|].
      eapply Qle_lt_trans; [apply Qplus_le_compat; [exact Hhi | apply Qle_refl]|].
      rewrite inject_Z_plus. apply Qplus_lt_r. done. }
    rewrite <- Zlt_Qlt in Hlt. lia.
Qed.

(** X26.  The CPU usage is a number as soon as there is a core, and it
    lies within the bounds of the cores' loads: if every load is between
    [lo] and [hi], so is the reported usage. *)
Theorem getCpuUsage_between (lo hi : Z) (loads : list Q) :
  loads ≠ [] →
  Forall (λ x, inject_Z lo <= x ∧ x <= inject_Z hi)%Q loads →
  ∃ usage, getCpuUsage loads = Some usage ∧ lo ≤ usage ≤ hi.
Proof.
  intros Hne Hall. unfold getCpuUsage.
  destruct (foldl_Qplus_bounds lo hi loads 0 Hall) as [Hlo Hhi].
  assert (0 < inject_Z (Z.of_nat (length loads)))%Q as Hpos.
  { change 0%Q with (inject_Z 0). rewrite <- Zlt_Qlt.
    destruct loads; [done | simpl; lia]. }
  exists (round (foldl Qplus 0%Q loads / inject_Z (Z.of_nat (length loads)))).
  split; [by destruct loads|].
  apply round_between.
  - apply Qle_shift_div_l; [done|]. by rewrite Qplus_0_l in Hlo.
  - apply Qle_shift_div_r; [done|]. by rewrite Qplus_0_l in Hhi.
Qed.

(** From 21 to 20 percent the CPU usage stays in the bucket from 20 to
    39. *)
Lemma filterNonSignificantChanges_small_witness :
  ∃ bucketSize,
    significantChange "cpu_usage" = Some bucketSize
    ∧ number (mk 20 0 0 None None "" 0 None false) "cpu_usage" / bucketSize
      = pastNumber (mkPartial (Some 21) None None None None None None None None)
                   "cpu_usage" / bucketSize.
Proof.
  destruct (filterNonSignificantChanges_small
              (mkPartial (Some 21) None None None None None None None None)
              (mk 20 0 0 None None "" 0 None false) "cpu_usage")
    as (b & Hb & _ & _ & Hsame & _).
  - vm_compute. apply list_elem_of_here.
  - exists b. split; [exact Hb | exact Hsame].
Defined.

(** The data partition and a second partition of the same device, next to
    the boot partition of another: the first two are added up. *)
Lemma getStorageInfo_data_partition_witness :
  getStorageInfo [mkPartition "/dev/mmcblk0p6" "/data" 30433308672 1172959232;
                  mkPartition "/dev/mmcblk0p1" "/boot" 41281536 7219200;
                  mkPartition "/dev/mmcblk0p6b" "/mnt/state" 19254272 403456000]
  = mkStorageInfo "/dev/mmcblk0p6" (Some 1503) (Some 29023).
Proof.
  pose proof (getStorageInfo_data_partition
                [mkPartition "/dev/mmcblk0p6" "/data" 30433308672 1172959232;
                 mkPartition "/dev/mmcblk0p1" "/boot" 41281536 7219200;
                 mkPartition "/dev/mmcblk0p6b" "/mnt/state" 19254272 403456000])
    as H.
  simpl in H. destruct H as (_ & _ & usedMb & Heq & Hsum & _).
  - repeat constructor; simpl; lia.
  - rewrite Heq, Hsum. reflexivity.
Defined.

Lemma getCpuUsage_between_witness :
  ∃ usage, getCpuUsage [1 # 2; 5 # 2]%Q = Some usage ∧ 0 ≤ usage ≤ 100.
Proof.
  apply (getCpuUsage_between 0 100 [1 # 2; 5 # 2]%Q); [discriminate|].
  repeat constructor; simpl; unfold Qle; simpl; lia.
Defined.

End SystemInfoProps.

(** * Facts about [LogMonitor] *)

Module LogMonitorProps.
Import LogMonitor.

Section WithDb.
Context {logDb : LogDb}.

Lemma assoc_middle (pre rest : list (string * Container)) (k : string)
    (e : Container) :
  k ∉ (fst <$> pre) → assoc k (pre ++ (k, e) :: rest) = Some e.
Proof.
  induction pre as [|[k' e'] pre IH]; intros Hk; simpl.
  - by rewrite decide_True.
  - rewrite decide_False; [apply IH|]; intros Heq; apply Hk; simpl.
    + by apply list_elem_of_further.
    + subst. apply list_elem_of_here.
Qed.

Lemma replace_middle (pre rest : list (string * Container)) (k : string)
    (e e' : Container) :
  k ∉ (fst <$> pre) →
  replace k e' (pre ++ (k, e) :: rest) = pre ++ (k, e') :: rest.
Proof.
  induction pre as [|[k0 e0] pre IH]; intros Hk; simpl.
  - by rewrite decide_True.
  - rewrite decide_False.
    + rewrite IH; [done|]. intros Hin. apply Hk. simpl.
      by apply list_elem_of_further.
    + intros ->. apply Hk. simpl. apply list_elem_of_here.
Qed.

(** The loop of [flushDb], from the middle of the container list: it
    clears a prefix of what is left, writing what that prefix owed, and
    stops early only on a rejected update - that of the first entry it
    has not cleared. *)
Lemma flushLoop_prefix (rest pre : list (string * Container)) (m : Monitor) :
  containers m = pre ++ rest →
  NoDup (fst <$> pre ++ rest) →
  ∃ n r m' d,
    flushLoop (fst <$> rest) m = (r, m')
    ∧ containers m' = pre ++ (cleared <$> take n rest) ++ drop n rest
    ∧ written m' = written m ++ pending (take n rest)
    ∧ delivered m' = delivered m
    ∧ (r = Resolved tt → (length rest ≤ n)%nat)
    ∧ ((∀ k ts d, fst (updateLastSentTimestamp k ts d) = Resolved tt) →
       r = Resolved tt)
    ∧ updated (pending (take n rest)) (db m) = Some d
    ∧ match drop n rest with
      | [] => r = Resolved tt ∧ db m' = d
      | (k, c) :: _ =>
          writeRequired c = true
          ∧ ∃ err, updateLastSentTimestamp k (timestamp c) d
                   = (Rejected err, db m')
                   ∧ r = Rejected err
      end.
Proof.
  revert pre m. induction rest as [|[k e] rest IH]; intros pre m Hc Hnd.
  - exists 0%nat, (Resolved tt), m, (db m). simpl. rewrite app_nil_r in *.
    by rewrite app_nil_r.
  - assert (k ∉ (fst <$> pre)) as Hk.
    { rewrite fmap_app in Hnd. apply NoDup_app in Hnd as (_ & Hd & _).
      intros Hin. apply (Hd k Hin). simpl. apply list_elem_of_here. }
    simpl. rewrite Hc, (assoc_middle _ _ _ _ Hk).
    assert (NoDup (fst <$> (pre ++ [cleared (k, e)]) ++ rest)) as Hnd'.
    { rewrite <- app_assoc. simpl.
      rewrite fmap_app in *. simpl in *. done. }
    destruct (writeRequired e) eqn:Hreq; simpl.
    + destruct (updateLastSentTimestamp k (timestamp e) (db m)) as [[[]|err] d]
        eqn:Hup.
      * rewrite (replace_middle _ _ _ _ _ Hk).
        edestruct (IH (pre ++ [cleared (k, e)])
                     (mkMonitor (pre ++ (k, mkContainer (hook e) (follow e)
                                              (timestamp e) false) :: rest)
                                (delivered m)
                                (written m ++ [(k, timestamp e)]) d))
          as (n & r & m' & d' & Heq & Hc' & Hw' & Hd' & Hall & Hok & Hup' & Hstop).
        { simpl. by rewrite <- app_assoc. }
        { exact Hnd'. }
        exists (S n), r, m', d'. split; [exact Heq|]. simpl in *.
        rewrite Hc', Hw', <- !app_assoc, Hreq. simpl. rewrite Hup.
        repeat split; try done. intros Hr. specialize (Hall Hr). lia.
      * exists 0%nat, (Rejected err),
               (mkMonitor (containers m) (delivered m) (written m) d), (db m).
        rewrite <- Hc. simpl. rewrite app_nil_r.
        repeat split; try done.
        -- intros Hgood.
           specialize (Hgood k (timestamp e) (db m)). by rewrite Hup in Hgood.
        -- by exists err.
    + edestruct (IH (pre ++ [cleared (k, e)]) m)
        as (n & r & m' & d' & Heq & Hc' & Hw' & Hd' & Hall & Hok & Hup' & Hstop).
      { rewrite Hc, <- app_assoc. simpl. unfold cleared. simpl.
        destruct e as [h f t w]. simpl in *. by subst. }
      { exact Hnd'. }
      exists (S n), r, m', d'. split; [exact Heq|]. simpl in *.
      rewrite Hc', Hw', <- !app_assoc, Hreq. simpl.
      repeat split; try done. intros Hr. specialize (Hall Hr). lia.
Qed.

Lemma pending_cleared (l : list (string * Container)) :
  pending (cleared <$> l) = [].
Proof. induction l as [|kv l IH]; [done | exact IH]. Qed.

Lemma fst_cleared (l : list (string * Container)) :
  fst <$> (cleared <$> l) = fst <$> l.
Proof. by rewrite <- list_fmap_compose. Qed.

Lemma flushDb_resolved (m : Monitor) :
  NoDup (fst <$> containers m) →
  (∀ k ts d, fst (updateLastSentTimestamp k ts d) = Resolved tt) →
  containers (flushDb m) = cleared <$> containers m
  ∧ written (flushDb m) = written m ++ pending (containers m)
  ∧ delivered (flushDb m) = delivered m.
Proof.
  intros Hnd Hgood. unfold flushDb.
  destruct (flushLoop_prefix (containers m) [] m eq_refl Hnd)
    as (n & r & m' & d & Heq & Hc & Hw & Hd & Hall & Hok & _).
  rewrite Heq. simpl. specialize (Hall (Hok Hgood)).
  rewrite take_ge, drop_ge, app_nil_r in Hc by done.
  rewrite take_ge in Hw by done. done.
Qed.

(** X27.  A flush whose updates go through writes, in the order of the
    containers, the timestamp of every container that had something new
    and of no other, clears every [writeRequired], and changes nothing
    else; a second flush right after it writes nothing. *)
Theorem flushDb_writes_pending (m : Monitor) :
  NoDup (fst <$> containers m) →
  (∀ k ts d, fst (updateLastSentTimestamp k ts d) = Resolved tt) →
  containers (flushDb m) = cleared <$> containers m
  ∧ written (flushDb m) = written m ++ pending (containers m)
  ∧ delivered (flushDb m) = delivered m
  ∧ written (flushDb (flushDb m)) = written (flushDb m).
Proof.
  intros Hnd Hgood.
  destruct (flushDb_resolved m Hnd Hgood) as (Hc & Hw & Hd).
  split; [done|]. split; [done|]. split; [done|].
  destruct (flushDb_resolved (flushDb m)) as (_ & Hw2 & _); [|done|].
  { by rewrite Hc, fst_cleared. }
  by rewrite Hw2, Hc, pending_cleared, app_nil_r.
Qed.

(** X28.  A flush that fails half way loses nothing.  Whatever the table
    answers, the flush goes through the containers in order and stops at
    the first update that the table rejects: the containers before it
    have had their timestamp written, each update having gone through, and
    their [writeRequired] cleared; the container of the rejected update
    and those after it are exactly as they were, so the updates still owed
    after the flush are theirs.  When no update is rejected, every
    container is cleared.  Hooks, timestamps and the order of the
    containers never change, and no hook is called. *)
Theorem flushDb_keeps_pending (m : Monitor) :
  NoDup (fst <$> containers m) →
  ∃ n d,
    containers (flushDb m)
      = (cleared <$> take n (containers m)) ++ drop n (containers m)
    ∧ written (flushDb m) = written m ++ pending (take n (containers m))
    ∧ pending (containers (flushDb m)) = pending (drop n (containers m))
    ∧ delivered (flushDb m) = delivered m
    ∧ updated (pending (take n (containers m))) (db m) = Some d
    ∧ match drop n (containers m) with
      | [] => db (flushDb m) = d
      | (k, c) :: _ =>
          writeRequired c = true
          ∧ ∃ err, updateLastSentTimestamp k (timestamp c) d
                   = (Rejected err, db (flushDb m))
      end.
Proof.
  intros Hnd. unfold flushDb.
  destruct (flushLoop_prefix (containers m) [] m eq_refl Hnd)
    as (n & r & m' & d & Heq & Hc & Hw & Hd & _ & _ & Hup & Hstop).
  rewrite Heq. simpl in *. exists n, d. rewrite Hc.
  split; [done|]. split; [done|]. split; [|split; [done|split; [done|]]].
  - unfold pending at 1. rewrite omap_app.
    fold (pending (cleared <$> take n (containers m))).
    by rewrite pending_cleared.
  - destruct (drop n (containers m)) as [|[k c] rest]; [by destruct Hstop|].
    destruct Hstop as (Hreq & err & Herr & _). split; [done | by exists err].
Qed.

Lemma replace_keys (k : string) (e : Container) (l : list (string * Container)) :
  fst <$> replace k e l = fst <$> l.
Proof.
  induction l as [|[k0 e0] l IH]; [done|]. simpl.
  case_decide; simpl; [done | by f_equal].
Qed.

Lemma assoc_replace (k : string) (e e0 : Container) (l : list (string * Container)) :
  assoc k l = Some e0 → assoc k (replace k e l) = Some e.
Proof.
  induction l as [|[k1 e1] l IH]; [done|]. simpl.
  case_decide as Hk; simpl.
  - intros _. by rewrite decide_True.
  - intros Hl. rewrite decide_False by done. by apply IH.
Qed.

Lemma assoc_elem_of (k : string) (e : Container) (l : list (string * Container)) :
  assoc k l = Some e → (k, e) ∈ l.
Proof.
  induction l as [|[k1 e1] l IH]; [done|]. simpl.
  case_decide as Hk.
  - intros [= ->]. subst. apply list_elem_of_here.
  - intros Hl. apply list_elem_of_further. by apply IH.
Qed.

Lemma assoc_cleared (k : string) (e : Container) (l : list (string * Container)) :
  assoc k l = Some e → assoc k (cleared <$> l) = Some (cleared (k, e)).2.
Proof.
  induction l as [|[k1 e1] l IH]; [done|]. simpl.
  case_decide as Hk; [by intros [= ->] | exact IH].
Qed.

(** X29.  A row that is delivered reaches the table with the next flush.
    A journal row of an attached container that is not the supervisor's
    own and whose message is a string or an array of codes is handed to
    that container's hook, once, with its timestamp turned from micro- to
    milliseconds (rounded down) and marked as standard error iff the
    priority is '3'; the flush that follows writes exactly this timestamp
    for the container and clears its [writeRequired]. *)
Theorem delivered_row_is_flushed (row : JournalRow) (m : Monitor)
    (containerId text : string) (e : Container) :
  NoDup (fst <$> containers m) →
  (∀ k ts d, fst (updateLastSentTimestamp k ts d) = Resolved tt) →
  containerOf row = Some containerId →
  assoc containerId (containers m) = Some e →
  CONTAINER_NAME row ≠ Some "balena_supervisor" →
  CONTAINER_NAME row ≠ Some "resin_supervisor" →
  messageFieldToString (MESSAGE row) = Some text →
  delivered (onRow row m)
    = delivered m ++ [mkDelivery (hook e) text (bool_decide (PRIORITY row = "3"))
                                 (REALTIME_TIMESTAMP row / 1000)]
  ∧ written (onRow row m) = written m
  ∧ (containerId, REALTIME_TIMESTAMP row / 1000)
      ∈ pending (containers (onRow row m))
  ∧ written (flushDb (onRow row m))
      = written m ++ pending (containers (onRow row m))
  ∧ assoc containerId (containers (flushDb (onRow row m)))
      = Some (mkContainer (hook e) (follow e) (REALTIME_TIMESTAMP row / 1000)
                          false).
Proof.
  intros Hnd Hgood Hid He Hn1 Hn2 Hmsg.
  assert (onRow row m =
          mkMonitor
            (replace containerId
               (mkContainer (hook e) (follow e) (REALTIME_TIMESTAMP row / 1000) true)
               (containers m))
            (delivered m ++ [mkDelivery (hook e) text
                               (bool_decide (PRIORITY row = "3"))
                               (REALTIME_TIMESTAMP row / 1000)])
            (written m) (db m)) as ->.
  { unfold onRow, isAttached, handleRow, updateContainerSentTimestamp.
    rewrite Hid, He, Hmsg.
    rewrite bool_decide_eq_true_2 by by eexists.
    rewrite (bool_decide_eq_false_2 _ Hn1), (bool_decide_eq_false_2 _ Hn2).
    done. }
  set (entry := mkContainer _ _ _ true).
  assert (assoc containerId (replace containerId entry (containers m))
          = Some entry) as Hentry by by eapply assoc_replace.
  split; [done|]. split; [done|]. simpl. split.
  { apply list_elem_of_omap. exists (containerId, entry).
    split; [by apply assoc_elem_of | done]. }
  destruct (flushDb_resolved
              (mkMonitor (replace containerId entry (containers m))
                         (delivered m ++ [mkDelivery (hook e) text
                                            (bool_decide (PRIORITY row = "3"))
                                            (REALTIME_TIMESTAMP row / 1000)])
                         (written m) (db m)))
    as (Hc & Hw & _); [by simpl; rewrite replace_keys | done |].
  split; [exact Hw|]. rewrite Hc. simpl.
  by rewrite (assoc_cleared _ _ _ Hentry).
Qed.

End WithDb.

Lemma flushDb_writes_pending_witness :
  written (flushDb (Sample.monitor [])) = [("abc123", 1604361600500)]
  ∧ written (flushDb (flushDb (Sample.monitor [])))
    = written (flushDb (Sample.monitor [])).
Proof.
  destruct (flushDb_writes_pending (logDb := Sample.logDb []) (Sample.monitor []))
    as (_ & Hw & _ & Htwice).
  - vm_compute. repeat constructor; not_in_list.
  - intros k ts d. reflexivity.
  - split; [rewrite Hw; reflexivity | exact Htwice].
Defined.

(** The table refuses the second container: the first update was
    written, the second is still owed, the third has not been tried. *)
Lemma flushDb_keeps_pending_witness :
  written (flushDb (Sample.busyMonitor ["def456"]))
    = [("abc123", 1604361600500)]
  ∧ pending (containers (flushDb (Sample.busyMonitor ["def456"])))
    = [("def456", 1604361600700); ("0a1b2c", 1604361600900)].
Proof.
  destruct (flushDb_keeps_pending (logDb := Sample.logDb ["def456"])
              (Sample.busyMonitor ["def456"]))
    as (n & d & _ & Hw & Hp & _ & Hup & Hstop).
  - vm_compute. repeat constructor; not_in_list.
  - destruct n as [|[|[|[|n]]]].
    + simpl in Hup, Hstop. destruct Hstop as (_ & err & Herr).
      injection Hup as <-. vm_compute in Herr. discriminate Herr.
    + rewrite Hw, Hp. split; reflexivity.
    + vm_compute in Hup. discriminate Hup.
    + vm_compute in Hup. discriminate Hup.
    + vm_compute in Hup. discriminate Hup.
Defined.

Lemma delivered_row_is_flushed_witness :
  delivered (onRow Sample.journalRow (Sample.monitor []))
    = [mkDelivery 2 "starting" true 1604361601234]
  ∧ assoc "def456" (containers (flushDb (onRow Sample.journalRow
                                           (Sample.monitor []))))
    = Some (mkContainer 2 true 1604361601234 false).
Proof.
  destruct (delivered_row_is_flushed (logDb := Sample.logDb [])
              Sample.journalRow (Sample.monitor []) "def456" "starting"
              (mkContainer 2 true 1604361600000 false))
    as (Hd & _ & _ & _ & Hc).
  - vm_compute. repeat constructor; not_in_list.
  - intros k ts d. reflexivity.
  - reflexivity.
  - reflexivity.
  - discriminate.
  - discriminate.
  - reflexivity.
  - split; [exact Hd | exact Hc].
Defined.

End LogMonitorProps.

(** * Facts about [ConfigFunctions] *)

Module ConfigFunctionsProps.
Import ConfigFunctions.

(** X30.  A device without an API endpoint is unmanaged, in offline mode
    and not provisioned; a provisioned device is managed, and in offline
    mode exactly when [supervisorOfflineMode] says so. *)
Theorem unmanaged_offline_unprovisioned {validation : Validation}
    (stored : string → JsValue) :
  (unmanaged stored = true →
   offlineMode stored = true ∧ provisioned stored = false)
  ∧ (provisioned stored = true →
     unmanaged stored = false
     ∧ offlineMode stored = checkTruthy (stored "supervisorOfflineMode")).
Proof.
  unfold unmanaged, offlineMode, provisioned. simpl.
  destruct (V2Api.truthy (stored "apiEndpoint")); simpl.
  - split; [done|]. intros _. split; [done|]. by rewrite orb_false_r.
  - split; [|by rewrite andb_false_r]. intros _.
    split; [by rewrite orb_true_r | by rewrite andb_false_r].
Qed.

Lemma unmanaged_offline_unprovisioned_witness :
  offlineMode (validation := Sample.validation) Sample.unconfigured = true
  ∧ provisioned Sample.unconfigured = false.
Proof.
  destruct (unmanaged_offline_unprovisioned (validation := Sample.validation)
              Sample.unconfigured) as [Hun _].
  apply Hun. reflexivity.
Defined.

End ConfigFunctionsProps.
